(** * Hiking directory: postcode geocoder and proximity search

    A shallow embedding of the geospatial core of the hiking directory and
    the proofs of its specified properties.  The code embedded:
    - the API route of the postcode search ([normalisePostcode],
      [postcodeToFilename], [haversineDistanceKm], [loadPostcodeRecord],
      [loadAllHikes], [GET]), module [Route];
    - [lib/hikes.ts] ([getHikeBySlug], [getAllHikes], [haversineKm],
      [getNearbyHikes]), module [Lib];
    - [scripts/preprocess-postcodes.ts], module [Preprocess];
    - the loop of [main] in [scripts/enrich-hikes.ts], module [Enrich].

    Modelling conventions.
    - A JavaScript number is a real number, an infinity or NaN ([number]).
      Arithmetic on finite values is exact: binary64 rounding, overflow and
      the sign of zero are outside the model.  Where rounding can turn a
      result of the program into NaN (the great-circle distance of
      antipodal points), no theorem promises a number: such theorems are
      stated of the numbers the program returns.
    - A JavaScript string is a [string], one [ascii] per code unit, for the
      ASCII repertoire (postcodes, CSV headers, slugs and file names).
    - A value read from JSON is a [json]; [undefined] is [None].
    - A JSON file is represented by what [JSON.parse] makes of its text.
    - [try]/[catch] is an error monad ([completion]).  The conversion of
      an object to a number or to a property key throws where the language
      makes it throw ([ToPrimitive_throws]).
    - What the language provides and the code only calls, the reading of a
      string as a number and the printing of a value in a template, is a
      [Variable] of the section that needs it. *)

From Stdlib Require Import Reals Lra Lia ZArith List String Ascii Bool.
From Stdlib Require Import Sorted Permutation DecimalString.
From stdpp Require Import gmap strings.
Import ListNotations.

#[local] Set Warnings "-register-all".
#[local] Set Warnings "-notation-overridden".
#[local] Set Warnings "-ambiguous-paths".

Local Open Scope string_scope.
Local Open Scope list_scope.

(* ====================================================================== *)
(** * JavaScript numbers *)

Module Num.

Inductive number : Type :=
| NaN
| PosInf
| NegInf
| Num (r : R).

Definition Rltb (a b : R) : bool := if Rlt_dec a b then true else false.
Definition Rleb (a b : R) : bool := if Rle_dec a b then true else false.
Definition Reqb (a b : R) : bool := if Req_dec_T a b then true else false.

Definition isNaN (a : number) : bool :=
  match a with NaN => true | _ => false end.

(** Unary minus. *)
Definition neg (a : number) : number :=
  match a with
  | NaN => NaN
  | PosInf => NegInf
  | NegInf => PosInf
  | Num r => Num (- r)
  end.

(** [a + b]. *)
Definition add (a b : number) : number :=
  match a, b with
  | NaN, _ | _, NaN => NaN
  | PosInf, NegInf | NegInf, PosInf => NaN
  | PosInf, _ | _, PosInf => PosInf
  | NegInf, _ | _, NegInf => NegInf
  | Num x, Num y => Num (x + y)
  end.

(** [a - b]. *)
Definition sub (a b : number) : number := add a (neg b).

(** The infinity with the sign of [r], NaN for zero. *)
Definition inf_signed (positive : bool) (r : R) : number :=
  if Rltb 0 r then (if positive then PosInf else NegInf)
  else if Rltb r 0 then (if positive then NegInf else PosInf)
  else NaN.

(** [a * b]. *)
Definition mul (a b : number) : number :=
  match a, b with
  | NaN, _ | _, NaN => NaN
  | Num x, Num y => Num (x * y)
  | Num x, PosInf | PosInf, Num x => inf_signed true x
  | Num x, NegInf | NegInf, Num x => inf_signed false x
  | PosInf, PosInf | NegInf, NegInf => PosInf
  | PosInf, NegInf | NegInf, PosInf => NegInf
  end.

(** [a / b]; a zero divisor is taken as [+0]. *)
Definition div (a b : number) : number :=
  match a, b with
  | NaN, _ | _, NaN => NaN
  | Num x, Num y => if Reqb y 0 then inf_signed true x else Num (x / y)
  | Num _, PosInf | Num _, NegInf => Num 0
  | PosInf, Num y => if Rltb y 0 then NegInf else PosInf
  | NegInf, Num y => if Rltb y 0 then PosInf else NegInf
  | _, _ => NaN
  end.

(** [a < b] and [a <= b]: false as soon as one side is NaN. *)
Definition ltb (a b : number) : bool :=
  match a, b with
  | NaN, _ | _, NaN => false
  | NegInf, NegInf | PosInf, _ | _, NegInf => false
  | NegInf, _ | _, PosInf => true
  | Num x, Num y => Rltb x y
  end.

Definition leb (a b : number) : bool :=
  match a, b with
  | NaN, _ | _, NaN => false
  | NegInf, _ | _, PosInf => true
  | PosInf, _ | _, NegInf => false
  | Num x, Num y => Rleb x y
  end.

(** [a === b] on numbers. *)
Definition eqb (a b : number) : bool :=
  match a, b with
  | PosInf, PosInf | NegInf, NegInf => true
  | Num x, Num y => Reqb x y
  | _, _ => false
  end.

Definition Math_PI : number := Num PI.

Definition Math_sin (a : number) : number :=
  match a with Num r => Num (sin r) | _ => NaN end.

Definition Math_cos (a : number) : number :=
  match a with Num r => Num (cos r) | _ => NaN end.

Definition Math_sqrt (a : number) : number :=
  match a with
  | Num r => if Rltb r 0 then NaN else Num (sqrt r)
  | PosInf => PosInf
  | _ => NaN
  end.

(** [Math.atan2(y, x)] on finite arguments. *)
Definition Ratan2 (y x : R) : R :=
  if Rltb 0 x then atan (y / x)
  else if Rltb x 0 then
    (if Rleb 0 y then atan (y / x) + PI else atan (y / x) - PI)
  else if Rltb 0 y then PI / 2
  else if Rltb y 0 then - (PI / 2)
  else 0.

Definition Math_atan2 (y x : number) : number :=
  match y, x with
  | NaN, _ | _, NaN => NaN
  | PosInf, PosInf => Num (PI / 4)
  | PosInf, NegInf => Num (3 * PI / 4)
  | PosInf, Num _ => Num (PI / 2)
  | NegInf, PosInf => Num (- (PI / 4))
  | NegInf, NegInf => Num (- (3 * PI / 4))
  | NegInf, Num _ => Num (- (PI / 2))
  | Num _, PosInf => Num 0
  | Num b, NegInf => if Rleb 0 b then Num PI else Num (- PI)
  | Num b, Num a => Num (Ratan2 b a)
  end.

(** The integer nearest to [100 * r] for [0 <= r], the larger one of two. *)
Definition round_half_up (r : R) : Z := Int_part (100 * r + / 2).

(** [Number(a.toFixed(2))].  [toFixed] rounds the magnitude to the nearest
    multiple of 1/100, the larger one of two nearest, and keeps the sign;
    [Number] reads the digits back.  From 1e21 on [toFixed] prints the
    number itself, which in binary64 is an integer; on the reals the
    rounding is applied throughout. *)
Definition toFixed2 (a : number) : number :=
  match a with
  | Num r =>
      if Rltb r 0 then Num (- (IZR (round_half_up (- r)) / 100))
      else Num (IZR (round_half_up r) / 100)
  | other => other
  end.

(** Truncation toward zero. *)
Definition Rtrunc (r : R) : Z :=
  if Rltb r 0 then (- Int_part (- r))%Z else Int_part r.

(** [Array.prototype.slice(0, end)] on an array of length [len]: the
    number of elements kept, through [ToIntegerOrInfinity(end)]. *)
Definition slice_end (len : nat) (e : number) : nat :=
  match e with
  | NaN => 0
  | PosInf => len
  | NegInf => 0
  | Num r =>
      let k := Rtrunc r in
      if (k <? 0)%Z then Z.to_nat (Z.max (Z.of_nat len + k) 0)
      else Z.to_nat (Z.min k (Z.of_nat len))
  end.

End Num.
Export Num.

(* ====================================================================== *)
(** * JavaScript strings *)

Module Str.

Definition chars : string -> list ascii := list_ascii_of_string.
Definition str : list ascii -> string := string_of_list_ascii.

(** White space and line terminators ([\s], [trim]) in the ASCII range:
    TAB, LF, VT, FF, CR and SP. *)
Definition isWhiteSpace (c : ascii) : bool :=
  let n := nat_of_ascii c in
  (((9 <=? n) && (n <=? 13)) || (n =? 32))%nat.

Definition toUpperChar (c : ascii) : ascii :=
  let n := nat_of_ascii c in
  if ((97 <=? n) && (n <=? 122))%nat then ascii_of_nat (n - 32) else c.

Definition toLowerChar (c : ascii) : ascii :=
  let n := nat_of_ascii c in
  if ((65 <=? n) && (n <=? 90))%nat then ascii_of_nat (n + 32) else c.

Definition isUpperAZ (c : ascii) : bool :=
  let n := nat_of_ascii c in ((65 <=? n) && (n <=? 90))%nat.

Fixpoint dropWhile {A} (f : A -> bool) (l : list A) : list A :=
  match l with
  | [] => []
  | x :: r => if f x then dropWhile f r else l
  end.

Fixpoint takeWhile {A} (f : A -> bool) (l : list A) : list A :=
  match l with
  | [] => []
  | x :: r => if f x then x :: takeWhile f r else []
  end.

Definition trimStartL (l : list ascii) : list ascii := dropWhile isWhiteSpace l.
Definition trimEndL (l : list ascii) : list ascii :=
  rev (dropWhile isWhiteSpace (rev l)).
Definition trimL (l : list ascii) : list ascii := trimEndL (trimStartL l).

(** [s.replace(/\s+/g, '')]. *)
Definition stripL (l : list ascii) : list ascii :=
  List.filter (fun c => negb (isWhiteSpace c)) l.

(** [s.replace(/\s+/g, ' ')]: every maximal run of white space becomes one
    space.  [inRun] tells that the previous character was white space. *)
Fixpoint collapseL (inRun : bool) (l : list ascii) : list ascii :=
  match l with
  | [] => []
  | c :: r =>
      if isWhiteSpace c then
        (if inRun then collapseL true r else " "%char :: collapseL true r)
      else c :: collapseL false r
  end.

(** [s.replace(/\s+/, '-')]: the first maximal run of white space becomes
    one hyphen, the rest is kept. *)
Fixpoint replaceFirstRunL (l : list ascii) : list ascii :=
  match l with
  | [] => []
  | c :: r =>
      if isWhiteSpace c then "-"%char :: dropWhile isWhiteSpace r
      else c :: replaceFirstRunL r
  end.

(** [s.split(sep)] for a one-character separator. *)
Fixpoint splitL (sep : ascii) (cur : list ascii) (l : list ascii)
  : list (list ascii) :=
  match l with
  | [] => [rev cur]
  | c :: r =>
      if Ascii.eqb c sep then rev cur :: splitL sep [] r
      else splitL sep (c :: cur) r
  end.

Definition trim (s : string) : string := str (trimL (chars s)).
Definition toUpperCase (s : string) : string := str (map toUpperChar (chars s)).
Definition toLowerCase (s : string) : string := str (map toLowerChar (chars s)).
Definition replaceAllWs_empty (s : string) : string := str (stripL (chars s)).
Definition replaceAllWs_space (s : string) : string :=
  str (collapseL false (chars s)).
Definition replaceFirstWs_hyphen (s : string) : string :=
  str (replaceFirstRunL (chars s)).
Definition includes (s : string) (c : ascii) : bool :=
  existsb (Ascii.eqb c) (chars s).
Definition split (s : string) (sep : ascii) : list string :=
  map str (splitL sep [] (chars s)).

(** [s.slice(0, s.length - k)], [s.slice(0, -k)] and [s.slice(-k)], for
    [0 < k]. *)
Definition slice_to_minus (k : nat) (s : string) : string :=
  str (firstn (String.length s - k) (chars s)).
Definition slice_from_minus (k : nat) (s : string) : string :=
  str (skipn (String.length s - k) (chars s)).

(** [s.endsWith(suffix)]. *)
Definition endsWith (s suffix : string) : bool :=
  let n := String.length s in
  let m := String.length suffix in
  (m <=? n)%nat && String.eqb (str (skipn (n - m) (chars s))) suffix.

(** [!s] for a string. *)
Definition isEmpty (s : string) : bool :=
  match s with EmptyString => true | _ => false end.

End Str.

(* ====================================================================== *)
(** * JSON values, exceptions and the file store *)

Module Json.

Inductive json : Type :=
| JNull
| JBool (b : bool)
| JNum (n : number)
| JStr (s : string)
| JArr (items : list json)
| JObj (fields : list (string * json)).

(** A JavaScript value born from JSON; [None] is [undefined]. *)
Definition value : Type := option json.

(** The properties of an object, in insertion order. *)
Definition object : Type := list (string * json).

Fixpoint lookup (k : string) (fs : object) : value :=
  match fs with
  | [] => None
  | (k', v) :: r => if String.eqb k' k then Some v else lookup k r
  end.

(** [o[k] = v] on the property list: an existing property keeps its place. *)
Fixpoint assign (k : string) (v : json) (fs : object) : object :=
  match fs with
  | [] => [(k, v)]
  | (k', v') :: r =>
      if String.eqb k' k then (k, v) :: r else (k', v') :: assign k v r
  end.

(** [o.k] for a value [o] that is neither [null] nor [undefined].  The keys
    read by the program ([start], [lat], [lon], [slug], [in_use],
    [latitude], [longitude], [postcode], [ai] and the distance annotations) are
    properties of no string, array, number or boolean. *)
Definition prop (o : json) (k : string) : value :=
  match o with
  | JObj fs => lookup k fs
  | _ => None
  end.

Inductive error : Type :=
| TypeError
| SyntaxError
| SystemError
| ApiError (code : string).

(** The outcome of evaluating an expression that may throw. *)
Inductive completion (A : Type) : Type :=
| Normal (a : A)
| Throw (e : error).
Arguments Normal {A} a.
Arguments Throw {A} e.

#[global] Instance completion_ret : MRet completion := fun A a => Normal a.
#[global] Instance completion_bind : MBind completion :=
  fun A B f m => match m with Normal a => f a | Throw e => Throw e end.

(** [try { body } catch { handler }]. *)
Definition try_catch {A} (body : completion A) (handler : error -> A) : A :=
  match body with Normal a => a | Throw e => handler e end.

(** [v.k]: a TypeError on [null] and [undefined]. *)
Definition member (v : value) (k : string) : completion value :=
  match v with
  | None | Some JNull => Throw TypeError
  | Some o => Normal (prop o k)
  end.

(** [v?.k]. *)
Definition optmember (v : value) (k : string) : value :=
  match v with
  | None | Some JNull => None
  | Some o => prop o k
  end.

(** [typeof v === 'number']. *)
Definition typeof_number (v : value) : bool :=
  match v with Some (JNum _) => true | _ => false end.

(** [v === false]. *)
Definition is_false (v : value) : bool :=
  match v with Some (JBool false) => true | _ => false end.

(** [v === s] for a string [s]. *)
Definition is_string (v : value) (s : string) : bool :=
  match v with Some (JStr t) => String.eqb t s | _ => false end.

(** ToBoolean. *)
Definition truthy (v : value) : bool :=
  match v with
  | None | Some JNull => false
  | Some (JBool b) => b
  | Some (JNum n) => negb (isNaN n || Num.eqb n (Num 0))
  | Some (JStr s) => negb (Str.isEmpty s)
  | Some (JArr _) | Some (JObj _) => true
  end.

(** [{ ...v }]: the own enumerable properties of an object.  A number,
    boolean or [null] has none; a string or an array, whose properties are
    its indices, never comes this far: the callbacks that spread a hike
    have read its [start.lat] before, which only an object has. *)
Definition spread (o : json) : object :=
  match o with
  | JObj fs => fs
  | _ => []
  end.

(** A file of the store, by what [JSON.parse] makes of its text. *)
Inductive file : Type :=
| Garbage
| Doc (j : json).

Record FileSystem : Type := {
  cwd : string;
  readFile : string -> option file;
  readdir : string -> option (list string)
}.

Definition path_join (dir name : string) : string := dir ++ "/" ++ name.

Definition fs_readFile (fs : FileSystem) (p : string) : completion file :=
  match readFile fs p with
  | Some f => Normal f
  | None => Throw SystemError
  end.

Definition fs_readdir (fs : FileSystem) (p : string)
  : completion (list string) :=
  match readdir fs p with
  | Some l => Normal l
  | None => Throw SystemError
  end.

Definition JSON_parse (f : file) : completion json :=
  match f with
  | Doc j => Normal j
  | Garbage => Throw SyntaxError
  end.

(** [Object.prototype.hasOwnProperty]. *)
Definition hasOwn (k : string) (fs : object) : bool :=
  match lookup k fs with
  | Some _ => true
  | None => false
  end.

(** ToPrimitive throws a TypeError on an object that has a property
    [toString] of its own: no value of JSON is callable, so the property
    hides [Object.prototype.toString], and [valueOf], own or inherited,
    gives no primitive.  An array is printed by [join], which converts
    each element that is not [null]. *)
Fixpoint ToPrimitive_throws (j : json) : bool :=
  match j with
  | JObj fs => hasOwn "toString" fs
  | JArr items => existsb ToPrimitive_throws items
  | JNull | JBool _ | JNum _ | JStr _ => false
  end.

(** ToPropertyKey, for [o[v]]: the conversion completes or throws. *)
Definition ToPropertyKey (v : value) : completion unit :=
  match v with
  | Some j => if ToPrimitive_throws j then Throw TypeError else Normal tt
  | None => Normal tt
  end.

Section ToNumber.

(** The StringToNumber operation of the language, on which [Number(s)] and
    the arithmetic operators rest. *)
Variable StringToNumber : string -> number.

(** The number ToNumber gives when ToPrimitive completes.  An array goes
    through its [toString()]: the empty array reads as the empty string, a
    one-element array as its element's string, a longer one holds a comma
    and is no numeral; an object prints as [[object Object]]. *)
Fixpoint ToNumber_json (j : json) : number :=
  match j with
  | JNull => Num 0
  | JBool b => if b then Num 1 else Num 0
  | JNum n => n
  | JStr s => StringToNumber s
  | JArr [] => StringToNumber EmptyString
  | JArr [x] =>
      match x with
      | JNull => StringToNumber EmptyString
      | JNum n => n
      | JStr s => StringToNumber s
      | JArr _ => ToNumber_json x
      | JBool _ | JObj _ => NaN
      end
  | JArr _ => NaN
  | JObj _ => NaN
  end.

Definition ToNumber (v : value) : number :=
  match v with
  | None => NaN
  | Some j => ToNumber_json j
  end.

(** ToNumeric, as an arithmetic operator applies it to an operand:
    ToPrimitive first, which may throw. *)
Definition ToNumeric (v : value) : completion number :=
  match v with
  | None => Normal NaN
  | Some j =>
      if ToPrimitive_throws j then Throw TypeError
      else Normal (ToNumber_json j)
  end.

End ToNumber.

(** ** Arrays *)

Section ArraySort.

Context {A : Type}.

(** The comparison function's result, as [sort] reads it: a negative
    number puts [x] first; NaN counts as zero. *)
Variable comparefn : A -> A -> number.

Definition before (x y : A) : bool := Num.ltb (comparefn x y) (Num 0).

(** [Array.prototype.sort] is stable: for a consistent comparison function
    its result is the stable sorted arrangement, which insertion computes.
    [x] stood before every element of [l]. *)
Fixpoint sort_insert (x : A) (l : list A) : list A :=
  match l with
  | [] => [x]
  | y :: r => if before y x then y :: sort_insert x r else x :: l
  end.

Definition Array_sort (l : list A) : list A := fold_right sort_insert [] l.

(** [l.slice(0, e)]. *)
Definition Array_slice0 (l : list A) (e : number) : list A :=
  firstn (slice_end (List.length l) e) l.

End ArraySort.

(** [l.filter(f)] for a callback that may throw. *)
Fixpoint filterM {A} (f : A -> completion bool) (l : list A)
  : completion (list A) :=
  match l with
  | [] => mret []
  | x :: r =>
      b ← f x;
      k ← filterM f r;
      mret (if b : bool then x :: k else k)
  end.

End Json.
Export Json.

(* ====================================================================== *)
(** * The postcode API route: [GET /api/hikes-near?postcode=..] *)

Module Route.

Import Str.

Definition normalisePostcode (raw : string) : string :=
  let trimmed := toUpperCase (trim raw) in
  let singleSpaced := replaceAllWs_space trimmed in
  if includes singleSpaced " " then singleSpaced
  else if (3 <? String.length singleSpaced)%nat then
    let prefix := slice_to_minus 3 singleSpaced in
    let suffix := slice_from_minus 3 singleSpaced in
    prefix ++ " " ++ suffix
  else singleSpaced.

Definition postcodeToFilename (postcode : string) : string :=
  let noSpace := replaceFirstWs_hyphen postcode in
  noSpace ++ ".json".

Definition toRad (deg : number) : number := div (mul deg Math_PI) (Num 180).

(** The great-circle distance, in exact arithmetic: the term [a] lies
    within [0, 1] here, while in binary64 it can round above 1 for
    antipodal points, which makes the result of the program NaN. *)
Definition haversineDistanceKm (lat1 lon1 lat2 lon2 : number) : number :=
  let R := Num 6371 in
  let dLat := toRad (sub lat2 lat1) in
  let dLon := toRad (sub lon2 lon1) in
  let a :=
    add (mul (Math_sin (div dLat (Num 2))) (Math_sin (div dLat (Num 2))))
        (mul (mul (mul (Math_cos (toRad lat1)) (Math_cos (toRad lat2)))
                  (Math_sin (div dLon (Num 2))))
             (Math_sin (div dLon (Num 2)))) in
  let c := mul (Num 2) (Math_atan2 (Math_sqrt a) (Math_sqrt (sub (Num 1) a))) in
  mul R c.

(** The record of a postcode, or [null]. *)
Definition loadPostcodeRecord (fs : FileSystem) (postcode : string) : json :=
  try_catch
    (let baseDir :=
       path_join (path_join (path_join (cwd fs) "data") "postcodes") "by-code" in
     let filename := postcodeToFilename postcode in
     let fullPath := path_join baseDir filename in
     file ← fs_readFile fs fullPath;
     json ← JSON_parse file;
     in_use ← member (Some json) "in_use";
     if is_false in_use then mret JNull else mret json)
    (fun _ => JNull).

(** [typeof hike.start?.lat === 'number' &&
     typeof hike.start?.lon === 'number']. *)
Definition hasNumericStart (hike : json) : completion bool :=
  start ← member (Some hike) "start";
  mret (typeof_number (optmember start "lat")
        && typeof_number (optmember start "lon")).

(** One turn of the loop of [loadAllHikes]. *)
Definition loadHikeFile (fs : FileSystem) (hikesDir : string)
    (hikes : list json) (fileName : string) : list json :=
  if negb (endsWith fileName ".json") then hikes
  else
    try_catch
      (let fullPath := path_join hikesDir fileName in
       jsonStr ← fs_readFile fs fullPath;
       hike ← JSON_parse jsonStr;
       ok ← hasNumericStart hike;
       mret (if ok : bool then hikes ++ [hike] else hikes))
      (fun _ => hikes).

Definition loadAllHikes (fs : FileSystem) : list json :=
  let hikesDir := path_join (path_join (cwd fs) "data") "hikes" in
  match fs_readdir fs hikesDir with
  | Throw _ => []
  | Normal files => fold_left (loadHikeFile fs hikesDir) files []
  end.

Record request : Type := {
  q_postcode : option string;
  q_distance : option string;
  q_limit : option string
}.

Inductive body : Type :=
| ErrorBody (error : string)
| ResultsBody (postcode : value) (normalisedPostcode : string)
    (maxDistanceKm limit : number) (resultCount : nat) (results : list json).

Record response : Type := {
  status : nat;
  payload : body
}.

Definition json_error (msg : string) (code : nat) : response :=
  {| status := code; payload := ErrorBody msg |}.

Section Host.

Variable StringToNumber : string -> number.

#[local] Abbreviation ToNumber := (ToNumber StringToNumber).
#[local] Abbreviation ToNumeric := (ToNumeric StringToNumber).

(** [h.distanceFromPostcodeKm] as a number; the property holds the number
    [withDistance] has put there. *)
Definition distanceFromPostcodeKm (h : json) : number :=
  ToNumber (prop h "distanceFromPostcodeKm").

(** The callback of [hikes.map]: the hike with its distance attached.
    The arguments of [haversineDistanceKm] are whatever the record and the
    hike hold; its first lines, [lat2 - lat1] and [lon2 - lon1], convert
    them to numbers, and throw on one that has no primitive. *)
Definition withDistance (postcodeRecord hike : json) : completion json :=
  lat1 ← member (Some postcodeRecord) "latitude";
  lon1 ← member (Some postcodeRecord) "longitude";
  start ← member (Some hike) "start";
  lat2 ← member start "lat";
  lon2 ← member start "lon";
  _ ← ToNumeric lat2;
  _ ← ToNumeric lat1;
  _ ← ToNumeric lon2;
  _ ← ToNumeric lon1;
  let distance :=
    haversineDistanceKm (ToNumber lat1) (ToNumber lon1)
                        (ToNumber lat2) (ToNumber lon2) in
  mret (JObj (assign "distanceFromPostcodeKm" (JNum (toFixed2 distance))
                (spread hike))).

(** The [results] expression of [GET]: map, filter, sort, slice. *)
Definition searchResults (postcodeRecord : json) (hikes : list json)
    (maxDistanceKm limit : number) : completion (list json) :=
  mapped ← mapM (withDistance postcodeRecord) hikes;
  mret
    (Array_slice0
       (Array_sort
          (fun a b => sub (distanceFromPostcodeKm a) (distanceFromPostcodeKm b))
          (List.filter
             (fun h => Num.leb (distanceFromPostcodeKm h) maxDistanceKm)
             mapped))
       limit).

Definition GET (fs : FileSystem) (req : request) : completion response :=
  let rawPostcode := q_postcode req in
  let rawDistance := default "50" (q_distance req) in
  let rawLimit := default "20" (q_limit req) in
  match rawPostcode with
  | None | Some EmptyString =>
      mret (json_error "Missing required query parameter: postcode" 400)
  | Some rawPostcode =>
      let postcode := normalisePostcode rawPostcode in
      let maxDistanceKm := StringToNumber rawDistance in
      let limit := StringToNumber rawLimit in
      if isNaN maxDistanceKm || Num.leb maxDistanceKm (Num 0) then
        mret (json_error "distance must be a positive number (km)" 400)
      else if isNaN limit || Num.leb limit (Num 0) then
        mret (json_error "limit must be a positive number" 400)
      else
        let postcodeRecord := loadPostcodeRecord fs postcode in
        if negb (truthy (Some postcodeRecord)) then
          mret (json_error
                  ("Postcode not found or not in use: " ++ postcode) 404)
        else
          let hikes := loadAllHikes fs in
          if (List.length hikes =? 0)%nat then
            mret (json_error "No hikes data available yet" 500)
          else
            results ← searchResults postcodeRecord hikes maxDistanceKm limit;
            mret {| status := 200;
                    payload :=
                      ResultsBody (prop postcodeRecord "postcode") postcode
                        maxDistanceKm limit (List.length results) results |}
  end.

End Host.

End Route.

(* ====================================================================== *)
(** * [lib/hikes.ts]: hikes near a hike *)

Module Lib.

Import Str.

Definition DATA_DIR (fs : FileSystem) : string :=
  path_join (path_join (cwd fs) "data") "hikes".

(** The hike of a slug, or [null]. *)
Definition getHikeBySlug (fs : FileSystem) (slug : string) : json :=
  let filePath := path_join (DATA_DIR fs) (slug ++ ".json") in
  try_catch
    (file ← fs_readFile fs filePath;
     JSON_parse file)
    (fun _ => JNull).

(** [file.replace(/\.json$/, '')]. *)
Definition dropJsonSuffix (file : string) : string :=
  if endsWith file ".json" then slice_to_minus 5 file else file.

(** One turn of the loop of [getAllHikes]. *)
Definition pushHikeOfFile (fs : FileSystem) (hikes : list json)
    (file : string) : list json :=
  if negb (endsWith file ".json") then hikes
  else
    let slug := dropJsonSuffix file in
    let hike := getHikeBySlug fs slug in
    if truthy (Some hike) then hikes ++ [hike] else hikes.

Definition getAllHikes (fs : FileSystem) : list json :=
  try_catch
    (files ← fs_readdir fs (DATA_DIR fs);
     mret (fold_left (pushHikeOfFile fs) files []))
    (fun _ => []).

Definition toRad (deg : number) : number := div (mul deg Math_PI) (Num 180).

(** The same function as [haversineDistanceKm] of the route, with the
    same distance between the exact result and the rounded one. *)
Definition haversineKm (lat1 lon1 lat2 lon2 : number) : number :=
  let R := Num 6371 in
  let dLat := toRad (sub lat2 lat1) in
  let dLon := toRad (sub lon2 lon1) in
  let a :=
    add (mul (Math_sin (div dLat (Num 2))) (Math_sin (div dLat (Num 2))))
        (mul (mul (mul (Math_cos (toRad lat1)) (Math_cos (toRad lat2)))
                  (Math_sin (div dLon (Num 2))))
             (Math_sin (div dLon (Num 2)))) in
  let c := mul (Num 2) (Math_atan2 (Math_sqrt a) (Math_sqrt (sub (Num 1) a))) in
  mul R c.

Section Host.

Variable StringToNumber : string -> number.

#[local] Abbreviation ToNumber := (ToNumber StringToNumber).
#[local] Abbreviation ToNumeric := (ToNumeric StringToNumber).

(** [h.distance_from_start_km] as a number; the property holds the number
    [withDistance] has put there. *)
Definition distance_from_start_km (h : json) : number :=
  ToNumber (prop h "distance_from_start_km").

(** [(h) => h.slug !== slug]. *)
Definition notSlug (slug : string) (h : json) : completion bool :=
  s ← member (Some h) "slug";
  mret (negb (is_string s slug)).

(** [(h) => typeof h.start?.lat === 'number' &&
            typeof h.start?.lon === 'number']. *)
Definition hasNumericStart (h : json) : completion bool :=
  start ← member (Some h) "start";
  mret (typeof_number (optmember start "lat")
        && typeof_number (optmember start "lon")).

(** The callback of [map]: the hike with its distance from [center].
    The first lines of [haversineKm], [lat2 - lat1] and [lon2 - lon1],
    convert the arguments to numbers, and throw on one that has no
    primitive. *)
Definition withDistance (center h : json) : completion json :=
  cstart ← member (Some center) "start";
  lat1 ← member cstart "lat";
  lon1 ← member cstart "lon";
  start ← member (Some h) "start";
  lat2 ← member start "lat";
  lon2 ← member start "lon";
  _ ← ToNumeric lat2;
  _ ← ToNumeric lat1;
  _ ← ToNumeric lon2;
  _ ← ToNumeric lon1;
  let d :=
    haversineKm (ToNumber lat1) (ToNumber lon1)
                (ToNumber lat2) (ToNumber lon2) in
  mret (JObj (assign "distance_from_start_km" (JNum d) (spread h))).

(** The [withDistance] expression of [getNearbyHikes]. *)
Definition nearby (center : json) (all : list json) (slug : string)
    (maxDistanceKm limit : number) : completion (list json) :=
  others ← filterM (notSlug slug) all;
  located ← filterM hasNumericStart others;
  mapped ← mapM (withDistance center) located;
  mret
    (Array_slice0
       (Array_sort
          (fun a b => sub (distance_from_start_km a) (distance_from_start_km b))
          (List.filter
             (fun h => Num.leb (distance_from_start_km h) maxDistanceKm)
             mapped))
       limit).

(** [getNearbyHikes(slug, maxDistanceKm = 30, limit = 4)]: an omitted
    argument is [None]. *)
Definition getNearbyHikes (fs : FileSystem) (slug : string)
    (maxDistanceKm limit : option number) : completion (list json) :=
  let maxDistanceKm := default (Num 30) maxDistanceKm in
  let limit := default (Num 4) limit in
  let center := getHikeBySlug fs slug in
  if negb (truthy (Some center)) then mret []
  else
    let all := getAllHikes fs in
    nearby center all slug maxDistanceKm limit.

End Host.

End Lib.

(* ====================================================================== *)
(** * [scripts/preprocess-postcodes.ts] *)

Module Preprocess.

Import Str.

Record PostcodeRecord : Type := {
  postcode : string;
  area : string;
  district : string;
  sector : string;
  latitude : number;
  longitude : number;
  easting : option number;
  northing : option number;
  gridref : option string;
  district_code : option string;
  ward_code : option string;
  lsoa_code : option string;
  msoa_code : option string;
  itl_level_2 : option string;
  itl_level_3 : option string;
  country : option string;
  in_use : bool
}.

Record DistrictIndexItem : Type := {
  item_postcode : string;
  item_latitude : number;
  item_longitude : number
}.

Definition normalisePostcode (raw : string) : string :=
  let trimmed := replaceAllWs_empty (toUpperCase (trim raw)) in
  if isEmpty trimmed then EmptyString
  else if (String.length trimmed <=? 3)%nat then trimmed
  else
    let outward := slice_to_minus 3 trimmed in
    let inward := slice_from_minus 3 trimmed in
    outward ++ " " ++ inward.

(** [area], [district] and [sector] of a normalised postcode. *)
Definition deriveAreaDistrictSector (pc : string) : string * string * string :=
  let parts := split pc " " in
  let outward := nth 0 parts EmptyString in
  let inward := nth_error parts 1 in
  let areaMatch := takeWhile isUpperAZ (chars outward) in
  let area := match areaMatch with [] => outward | _ => str areaMatch end in
  let district := outward in
  let sector :=
    match inward with
    | Some (String c _) => (outward ++ " " ++ String c EmptyString)%string
    | _ => outward
    end in
  (area, district, sector).

Definition truthyFlag (value : option string) : bool :=
  match value with
  | None | Some EmptyString => true
  | Some value =>
      let v := toLowerCase (trim value) in
      String.eqb v "y" || String.eqb v "yes" || String.eqb v "1"
      || String.eqb v "true" || String.eqb v "t"
  end.

Definition splitCsvLine (line : string) : list string :=
  map trim (split line ",").

Definition buildHeaderMap (headers : list string) : gmap string nat :=
  foldl (fun map '(idx, h) => <[toLowerCase h := idx]> map) ∅
        (imap pair headers).

Definition getField (row : list string) (headerMap : gmap string nat)
    (name : string) : option string :=
  match headerMap !! toLowerCase name with
  | None => None
  | Some idx => row !! idx
  end.

(** The variables of the reading loop and the files written so far. *)
Record state : Type := {
  lineNumber : nat;
  headerMap : option (gmap string nat);
  districtIndex : gmap string (list DistrictIndexItem);
  byCode : gmap string PostcodeRecord;
  totalRows : nat;
  writtenByCode : nat;
  skippedNoCoords : nat;
  skippedNoPostcode : nat
}.

Definition initial : state :=
  {| lineNumber := 0; headerMap := None; districtIndex := ∅; byCode := ∅;
     totalRows := 0; writtenByCode := 0; skippedNoCoords := 0;
     skippedNoPostcode := 0 |}.

(** The summary printed at the end of a run. *)
Record summary : Type := {
  sum_totalRows : nat;
  sum_written : nat;
  sum_skippedNoPostcode : nat;
  sum_skippedNoCoords : nat
}.

(** What a run leaves behind: the files by code, the files by district and
    the summary. *)
Record output : Type := {
  out_byCode : gmap string PostcodeRecord;
  out_byDistrict : gmap string (string * nat * list DistrictIndexItem);
  out_summary : summary
}.

Section Host.

Variable StringToNumber : string -> number.

(** [fs.writeFileSync] throws on a path it cannot write. *)
Variable writable : string -> bool.

Definition parseNumber (value : option string) : option number :=
  match value with
  | None | Some EmptyString => None
  | Some value =>
      let trimmed := trim value in
      if isEmpty trimmed then None
      else
        let n := StringToNumber trimmed in
        if isNaN n then None else Some n
  end.

(** The output directories, from the working directory. *)
Definition OUT_BY_CODE : string := "data/postcodes/by-code".
Definition OUT_BY_DISTRICT : string := "data/postcodes/by-district".

(** A data row, after the header: [None] when the run is aborted. *)
Definition processRow (st : state) (headerMap : gmap string nat)
    (line : string) : option state :=
  let cols := splitCsvLine line in
  let st :=
    {| lineNumber := lineNumber st; headerMap := Some headerMap;
       districtIndex := districtIndex st; byCode := byCode st;
       totalRows := S (totalRows st); writtenByCode := writtenByCode st;
       skippedNoCoords := skippedNoCoords st;
       skippedNoPostcode := skippedNoPostcode st |} in
  let skipNoPostcode :=
    {| lineNumber := lineNumber st; headerMap := Some headerMap;
       districtIndex := districtIndex st; byCode := byCode st;
       totalRows := totalRows st; writtenByCode := writtenByCode st;
       skippedNoCoords := skippedNoCoords st;
       skippedNoPostcode := S (skippedNoPostcode st) |} in
  match getField cols headerMap "Postcode" with
  | None | Some EmptyString => Some skipNoPostcode
  | Some rawPc =>
      let postcode := normalisePostcode rawPc in
      if isEmpty postcode then Some skipNoPostcode
      else
        let latStr := getField cols headerMap "Latitude" in
        let lonStr := getField cols headerMap "Longitude" in
        match parseNumber latStr, parseNumber lonStr with
        | Some lat, Some lon =>
            let inUseStr := getField cols headerMap "In Use?" in
            let inUse := truthyFlag inUseStr in
            let easting := parseNumber (getField cols headerMap "Easting") in
            let northing := parseNumber (getField cols headerMap "Northing") in
            let gridref := getField cols headerMap "Grid Reference" in
            let districtCode := getField cols headerMap "District Code" in
            let wardCode := getField cols headerMap "Ward Code" in
            let lsoa := getField cols headerMap "LSOA Code" in
            let msoa := getField cols headerMap "MSOA Code" in
            let itl2 := getField cols headerMap "ITL level 2" in
            let itl3 := getField cols headerMap "ITL level 3" in
            let country := getField cols headerMap "Country" in
            let '(area, district, sector) := deriveAreaDistrictSector postcode in
            let record :=
              {| postcode := postcode; area := area; district := district;
                 sector := sector; latitude := lat; longitude := lon;
                 easting := easting; northing := northing; gridref := gridref;
                 district_code := districtCode; ward_code := wardCode;
                 lsoa_code := lsoa; msoa_code := msoa; itl_level_2 := itl2;
                 itl_level_3 := itl3; country := country; in_use := inUse |} in
            let filename := replaceFirstWs_hyphen postcode in
            let outPath := path_join OUT_BY_CODE (filename ++ ".json") in
            if negb (writable outPath) then None
            else
              let item :=
                {| item_postcode := postcode; item_latitude := lat;
                   item_longitude := lon |} in
              Some
                {| lineNumber := lineNumber st; headerMap := Some headerMap;
                   districtIndex :=
                     <[district := default [] (districtIndex st !! district)
                                   ++ [item]]> (districtIndex st);
                   byCode := <[outPath := record]> (byCode st);
                   totalRows := totalRows st;
                   writtenByCode := S (writtenByCode st);
                   skippedNoCoords := skippedNoCoords st;
                   skippedNoPostcode := skippedNoPostcode st |}
        | _, _ =>
            Some
              {| lineNumber := lineNumber st; headerMap := Some headerMap;
                 districtIndex := districtIndex st; byCode := byCode st;
                 totalRows := totalRows st; writtenByCode := writtenByCode st;
                 skippedNoCoords := S (skippedNoCoords st);
                 skippedNoPostcode := skippedNoPostcode st |}
        end
  end.

(** The body of [for await (const line of rl)]; [None] is
    [process.exit(1)] or an exception that ends the run. *)
Definition step (st : state) (line : string) : option state :=
  let st :=
    {| lineNumber := S (lineNumber st); headerMap := headerMap st;
       districtIndex := districtIndex st; byCode := byCode st;
       totalRows := totalRows st; writtenByCode := writtenByCode st;
       skippedNoCoords := skippedNoCoords st;
       skippedNoPostcode := skippedNoPostcode st |} in
  if isEmpty (trim line) then Some st
  else if (lineNumber st =? 1)%nat then
    let headers := splitCsvLine line in
    Some
      {| lineNumber := lineNumber st;
         headerMap := Some (buildHeaderMap headers);
         districtIndex := districtIndex st; byCode := byCode st;
         totalRows := totalRows st; writtenByCode := writtenByCode st;
         skippedNoCoords := skippedNoCoords st;
         skippedNoPostcode := skippedNoPostcode st |}
  else
    match headerMap st with
    | None => None
    | Some headerMap => processRow st headerMap line
    end.

Fixpoint readLines (st : state) (lines : list string) : option state :=
  match lines with
  | [] => Some st
  | line :: rest =>
      match step st line with
      | None => None
      | Some st' => readLines st' rest
      end
  end.

(** The district files, written after the loop. *)
Definition districtFiles (index : gmap string (list DistrictIndexItem))
  : option (gmap string (string * nat * list DistrictIndexItem)) :=
  let entries := map_to_list index in
  if forallb (fun '(district, _) =>
                writable (path_join OUT_BY_DISTRICT (district ++ ".json")))
             entries
  then
    Some (list_to_map
            (map (fun '(district, items) =>
                    (path_join OUT_BY_DISTRICT (district ++ ".json"),
                     (district, List.length items, items)))
                 entries))
  else None.

(** [preprocess()]: [csv] is the lines of [data/uk_postcodes.csv], [None]
    when the file is missing.  The result is [None] when the run ends in
    [process.exit(1)]. *)
Definition preprocess (csv : option (list string)) : option output :=
  match csv with
  | None => None
  | Some lines =>
      match readLines initial lines with
      | None => None
      | Some st =>
          match districtFiles (districtIndex st) with
          | None => None
          | Some files =>
              Some {| out_byCode := byCode st;
                      out_byDistrict := files;
                      out_summary :=
                        {| sum_totalRows := totalRows st;
                           sum_written := writtenByCode st;
                           sum_skippedNoPostcode := skippedNoPostcode st;
                           sum_skippedNoCoords := skippedNoCoords st |} |}
          end
      end
  end.

End Host.

End Preprocess.

(* ====================================================================== *)
(** * [scripts/enrich-hikes.ts]: the enrichment batch *)

Module Enrich.

(** What one call of the text-generation API gives back. *)
Record enrichment : Type := {
  ai : json;
  inputTokens : nat;
  outputTokens : nat
}.

(** The counters of [main] and the files it has saved, latest first.
    The usage log and the checkpoint commits are left out. *)
Record state : Type := {
  calls : nat;
  saved : list (string * object);
  totalInput : nat;
  totalOutput : nat;
  processed : nat;
  failed : nat
}.

(** [!!hike.ai]. *)
Definition shouldSkip (hike : object) : bool := truthy (lookup "ai" hike).

(** [{ ...hike, ai }]. *)
Definition withAi (hike : object) (ai : json) : object := assign "ai" ai hike.

Definition isQuotaError (e : error) : bool :=
  match e with
  | ApiError code => String.eqb code "insufficient_quota"
  | _ => false
  end.

Section Host.

(** The API, by the number of calls made before: it may answer the same
    hike differently from one call to the next. *)
Variable callOpenAIForHike : nat -> object -> completion enrichment.

(** The string a slug is printed as in a template literal. *)
Variable ToString : value -> string.

Variable MAX_PER_RUN : nat.

(** [enrichWithRetry]: [retries] is [maxRetries - attempt], so the test
    [attempt > maxRetries] after [attempt++] is [retries = 0].  The
    result comes with the number of calls made. *)
Fixpoint enrichLoop (retries : nat) (calls : nat) (hike : object)
  : completion enrichment * nat :=
  match callOpenAIForHike calls hike with
  | Normal r => (Normal r, S calls)
  | Throw err =>
      if isQuotaError err then (Throw err, S calls)
      else
        match retries with
        | 0 => (Throw err, S calls)
        | S retries' => enrichLoop retries' (S calls) hike
        end
  end.

Definition enrichWithRetry (hike : object) (calls : nat)
  : completion enrichment * nat :=
  enrichLoop 2 calls hike.

(** [saveHike(dir, hike)]: the path and the record written. *)
Definition saveHike (dir : string) (hike : object) : string * object :=
  (path_join dir (ToString (lookup "slug" hike) ++ ".json"), hike).

(** The body of [for (const hike of toProcess)]. *)
Definition processHike (dir : string) (st : state) (hike : object) : state :=
  match enrichWithRetry hike (calls st) with
  | (Normal r, calls') =>
      {| calls := calls';
         saved := saveHike dir (withAi hike (ai r)) :: saved st;
         totalInput := totalInput st + inputTokens r;
         totalOutput := totalOutput st + outputTokens r;
         processed := S (processed st);
         failed := failed st |}
  | (Throw _, calls') =>
      {| calls := calls';
         saved := saved st;
         totalInput := totalInput st;
         totalOutput := totalOutput st;
         processed := processed st;
         failed := S (failed st) |}
  end.

Definition initial : state :=
  {| calls := 0; saved := []; totalInput := 0; totalOutput := 0;
     processed := 0; failed := 0 |}.

(** [main()], from the hikes read by [readHikes()] in directory [dir]. *)
Definition main (dir : string) (hikes : list object) : state :=
  let pending := List.filter (fun h => negb (shouldSkip h)) hikes in
  match pending with
  | [] => initial
  | _ =>
      let toProcess := firstn MAX_PER_RUN pending in
      fold_left (processHike dir) toProcess initial
  end.

End Host.

End Enrich.


(* ====================================================================== *)
(** * The notions the specification speaks of *)

Module Spec.

Import Str.

Section Distance.

Local Open Scope R_scope.

(** The haversine of the central angle, on the reals. *)
Definition hav_a (lat1 lon1 lat2 lon2 : R) : R :=
  sin ((lat2 - lat1) * PI / 180 / 2) * sin ((lat2 - lat1) * PI / 180 / 2)
  + cos (lat1 * PI / 180) * cos (lat2 * PI / 180)
    * sin ((lon2 - lon1) * PI / 180 / 2) * sin ((lon2 - lon1) * PI / 180 / 2).

(** The great-circle distance in kilometres, on the reals. *)
Definition hav_km (lat1 lon1 lat2 lon2 : R) : R :=
  let a := hav_a lat1 lon1 lat2 lon2 in
  6371 * (2 * Ratan2 (sqrt a) (sqrt (1 - a))).

(** [q] is [d] rounded to two decimal places. *)
Definition rounded2 (d q : R) : Prop :=
  exists n : Z, q = IZR n / 100 /\ Rabs (q - d) <= / 200.

End Distance.

Section Order.

Context {A : Type}.
Variable key : A -> number.

Definition hasKey (d : number) (x : A) : bool := Num.eqb (key x) d.

(** Ascending by [key]. *)
Definition ascending (l : list A) : Prop :=
  Sorted (fun a b => Num.leb (key a) (key b) = true) l.

(** Among equal keys the results keep the order of the corpus: the
    results of any one key are the first of that key in the corpus. *)
Definition tiesKeepOrder (corpus results : list A) : Prop :=
  forall d, exists rest,
    List.filter (hasKey d) corpus = List.filter (hasKey d) results ++ rest.

(** The comparison function of both searches: the difference of keys. *)
Definition byKey (a b : A) : number := sub (key a) (key b).

(** The chain [filter], [sort], [slice] of both searches. *)
Definition nearest (maxDistanceKm limit : number) (l : list A) : list A :=
  Array_slice0
    (Array_sort byKey
       (List.filter (fun h => Num.leb (key h) maxDistanceKm) l))
    limit.

(** [n <= limit] for a length [n]. *)
Definition atMost (n : nat) (limit : number) : Prop :=
  Num.leb (Num (INR n)) limit = true.

End Order.

(** [h.start?.lat] and [h.start?.lon]. *)
Definition startLat (h : json) : value := optmember (prop h "start") "lat".
Definition startLon (h : json) : value := optmember (prop h "start") "lon".

(** A value the arithmetic operators can convert to a number. *)
Definition convertible (v : value) : bool :=
  match v with
  | Some j => negb (ToPrimitive_throws j)
  | None => true
  end.

(** The coordinates of a postcode record can be converted. *)
Definition locatable (postcodeRecord : json) : bool :=
  convertible (prop postcodeRecord "latitude")
  && convertible (prop postcodeRecord "longitude").

(** The reference hike has a start, and its coordinates can be
    converted. *)
Definition anchored (center : json) : bool :=
  match prop center "start" with
  | None | Some JNull => false
  | Some start =>
      convertible (prop start "lat") && convertible (prop start "lon")
  end.

(** A latitude in degrees. *)
Definition validLat (v : value) : bool :=
  match v with
  | Some (JNum n) => Num.leb (Num (-90)) n && Num.leb n (Num 90)
  | _ => false
  end.

Section Host.

Variable StringToNumber : string -> number.

(** The distance from the point of [reference] (its [latk] and [lonk]
    properties) to the start of [h]. *)
Definition distanceTo (latv lonv : value) (h : json) : number :=
  Lib.haversineKm (ToNumber StringToNumber latv) (ToNumber StringToNumber lonv)
    (ToNumber StringToNumber (startLat h))
    (ToNumber StringToNumber (startLon h)).

(** The distance the route computes from a postcode record to a hike. *)
Definition distanceFromPostcode (postcodeRecord h : json) : number :=
  distanceTo (prop postcodeRecord "latitude") (prop postcodeRecord "longitude") h.

(** The distance [getNearbyHikes] computes from the reference hike. *)
Definition distanceFromCenter (center h : json) : number :=
  distanceTo (startLat center) (startLon center) h.

(** The hike the route returns for [h]: [h] with its rounded distance. *)
Definition routeAnnotated (postcodeRecord h : json) : json :=
  JObj (assign "distanceFromPostcodeKm"
          (JNum (toFixed2 (distanceFromPostcode postcodeRecord h)))
          (spread h)).

(** The hike [getNearbyHikes] returns for [h]: [h] with its distance. *)
Definition nearbyAnnotated (center h : json) : json :=
  JObj (assign "distance_from_start_km"
          (JNum (distanceFromCenter center h)) (spread h)).

End Host.

(** Both coordinates of the start of [h] are numbers. *)
Definition numericStart (h : json) : bool :=
  typeof_number (startLat h) && typeof_number (startLon h).

(** The hikes [getNearbyHikes] ranks: not the slug asked for, and with a
    numeric start. *)
Definition nearbyCandidate (slug : string) (h : json) : bool :=
  negb (is_string (prop h "slug") slug) && numericStart h.

(** The hikes of a response; none in an error response. *)
Definition resultsOf (resp : Route.response) : list json :=
  match Route.payload resp with
  | Route.ResultsBody _ _ _ _ _ results => results
  | Route.ErrorBody _ => []
  end.

(** [n] is no number above zero. *)
Definition notPositive (n : number) : bool := isNaN n || Num.leb n (Num 0).

(** Every counted row was written or counted as skipped, once. *)
Definition balanced (st : Preprocess.state) : Prop :=
  Preprocess.totalRows st
  = (Preprocess.writtenByCode st + Preprocess.skippedNoPostcode st
     + Preprocess.skippedNoCoords st)%nat.

(** What was saved is a hike of the batch with [ai] attached. *)
Definition savedFrom (ToString : value -> string) (dir : string)
    (hikes : list object) (entry : string * object) : Prop :=
  exists hike ai,
    In hike hikes
    /\ entry = Enrich.saveHike ToString dir (Enrich.withAi hike ai).

(** The normaliser in the words of the specification: strip all white
    space, uppercase, and set one space before the last three characters
    of a string longer than three. *)
Definition normalise (raw : string) : string :=
  let stripped := toUpperCase (replaceAllWs_empty raw) in
  if (String.length stripped <=? 3)%nat then stripped
  else (slice_to_minus 3 stripped ++ " " ++ slice_from_minus 3 stripped)%string.

(** White space inside the trimmed input. *)
Definition hasInnerWhiteSpace (raw : string) : bool :=
  existsb isWhiteSpace (trimL (chars raw)).

End Spec.

(* ====================================================================== *)
(** * Sample data *)

Module Examples.

Local Open Scope R_scope.

(** A host in which no string reads as a number; the samples hold
    numbers only. *)
Definition noNumerals (s : string) : number := NaN.

(** A host that reads the default radius and limit of the route. *)
Definition defaultNumerals (s : string) : number :=
  if String.eqb s "50" then Num 50
  else if String.eqb s "20" then Num 20
  else NaN.

Definition startAt (lat lon : R) : json :=
  JObj [("lat", JNum (Num lat)); ("lon", JNum (Num lon))].

Definition hikeAt (slug : string) (lat lon : R) : json :=
  JObj [("slug", JStr slug); ("name", JStr "Walk"); ("start", startAt lat lon)].

Definition postcodeAt (code : string) (lat lon : R) : json :=
  JObj [("postcode", JStr code); ("latitude", JNum (Num lat));
        ("longitude", JNum (Num lon)); ("in_use", JBool true)].

(** A postcode on the equator and a hike a ten-thousandth of a degree of
    longitude away: about 11.12 m. *)
Definition equatorPostcode : json := postcodeAt "AA1 1AA" 0 0.
Definition equatorHike : json := hikeAt "origin" 0 0.
Definition nearHike : json := hikeAt "near" 0 (1 / 10000).

(** A hike whose latitude is no latitude. *)
Definition strayHike : json := hikeAt "stray" 360 0.

(** A second hike at the start of [equatorHike]. *)
Definition twinHike : json := hikeAt "twin" 0 0.

(** A hike without a start. *)
Definition lostHike : json := JObj [("slug", JStr "lost")].

(** A hike whose latitude is text. *)
Definition textHike : json :=
  JObj [("slug", JStr "text"); ("name", JStr "Walk");
        ("start", JObj [("lat", JStr "0"); ("lon", JNum (Num 0))])].

(** A hike filed under a name that is not its slug. *)
Definition misfiledHike : json := hikeAt "first" 0 0.

(** A postcode record whose latitude is an object with a property
    [toString]: the text [{"toString": 0}]. *)
Definition opaquePostcode : json :=
  JObj [("postcode", JStr "ZZ9 9ZZ");
        ("latitude", JObj [("toString", JNum (Num 0))]);
        ("longitude", JNum (Num 0)); ("in_use", JBool true)].

(** A store without the hikes directory, and stores of hikes. *)
Definition hikesDir : string := "/app/data/hikes".

Definition fileOf (files : list (string * json)) (p : string) : option file :=
  match List.find (fun e => String.eqb (path_join hikesDir (fst e)) p) files with
  | Some e => Some (Doc (snd e))
  | None => None
  end.

Definition storeOf (files : list (string * json)) : FileSystem :=
  {| cwd := "/app";
     readFile := fileOf files;
     readdir := fun p => if String.eqb p hikesDir then Some (map fst files)
                         else None |}.

Definition noStore : FileSystem :=
  {| cwd := "/app"; readFile := fun _ => None; readdir := fun _ => None |}.

Definition loneStore : FileSystem := storeOf [("origin.json", equatorHike)].

Definition twinStore : FileSystem :=
  storeOf [("origin.json", equatorHike); ("twin.json", twinHike)].

Definition misfiledStore : FileSystem :=
  storeOf [("origin.json", misfiledHike)].

(** A directory of hikes with malformed records among them: a hike
    without start, a hike whose latitude is text, and a file that holds
    [null]. *)
Definition mixedFiles : list (string * json) :=
  [("origin.json", equatorHike); ("lost.json", lostHike);
   ("text.json", textHike); ("null.json", JNull); ("near.json", nearHike)].

Definition postcodesDir : string := "/app/data/postcodes/by-code".

(** A store of postcode records and hikes. *)
Definition atlasOf (postcodes hikes : list (string * json)) : FileSystem :=
  {| cwd := "/app";
     readFile := fun p =>
       match List.find (fun e => String.eqb (path_join postcodesDir (fst e)) p)
                       postcodes with
       | Some e => Some (Doc (snd e))
       | None => fileOf hikes p
       end;
     readdir := fun p => if String.eqb p hikesDir then Some (map fst hikes)
                         else None |}.

Definition mixedStore : FileSystem :=
  atlasOf [("AA1-1AA.json", equatorPostcode)] mixedFiles.

(** Postcode records without a single hike. *)
Definition bareStore : FileSystem :=
  atlasOf [("AA1-1AA.json", equatorPostcode)] [].

(** A record that cannot be located, and one hike. *)
Definition opaqueStore : FileSystem :=
  atlasOf [("ZZ9-9ZZ.json", opaquePostcode)] [("near.json", nearHike)].

(** A postcode table: a row to write, a row without postcode, a row
    without latitude and an empty line. *)
Definition sampleCsv : list string :=
  ["Postcode,Latitude,Longitude,In Use?";
   "s667rr,50,20,Yes";
   ",50,20,Yes";
   EmptyString;
   "S1 1AA,,20,No"].

(** An API that answers every hike with the same summary. *)
Definition sampleApi (calls : nat) (hike : object)
  : completion Enrich.enrichment :=
  Normal {| Enrich.ai := JObj [("summary", JStr "A short walk.")];
            Enrich.inputTokens := 120; Enrich.outputTokens := 80 |}.

Definition sampleToString (v : value) : string :=
  match v with Some (JStr s) => s | _ => "undefined" end.

Definition sampleHike : object :=
  [("slug", JStr "kinder-scout"); ("name", JStr "Kinder Scout");
   ("difficulty", JStr "hard")].

End Examples.


(* ====================================================================== *)
(** * [scripts/enrich-hikes.ts]: the settings of the batch *)

Module Settings.

Import Str.

(** [Number.isFinite(n)]. *)
Definition Number_isFinite (n : number) : bool :=
  match n with
  | Num _ => true
  | _ => false
  end.

(** [Math.floor(n)]. *)
Definition Math_floor (n : number) : number :=
  match n with
  | Num r => Num (IZR (Int_part r))
  | other => other
  end.

Section Host.

Variable StringToNumber : string -> number.

(** [raw ? Number(raw) : fallback] for a variable of the environment,
    [None] when it is not set. *)
Definition numberOr (raw : option string) (fallback : number) : number :=
  match raw with
  | None | Some EmptyString => fallback
  | Some raw => StringToNumber raw
  end.

Definition parsePositiveInt (raw : option string) (fallback : number)
  : number :=
  let n := numberOr raw fallback in
  if Number_isFinite n && Num.ltb (Num 0) n then Math_floor n else fallback.

Definition parseNonNegativeInt (raw : option string) (fallback : number)
  : number :=
  let n := numberOr raw fallback in
  if Number_isFinite n && Num.leb (Num 0) n then Math_floor n else fallback.

(** The three settings, from [HIKES_ENRICH_MAX_PER_RUN],
    [HIKES_ENRICH_DELAY_MS] and [HIKES_ENRICH_CHECKPOINT_EVERY]. *)
Definition getMaxPerRun (env : option string) : number :=
  parsePositiveInt env (Num 20).

Definition getDelayMs (env : option string) : number :=
  parseNonNegativeInt env (Num 1000).

Definition getCheckpointEvery (env : option string) : number :=
  let raw := env in
  let n := numberOr raw (Num 0) in
  if Number_isFinite n && Num.ltb (Num 0) n then Math_floor n else Num 0.

End Host.

End Settings.

(* ====================================================================== *)
(** * [scripts/normalise-hikes.ts]: length and difficulty of a route *)

Module Normalise.

Inductive Difficulty : Type := easy | moderate | hard.

(** [Math.asin(a)]. *)
Definition Math_asin (a : number) : number :=
  match a with
  | Num r => if Rleb (-1) r && Rleb r 1 then Num (asin r) else NaN
  | _ => NaN
  end.

(** [Math.round(a)]: the nearest integer, the larger one of two. *)
Definition Math_round (a : number) : number :=
  match a with
  | Num r => Num (IZR (Int_part (r + / 2)))
  | other => other
  end.

(** [a ** 2]. *)
Definition square (a : number) : number := mul a a.

(** A point of a route is a pair [[lon, lat]].  The distance is in exact
    arithmetic; in binary64 the term [h] is rounded, and the result can
    differ from that of [Lib.haversineKm], which takes an arc tangent
    where this function takes an arc sine. *)
Definition haversineKm (a b : number * number) : number :=
  let R := Num 6371 in
  let '(lon1, lat1) := a in
  let '(lon2, lat2) := b in
  let dLat := div (mul (sub lat2 lat1) Math_PI) (Num 180) in
  let dLon := div (mul (sub lon2 lon1) Math_PI) (Num 180) in
  let la1 := div (mul lat1 Math_PI) (Num 180) in
  let la2 := div (mul lat2 Math_PI) (Num 180) in
  let h :=
    add (square (Math_sin (div dLat (Num 2))))
        (mul (mul (Math_cos la1) (Math_cos la2))
             (square (Math_sin (div dLon (Num 2))))) in
  mul (mul (Num 2) R) (Math_asin (Math_sqrt h)).

(** The legs [haversineKm(coords[i - 1], coords[i])] for [i] from 1. *)
Fixpoint legs (coords : list (number * number)) : list number :=
  match coords with
  | a :: (b :: _) as rest => haversineKm a b :: legs rest
  | _ => []
  end.

Definition estimateDistanceKm (coords : list (number * number)) : number :=
  let dist := fold_left add (legs coords) (Num 0) in
  div (Math_round (mul dist (Num 10))) (Num 10).

Definition guessDifficulty (distanceKm : number) : Difficulty :=
  if Num.ltb distanceKm (Num 6) then easy
  else if Num.ltb distanceKm (Num 15) then moderate
  else hard.

End Normalise.

(* ====================================================================== *)
(** * [scripts/hikes-stats.ts]: the figures of the dashboard *)

Module Stats.

(** The figures.  Of the tallies by difficulty and by theme the model
    keeps what can end the run: the conversion of a difficulty and of a
    theme to a property key, in [difficulties[d]] and [themes[theme]]. *)
Record HikeStats : Type := {
  total : nat;
  enriched : nat;
  remaining : nat;
  percent : number
}.

(** What [for (const theme of hike.themes ?? [])] goes through: the
    elements of an array, the characters of a string, nothing for [null]
    and [undefined]; any other value is not iterable. *)
Definition iterate (themes : value) : option (list json) :=
  match themes with
  | None | Some JNull => Some []
  | Some (JArr items) => Some items
  | Some (JStr s) =>
      Some (map (fun c => JStr (String c EmptyString)) (Str.chars s))
  | Some (JBool _) | Some (JNum _) | Some (JObj _) => None
  end.

(** One turn of the loop over the hikes: the hikes enriched so far. *)
Definition countHike (enriched : nat) (hike : json) : completion nat :=
  ai ← member (Some hike) "ai";
  let enriched := if truthy ai then S enriched else enriched in
  d ← member (Some hike) "difficulty";
  _ ← ToPropertyKey d;
  themes ← member (Some hike) "themes";
  match iterate themes with
  | None => Throw TypeError
  | Some items =>
      _ ← mapM (fun theme => ToPropertyKey (Some theme)) items;
      mret enriched
  end.

Fixpoint tally (hikes : list json) (enriched : nat) : completion nat :=
  match hikes with
  | [] => mret enriched
  | hike :: rest =>
      enriched ← countHike enriched hike;
      tally rest enriched
  end.

Definition computeStats (hikes : list json) : completion HikeStats :=
  let total := List.length hikes in
  enriched ← tally hikes 0;
  let remaining := (total - enriched)%nat in
  let percent :=
    if (total =? 0)%nat then Num 0
    else mul (div (Num (INR enriched)) (Num (INR total))) (Num 100) in
  mret {| total := total; enriched := enriched; remaining := remaining;
          percent := percent |}.

End Stats.

(* ====================================================================== *)
(** * Further notions: what the searches keep and what they leave *)

Module Laws.

Import Str Spec.

Section Ranking.

Context {A : Type}.
Variable key : A -> number.

(** No element of [kept] is farther than an element of [left]. *)
Definition noFarther (kept left : list A) : Prop :=
  forall r x, In r kept -> In x left -> Num.leb (key r) (key x) = true.

(** The candidates within the radius. *)
Definition withinRadius (maxDistanceKm : number) (corpus : list A) : list A :=
  List.filter (fun h => Num.leb (key h) maxDistanceKm) corpus.

End Ranking.

Section Slack.

Local Open Scope R_scope.

(** [a] and [b] are finite and [a] exceeds [b] by [eps] at most. *)
Definition below (eps : R) (a b : number) : Prop :=
  exists x y, a = Num x /\ b = Num y /\ x <= y + eps.

(** [a] is a distance on the sphere: from zero to half the circumference. *)
Definition onSphere (a : number) : Prop :=
  exists d, a = Num d /\ 0 <= d <= 6371 * PI.

End Slack.

(** The characters that count in a postcode: upper-cased, white space
    taken out. *)
Definition stripped (raw : string) : string :=
  toUpperCase (replaceAllWs_empty raw).

(** The name of the file the preprocessing script writes for the postcode
    of a row, as the row spells it, and its path. *)
Definition fileName (raw : string) : string :=
  replaceFirstWs_hyphen (Preprocess.normalisePostcode raw) ++ ".json".

Definition outPath (raw : string) : string :=
  path_join Preprocess.OUT_BY_CODE (fileName raw).

(** A name without a path separator: joined to a directory it names a
    file of that directory. *)
Definition plainName (s : string) : bool := negb (includes s "/").


(** A hike the loop of [computeStats] gets past: its difficulty and
    each of its themes can be made a property key, and its themes can be
    iterated. *)
Definition countable (hike : json) : bool :=
  convertible (prop hike "difficulty")
  && match Stats.iterate (prop hike "themes") with
     | Some items => forallb (fun theme => convertible (Some theme)) items
     | None => false
     end.

(** From the easiest to the hardest. *)
Definition rank (d : Normalise.Difficulty) : nat :=
  match d with
  | Normalise.easy => 0
  | Normalise.moderate => 1
  | Normalise.hard => 2
  end.

(** Both coordinates of a point are finite numbers. *)
Definition finitePoint (p : number * number) : bool :=
  Settings.Number_isFinite (fst p) && Settings.Number_isFinite (snd p).

(** The district a postcode is filed under. *)
Definition districtOf (pc : string) : string :=
  snd (fst (Preprocess.deriveAreaDistrictSector pc)).

(** The file of a district. *)
Definition districtPath (district : string) : string :=
  path_join Preprocess.OUT_BY_DISTRICT (district ++ ".json").

(** The entry of a record in the index of its district. *)
Definition itemOf (r : Preprocess.PostcodeRecord)
  : Preprocess.DistrictIndexItem :=
  {| Preprocess.item_postcode := Preprocess.postcode r;
     Preprocess.item_latitude := Preprocess.latitude r;
     Preprocess.item_longitude := Preprocess.longitude r |}.

(** A record in its file: the file is that of its postcode, the postcode
    is a canonical one, the coordinates are numbers, and area, district
    and sector are those of the postcode. *)
Definition recordOk (path : string) (r : Preprocess.PostcodeRecord) : Prop :=
  path = outPath (Preprocess.postcode r)
  /\ Preprocess.postcode r <> EmptyString
  /\ Preprocess.normalisePostcode (Preprocess.postcode r)
     = Preprocess.postcode r
  /\ isNaN (Preprocess.latitude r) = false
  /\ isNaN (Preprocess.longitude r) = false
  /\ (Preprocess.area r, Preprocess.district r, Preprocess.sector r)
     = Preprocess.deriveAreaDistrictSector (Preprocess.postcode r).

(** What [JSON.parse] reads back from the [JSON.stringify] of a number:
    an infinity is written as [null]. *)
Definition jsonNumber (n : number) : json :=
  match n with
  | Num r => JNum (Num r)
  | _ => JNull
  end.

Definition jsonNullable {A} (f : A -> json) (v : option A) : json :=
  match v with
  | Some a => f a
  | None => JNull
  end.

(** What [JSON.parse] reads back from the file of a record. *)
Definition recordJson (r : Preprocess.PostcodeRecord) : json :=
  JObj [("postcode", JStr (Preprocess.postcode r));
        ("area", JStr (Preprocess.area r));
        ("district", JStr (Preprocess.district r));
        ("sector", JStr (Preprocess.sector r));
        ("latitude", jsonNumber (Preprocess.latitude r));
        ("longitude", jsonNumber (Preprocess.longitude r));
        ("easting", jsonNullable jsonNumber (Preprocess.easting r));
        ("northing", jsonNullable jsonNumber (Preprocess.northing r));
        ("gridref", jsonNullable JStr (Preprocess.gridref r));
        ("district_code", jsonNullable JStr (Preprocess.district_code r));
        ("ward_code", jsonNullable JStr (Preprocess.ward_code r));
        ("lsoa_code", jsonNullable JStr (Preprocess.lsoa_code r));
        ("msoa_code", jsonNullable JStr (Preprocess.msoa_code r));
        ("itl_level_2", jsonNullable JStr (Preprocess.itl_level_2 r));
        ("itl_level_3", jsonNullable JStr (Preprocess.itl_level_3 r));
        ("country", jsonNullable JStr (Preprocess.country r));
        ("in_use", JBool (Preprocess.in_use r))].

(** The store holds the files by code of a run, under the working
    directory the run was started in. *)
Definition stored (fs : FileSystem) (out : Preprocess.output) : Prop :=
  forall path r,
    Preprocess.out_byCode out !! path = Some r ->
    readFile fs (path_join (cwd fs) path) = Some (Doc (recordJson r)).

(** The [count] fields of the district files, added up. *)
Definition countSum
    (files : gmap string (string * nat * list Preprocess.DistrictIndexItem))
  : nat :=
  sum_list_with (fun e => snd (fst (snd e))) (map_to_list files).

End Laws.

(* ====================================================================== *)
(** * Further sample data *)

Module Samples.

Local Open Scope R_scope.

(** The record of the second line of [Examples.sampleCsv]. *)
Definition sampleRecord : Preprocess.PostcodeRecord :=
  {| Preprocess.postcode := "S66 7RR"; Preprocess.area := "S";
     Preprocess.district := "S66"; Preprocess.sector := "S66 7";
     Preprocess.latitude := Num 50; Preprocess.longitude := Num 20;
     Preprocess.easting := None; Preprocess.northing := None;
     Preprocess.gridref := None; Preprocess.district_code := None;
     Preprocess.ward_code := None; Preprocess.lsoa_code := None;
     Preprocess.msoa_code := None; Preprocess.itl_level_2 := None;
     Preprocess.itl_level_3 := None; Preprocess.country := None;
     Preprocess.in_use := true |}.

(** The store after the run over [Examples.sampleCsv]. *)
Definition postcodeStore : FileSystem :=
  {| cwd := "/app";
     readFile := fun p =>
       if String.eqb p "/app/data/postcodes/by-code/S66-7RR.json"
       then Some (Doc (Laws.recordJson sampleRecord))
       else None;
     readdir := fun _ => None |}.

End Samples.

(* ====================================================================== *)
(** * Proofs *)

Import Str Spec.


(* ====================================================================== *)
(** * Numbers *)

Section NumberFacts.

Local Open Scope R_scope.

Lemma Rltb_true (a b : R) : Rltb a b = true <-> a < b.
Proof. unfold Rltb; destruct (Rlt_dec a b); split; intros; auto; discriminate. Qed.

Lemma Rltb_false (a b : R) : Rltb a b = false <-> b <= a.
Proof.
  unfold Rltb; destruct (Rlt_dec a b); split; intros; auto; try discriminate; lra.
Qed.

Lemma Rleb_true (a b : R) : Rleb a b = true <-> a <= b.
Proof. unfold Rleb; destruct (Rle_dec a b); split; intros; auto; discriminate. Qed.

Lemma Rleb_false (a b : R) : Rleb a b = false <-> b < a.
Proof.
  unfold Rleb; destruct (Rle_dec a b); split; intros; auto; try discriminate; lra.
Qed.

Lemma Reqb_true (a b : R) : Reqb a b = true <-> a = b.
Proof. unfold Reqb; destruct (Req_dec_T a b); split; intros; auto; discriminate. Qed.

Lemma Reqb_false (a b : R) : Reqb a b = false <-> a <> b.
Proof.
  unfold Reqb; destruct (Req_dec_T a b); split; intros; auto; try discriminate;
    contradiction.
Qed.

Lemma Int_part_eq (r : R) (z : Z) : IZR z <= r < IZR z + 1 -> Int_part r = z.
Proof. intros [H1 H2]; symmetry; apply Int_part_spec; lra. Qed.

Lemma Int_part_bounds (r : R) : IZR (Int_part r) <= r < IZR (Int_part r) + 1.
Proof.
  destruct (base_Int_part r) as [H1 H2]; lra.
Qed.

End NumberFacts.

Ltac rbool :=
  repeat match goal with
  | H : Rltb _ _ = true |- _ => apply Rltb_true in H
  | H : Rltb _ _ = false |- _ => apply Rltb_false in H
  | H : Rleb _ _ = true |- _ => apply Rleb_true in H
  | H : Rleb _ _ = false |- _ => apply Rleb_false in H
  | H : Reqb _ _ = true |- _ => apply Reqb_true in H
  | H : Reqb _ _ = false |- _ => apply Reqb_false in H
  end.

(* ====================================================================== *)
(** * The great-circle distance *)

Section Haversine.

Local Open Scope R_scope.

Lemma sin_sqr_half (u : R) : sin (u / 2) * sin (u / 2) = (1 - cos u) / 2.
Proof.
  replace u with (2 * (u / 2)) at 3 by field.
  rewrite cos_2a_sin. field.
Qed.

Lemma hav_a_range (lat1 lon1 lat2 lon2 : R) :
  0 <= hav_a lat1 lon1 lat2 lon2 <= 1.
Proof.
  unfold hav_a.
  set (x := lat1 * PI / 180). set (y := lat2 * PI / 180).
  replace ((lat2 - lat1) * PI / 180 / 2) with ((y - x) / 2)
    by (unfold x, y; field).
  set (t := sin ((lon2 - lon1) * PI / 180 / 2)).
  rewrite sin_sqr_half, cos_minus.
  pose proof (sin2_cos2 x) as Hx. pose proof (sin2_cos2 y) as Hy.
  unfold Rsqr in Hx, Hy.
  assert (Ht : 0 <= t * t <= 1).
  { pose proof (SIN_bound ((lon2 - lon1) * PI / 180 / 2)) as [Hl Hu].
    unfold t. generalize dependent (sin ((lon2 - lon1) * PI / 180 / 2)).
    intros s _ Hl Hu.
    assert (Hp : 0 <= (1 - s) * (1 + s)) by (apply Rmult_le_pos; lra).
    replace ((1 - s) * (1 + s)) with (1 - s * s) in Hp by ring.
    split; [apply (Rle_0_sqr s) | lra]. }
  set (w := 1 - 2 * (t * t)).
  assert (Hw : -1 <= w <= 1) by (unfold w; lra).
  assert (E : cos x * cos y * t * t = cos x * cos y * (1 - w) / 2)
    by (unfold w; field).
  rewrite E. clearbody w. clear E Ht. clearbody t x y.
  generalize dependent (cos x). generalize dependent (cos y).
  generalize dependent (sin x). generalize dependent (sin y).
  intros sy sx cy Hy cx Hx.
  assert (H1 : 0 <= (1 + w) * ((cx - cy) * (cx - cy))).
  { apply Rmult_le_pos; [lra | apply (Rle_0_sqr (cx - cy))]. }
  assert (H2 : 0 <= (1 - w) * ((cx + cy) * (cx + cy))).
  { apply Rmult_le_pos; [lra | apply (Rle_0_sqr (cx + cy))]. }
  assert (H5 : 0 <= (1 - w) * ((cx - cy) * (cx - cy))).
  { apply Rmult_le_pos; [lra | apply (Rle_0_sqr (cx - cy))]. }
  assert (H6 : 0 <= (1 + w) * ((cx + cy) * (cx + cy))).
  { apply Rmult_le_pos; [lra | apply (Rle_0_sqr (cx + cy))]. }
  pose proof (Rle_0_sqr (sx - sy)) as H3.
  pose proof (Rle_0_sqr (sx + sy)) as H4.
  unfold Rsqr in H3, H4.
  split; lra.
Qed.

Lemma Ratan2_nonneg (y x : R) : 0 <= y -> 0 <= x -> 0 <= Ratan2 y x.
Proof.
  intros Hy Hx. unfold Ratan2.
  destruct (Rltb 0 x) eqn:E1; rbool.
  - rewrite <- atan_0.
    assert (0 <= y / x) by (apply Rle_mult_inv_pos; lra).
    destruct (Req_dec (y / x) 0) as [-> | Hn]; [lra |].
    left. apply atan_increasing. lra.
  - destruct (Rltb x 0) eqn:E2; rbool; [lra |].
    destruct (Rltb 0 y) eqn:E3; rbool.
    + pose proof PI2_RGT_0; lra.
    + destruct (Rltb y 0) eqn:E4; rbool; lra.
Qed.

Lemma hav_km_nonneg (lat1 lon1 lat2 lon2 : R) : 0 <= hav_km lat1 lon1 lat2 lon2.
Proof.
  unfold hav_km. cbv zeta.
  pose proof (hav_a_range lat1 lon1 lat2 lon2) as [H0 H1].
  pose proof (Ratan2_nonneg (sqrt (hav_a lat1 lon1 lat2 lon2))
                (sqrt (1 - hav_a lat1 lon1 lat2 lon2))
                (sqrt_pos _) (sqrt_pos _)).
  lra.
Qed.

Lemma hav_a_same (lat lon : R) : hav_a lat lon lat lon = 0.
Proof.
  unfold hav_a.
  replace ((lat - lat) * PI / 180 / 2) with 0 by field.
  replace ((lon - lon) * PI / 180 / 2) with 0 by field.
  rewrite sin_0. ring.
Qed.

Lemma Ratan2_0_1 : Ratan2 0 1 = 0.
Proof.
  unfold Ratan2.
  assert (E : Rltb 0 1 = true) by (apply Rltb_true; lra).
  rewrite E. replace (0 / 1) with 0 by field. apply atan_0.
Qed.

Lemma hav_km_same (lat lon : R) : hav_km lat lon lat lon = 0.
Proof.
  unfold hav_km. cbv zeta. rewrite hav_a_same.
  rewrite Rminus_0_r, sqrt_0, sqrt_1, Ratan2_0_1. ring.
Qed.

Lemma hav_a_sym (lat1 lon1 lat2 lon2 : R) :
  hav_a lat1 lon1 lat2 lon2 = hav_a lat2 lon2 lat1 lon1.
Proof.
  unfold hav_a.
  replace ((lat1 - lat2) * PI / 180 / 2) with (- ((lat2 - lat1) * PI / 180 / 2))
    by field.
  replace ((lon1 - lon2) * PI / 180 / 2) with (- ((lon2 - lon1) * PI / 180 / 2))
    by field.
  rewrite !sin_neg. ring.
Qed.

Lemma hav_km_sym (lat1 lon1 lat2 lon2 : R) :
  hav_km lat1 lon1 lat2 lon2 = hav_km lat2 lon2 lat1 lon1.
Proof. unfold hav_km. now rewrite hav_a_sym. Qed.

(** On finite coordinates the program computes [hav_km]. *)
Lemma haversineKm_finite (lat1 lon1 lat2 lon2 : R) :
  Lib.haversineKm (Num lat1) (Num lon1) (Num lat2) (Num lon2)
  = Num (hav_km lat1 lon1 lat2 lon2).
Proof.
  pose proof (hav_a_range lat1 lon1 lat2 lon2) as [H0 H1].
  unfold Lib.haversineKm, Lib.toRad, Math_PI. cbn [sub neg add mul div].
  assert (E180 : Reqb 180 0 = false) by (apply Reqb_false; lra).
  assert (E2 : Reqb 2 0 = false) by (apply Reqb_false; lra).
  rewrite !E180. cbn [div]. rewrite !E2.
  cbn [Math_sin Math_cos mul add sub neg].
  replace (lat2 + - lat1) with (lat2 - lat1) by ring.
  replace (lon2 + - lon1) with (lon2 - lon1) by ring.
  fold (hav_a lat1 lon1 lat2 lon2).
  set (a := hav_a lat1 lon1 lat2 lon2) in *.
  cbn [Math_sqrt].
  assert (Ea : Rltb a 0 = false) by (apply Rltb_false; lra).
  assert (Eb : Rltb (1 + - a) 0 = false) by (apply Rltb_false; lra).
  rewrite Ea, Eb. cbn [Math_atan2 mul].
  unfold hav_km. fold a. cbv zeta.
  now replace (1 + - a) with (1 - a) by ring.
Qed.

(** The distance is a finite number or NaN, never an infinity. *)
Lemma haversineKm_cases (lat1 lon1 lat2 lon2 : number) :
  Lib.haversineKm lat1 lon1 lat2 lon2 = NaN
  \/ exists d, Lib.haversineKm lat1 lon1 lat2 lon2 = Num d.
Proof.
  unfold Lib.haversineKm. cbv zeta.
  match goal with
  | |- context [Math_atan2 ?y ?x] => destruct (Math_atan2 y x) eqn:E
  end; cbn; eauto.
  - exfalso. revert E.
    match goal with
    | |- Math_atan2 ?y ?x = _ -> _ => destruct y, x; cbn; try discriminate
    end.
    destruct (Rleb 0 r); discriminate.
  - exfalso. revert E.
    match goal with
    | |- Math_atan2 ?y ?x = _ -> _ => destruct y, x; cbn; try discriminate
    end.
    destruct (Rleb 0 r); discriminate.
Qed.

End Haversine.


(* ====================================================================== *)
(** * Objects *)

Lemma lookup_assign_eq (k : string) (v : json) (fs : object) :
  lookup k (assign k v fs) = Some v.
Proof.
  induction fs as [| [k' v'] r IH]; cbn.
  - now rewrite String.eqb_refl.
  - destruct (String.eqb k' k) eqn:E; cbn.
    + now rewrite String.eqb_refl.
    + now rewrite E.
Qed.

Lemma lookup_assign_neq (k k' : string) (v : json) (fs : object) :
  k <> k' -> lookup k' (assign k v fs) = lookup k' fs.
Proof.
  intros Hne. induction fs as [| [k0 v0] r IH]; cbn.
  - destruct (String.eqb k k') eqn:E; [apply String.eqb_eq in E; contradiction | easy].
  - destruct (String.eqb k0 k) eqn:E; cbn.
    + apply String.eqb_eq in E; subst k0.
      destruct (String.eqb k k') eqn:E'; [apply String.eqb_eq in E'; contradiction | easy].
    + now rewrite IH.
Qed.

(* ====================================================================== *)
(** * Callbacks that may throw *)

Lemma mapM_cons {A B} (f : A -> completion B) (x : A) (r : list A) :
  mapM f (x :: r) = (y ← f x; k ← mapM f r; mret (y :: k)).
Proof. reflexivity. Qed.

Lemma mapM_Normal {A B} (f : A -> completion B) (l : list A) (l' : list B) :
  mapM f l = Normal l' -> Forall2 (fun x y => f x = Normal y) l l'.
Proof.
  revert l'. induction l as [| x r IH]; intros l' H.
  - injection H as <-. constructor.
  - rewrite mapM_cons in H.
    destruct (f x) as [y |] eqn:Ex; [| discriminate].
    destruct (mapM f r) as [k |] eqn:Er; [| discriminate].
    injection H as <-. constructor; auto.
Qed.

Lemma mapM_all_Normal {A B} (f : A -> completion B) (g : A -> B) (l : list A) :
  Forall (fun x => f x = Normal (g x)) l -> mapM f l = Normal (map g l).
Proof.
  induction 1 as [| x r Hx _ IH]; [reflexivity |].
  rewrite mapM_cons. now rewrite Hx, IH.
Qed.

Lemma filterM_all_Normal {A} (f : A -> completion bool) (g : A -> bool)
    (l : list A) :
  Forall (fun x => f x = Normal (g x)) l ->
  filterM f l = Normal (List.filter g l).
Proof.
  induction 1 as [| x r Hx _ IH]; cbn; [reflexivity |].
  unfold mbind, completion_bind. rewrite Hx, IH. cbn.
  now destruct (g x).
Qed.

Lemma Forall2_map_eq {A B} (g : A -> B) (l : list A) (l' : list B) :
  Forall2 (fun x y => g x = y) l l' -> l' = map g l.
Proof. induction 1; cbn; congruence. Qed.

(* ====================================================================== *)
(** * Order of numbers *)

Lemma ltb_leb (a b : number) : Num.ltb a b = true -> Num.leb a b = true.
Proof.
  destruct a, b; cbn; try easy.
  intros H; rbool. apply Rleb_true. now apply Rlt_le.
Qed.

Lemma leb_total (a b : number) :
  isNaN a = false -> isNaN b = false -> Num.ltb a b = false ->
  Num.leb b a = true.
Proof.
  destruct a, b; cbn; try easy.
  intros _ _ H; rbool. now apply Rleb_true.
Qed.

Lemma leb_nonNaN (a b : number) :
  Num.leb a b = true -> isNaN a = false /\ isNaN b = false.
Proof. destruct a, b; cbn; easy. Qed.

Lemma eqb_leb_l (a d m : number) :
  Num.eqb a d = true -> Num.leb a m = Num.leb d m.
Proof.
  destruct a, d; cbn; try easy.
  intros H; rbool; now subst.
Qed.

(** The comparison [a - b] puts [a] first exactly when [a < b]. *)
Lemma sub_negative (a b : number) :
  isNaN a = false -> isNaN b = false ->
  Num.ltb (sub a b) (Num 0) = Num.ltb a b.
Proof.
  destruct a, b; cbn; try easy.
  intros _ _.
  destruct (Rltb r r0) eqn:E; rbool.
  - apply Rltb_true. lra.
  - apply Rltb_false. lra.
Qed.

(** Equal keys are never put in front of one another. *)
Lemma sub_negative_distinct (a b d : number) :
  Num.ltb (sub a b) (Num 0) = true -> Num.eqb b d = true ->
  Num.eqb a d = false.
Proof.
  destruct a, b, d; cbn; try easy.
  intros H1 H2; rbool. apply Reqb_false. lra.
Qed.

(* ====================================================================== *)
(** * [filter], [sort] and [slice] *)

Section SortFacts.

Context {A : Type}.
Variable key : A -> number.

Lemma sort_insert_perm (x : A) (l : list A) :
  Permutation (sort_insert (byKey key) x l) (x :: l).
Proof.
  induction l as [| y r IH]; cbn; [reflexivity |].
  destruct (before (byKey key) y x); [| reflexivity].
  rewrite IH. apply perm_swap.
Qed.

Lemma Array_sort_perm (l : list A) : Permutation (Array_sort (byKey key) l) l.
Proof.
  induction l as [| x r IH]; cbn; [reflexivity |].
  fold (Array_sort (byKey key) r).
  rewrite sort_insert_perm. now constructor.
Qed.

Lemma sort_insert_hd (x y : A) (l : list A) :
  Num.leb (key y) (key x) = true ->
  HdRel (fun a b => Num.leb (key a) (key b) = true) y l ->
  HdRel (fun a b => Num.leb (key a) (key b) = true) y
        (sort_insert (byKey key) x l).
Proof.
  intros Hyx Hl. destruct l as [| z r]; cbn.
  - now constructor.
  - destruct (before (byKey key) z x); constructor; auto.
    now inversion Hl.
Qed.

Lemma sort_insert_ascending (x : A) (l : list A) :
  isNaN (key x) = false ->
  Forall (fun y => isNaN (key y) = false) l ->
  ascending key l -> ascending key (sort_insert (byKey key) x l).
Proof.
  intros Hx Hl Hs. unfold ascending in *.
  induction l as [| y r IH]; cbn.
  - repeat constructor.
  - inversion Hl as [| ? ? Hy Hr]; subst.
    inversion Hs as [| ? ? Hs' Hhd]; subst.
    unfold before, byKey at 1.
    rewrite sub_negative by assumption.
    destruct (Num.ltb (key y) (key x)) eqn:E.
    + constructor; [now apply IH |].
      apply sort_insert_hd; [now apply ltb_leb | assumption].
    + constructor; [assumption |].
      constructor. now apply leb_total.
Qed.

Lemma Array_sort_ascending (l : list A) :
  Forall (fun y => isNaN (key y) = false) l ->
  ascending key (Array_sort (byKey key) l).
Proof.
  induction 1 as [| x r Hx Hr IH]; cbn.
  - constructor.
  - fold (Array_sort (byKey key) r).
    apply sort_insert_ascending; auto.
    rewrite List.Forall_forall in Hr |- *. intros y Hy. apply Hr.
    revert Hy. apply Permutation_in, Array_sort_perm.
Qed.

Lemma sort_insert_stable (d : number) (x : A) (l : list A) :
  List.filter (hasKey key d) (sort_insert (byKey key) x l)
  = List.filter (hasKey key d) (x :: l).
Proof.
  induction l as [| y r IH]; [reflexivity |].
  cbn [sort_insert].
  destruct (before (byKey key) y x) eqn:E; [| reflexivity].
  cbn [List.filter] in *. rewrite IH.
  destruct (hasKey key d x) eqn:Ex; [| reflexivity].
  unfold before, byKey in E. unfold hasKey in *.
  now rewrite (sub_negative_distinct _ _ _ E Ex).
Qed.

(** [sort] is stable. *)
Lemma Array_sort_stable (d : number) (l : list A) :
  List.filter (hasKey key d) (Array_sort (byKey key) l)
  = List.filter (hasKey key d) l.
Proof.
  induction l as [| x r IH]; [reflexivity |].
  cbn [Array_sort fold_right]. fold (Array_sort (byKey key) r).
  rewrite sort_insert_stable. cbn [List.filter]. now rewrite IH.
Qed.

Lemma ascending_firstn (n : nat) (l : list A) :
  ascending key l -> ascending key (firstn n l).
Proof.
  unfold ascending. revert n.
  induction l as [| x r IH]; intros n Hs; destruct n; cbn; try constructor.
  - apply IH. now inversion Hs.
  - inversion Hs as [| ? ? _ Hhd]; subst.
    destruct r, n; cbn; constructor. now inversion Hhd.
Qed.

Lemma In_firstn_In (n : nat) (l : list A) (x : A) :
  In x (firstn n l) -> In x l.
Proof.
  intros H. rewrite <- (firstn_skipn n l). apply in_or_app. now left.
Qed.

Lemma filter_firstn_prefix (f : A -> bool) (n : nat) (l : list A) :
  exists rest, List.filter f l = List.filter f (firstn n l) ++ rest.
Proof.
  exists (List.filter f (skipn n l)).
  now rewrite <- List.filter_app, firstn_skipn.
Qed.

Lemma slice_atMost (l : list A) (limit : number) :
  Num.ltb (Num 0) limit = true ->
  atMost (List.length (Array_slice0 l limit)) limit.
Proof.
  unfold atMost, Array_slice0. destruct limit as [| | | r]; cbn; try easy.
  intros H; rbool. apply Rleb_true.
  rewrite length_firstn.
  unfold Rtrunc.
  assert (E : Rltb r 0 = false) by (apply Rltb_false; lra).
  rewrite E.
  pose proof (Int_part_bounds r) as [Hlo Hhi].
  assert (Hk : (0 <= Int_part r)%Z).
  { destruct (Z_lt_le_dec (Int_part r) 0) as [Hneg | Hpos]; [exfalso | exact Hpos].
    assert (H1 : (Int_part r + 1 <= 0)%Z) by lia.
    apply IZR_le in H1. rewrite plus_IZR in H1. lra. }
  assert (Ek : (Int_part r <? 0)%Z = false) by (apply Z.ltb_ge; lia).
  rewrite Ek.
  apply Rle_trans with (IZR (Int_part r)); [| lra].
  rewrite INR_IZR_INZ. apply IZR_le. lia.
Qed.

Lemma nearest_within (maxDistanceKm limit : number) (l : list A) (r : A) :
  In r (nearest key maxDistanceKm limit l) ->
  In r l /\ Num.leb (key r) maxDistanceKm = true.
Proof.
  unfold nearest, Array_slice0. intros H.
  apply In_firstn_In in H.
  apply (Permutation_in (l' := List.filter (fun h => Num.leb (key h) maxDistanceKm) l))
    in H; [| apply Array_sort_perm].
  now apply List.filter_In in H.
Qed.

Lemma nearest_ascending (maxDistanceKm limit : number) (l : list A) :
  ascending key (nearest key maxDistanceKm limit l).
Proof.
  unfold nearest, Array_slice0. apply ascending_firstn.
  apply Array_sort_ascending.
  apply List.Forall_forall. intros x Hx. apply List.filter_In in Hx as [_ Hx].
  now apply leb_nonNaN in Hx.
Qed.

Lemma filter_hasKey_within (d m : number) (l : list A) :
  List.filter (hasKey key d) (List.filter (fun h => Num.leb (key h) m) l)
  = if Num.leb d m then List.filter (hasKey key d) l else [].
Proof.
  induction l as [| x r IH]; cbn.
  - now destruct (Num.leb d m).
  - destruct (hasKey key d x) eqn:Ex.
    + unfold hasKey in Ex. rewrite (eqb_leb_l _ _ m Ex).
      destruct (Num.leb d m) eqn:Ed; cbn.
      * unfold hasKey at 1. now rewrite Ex, IH.
      * exact IH.
    + destruct (Num.leb (key x) m); cbn; [rewrite Ex |]; exact IH.
Qed.

Lemma nearest_ties (maxDistanceKm limit : number) (l : list A) :
  tiesKeepOrder key l (nearest key maxDistanceKm limit l).
Proof.
  intros d. unfold nearest, Array_slice0.
  set (within := List.filter (fun h => Num.leb (key h) maxDistanceKm) l).
  set (n := slice_end _ _).
  destruct (filter_firstn_prefix (hasKey key d) n (Array_sort (byKey key) within))
    as [rest Hrest].
  rewrite Array_sort_stable in Hrest. unfold within in Hrest at 1.
  rewrite filter_hasKey_within in Hrest.
  destruct (Num.leb d maxDistanceKm) eqn:Ed.
  - now exists rest.
  - exists (List.filter (hasKey key d) l).
    destruct (List.filter (hasKey key d) (firstn n (Array_sort (byKey key) within)));
      [reflexivity | discriminate].
Qed.

Lemma nearest_atMost (maxDistanceKm limit : number) (l : list A) :
  Num.ltb (Num 0) limit = true ->
  atMost (List.length (nearest key maxDistanceKm limit l)) limit.
Proof. intros H. unfold nearest. now apply slice_atMost. Qed.

End SortFacts.


(* ====================================================================== *)
(** * Reading a hike *)

Lemma prop_spread (h : json) (k : string) : prop h k = lookup k (spread h).
Proof. now destruct h. Qed.

Lemma prop_assign_eq (k : string) (v : json) (fs : object) :
  prop (JObj (assign k v fs)) k = Some v.
Proof. apply lookup_assign_eq. Qed.

Lemma prop_assign_neq (k k' : string) (v : json) (h : json) :
  k <> k' -> prop (JObj (assign k v (spread h))) k' = prop h k'.
Proof. intros H. cbn. rewrite lookup_assign_neq by assumption. now rewrite prop_spread. Qed.

Lemma member_Normal (o : json) (k : string) :
  o <> JNull -> member (Some o) k = Normal (prop o k).
Proof. now destruct o. Qed.

Lemma truthy_not_null (o : json) : truthy (Some o) = true -> o <> JNull.
Proof. now destruct o. Qed.

(** A hike with a numeric start is an object whose [start] is an object. *)
Lemma numericStart_shape (h : json) :
  numericStart h = true ->
  h <> JNull /\ exists start, prop h "start" = Some start /\ start <> JNull
    /\ startLat h = prop start "lat" /\ startLon h = prop start "lon".
Proof.
  unfold numericStart, startLat, startLon. intros H.
  apply andb_true_iff in H as [H1 _].
  split; [intros ->; discriminate |].
  destruct (prop h "start") as [start |] eqn:E; [| discriminate].
  destruct start; try discriminate; eexists; repeat split; easy.
Qed.

Lemma member_inv (v x : value) (k : string) :
  member v k = Normal x ->
  exists o, v = Some o /\ o <> JNull /\ x = prop o k.
Proof.
  destruct v as [o |]; [| discriminate].
  destruct o; try discriminate; cbn; intros H; injection H as <-;
    eexists; (split; [reflexivity |]); (split; [discriminate | reflexivity]).
Qed.

Lemma optmember_prop (o : json) (k : string) :
  optmember (Some o) k = prop o k.
Proof. now destruct o. Qed.

Lemma convertible_number (v : value) :
  typeof_number v = true -> convertible v = true.
Proof. destruct v as [[] |]; try discriminate. reflexivity. Qed.

Lemma numericStart_convertible (h : json) :
  numericStart h = true ->
  convertible (startLat h) = true /\ convertible (startLon h) = true.
Proof.
  unfold numericStart. intros H. apply andb_true_iff in H as [H1 H2].
  split; now apply convertible_number.
Qed.

Lemma numericStart_anchored (h : json) :
  numericStart h = true -> anchored h = true.
Proof.
  intros Hh. destruct (numericStart_convertible h Hh) as [H1 H2].
  destruct (numericStart_shape h Hh) as (_ & start & Es & Hs & El & Eo).
  unfold anchored. rewrite Es, <- El, <- Eo, H1, H2.
  now destruct start.
Qed.

Section SearchFacts.

Variable StringToNumber : string -> number.

(** ** The conversion of an operand *)

Lemma ToNumeric_cases (v : value) :
  ToNumeric StringToNumber v
  = if convertible v then Normal (ToNumber StringToNumber v)
    else Throw TypeError.
Proof.
  destruct v as [j |]; [| reflexivity]. cbn.
  now destruct (ToPrimitive_throws j).
Qed.

(** ** The postcode route *)

Lemma distanceTo_start (latv lonv : value) (h h' : json) :
  prop h' "start" = prop h "start" ->
  distanceTo StringToNumber latv lonv h' = distanceTo StringToNumber latv lonv h.
Proof. unfold distanceTo, startLat, startLon. now intros ->. Qed.

Lemma routeAnnotated_key (pc h : json) :
  Route.distanceFromPostcodeKm StringToNumber (routeAnnotated StringToNumber pc h)
  = toFixed2 (distanceFromPostcode StringToNumber pc h).
Proof.
  unfold Route.distanceFromPostcodeKm, routeAnnotated.
  now rewrite prop_assign_eq.
Qed.

Lemma routeAnnotated_prop (pc h : json) (k : string) :
  k <> "distanceFromPostcodeKm" ->
  prop (routeAnnotated StringToNumber pc h) k = prop h k.
Proof. intros H. apply prop_assign_neq. congruence. Qed.

Lemma routeAnnotated_distance (pc h : json) :
  distanceFromPostcode StringToNumber pc (routeAnnotated StringToNumber pc h)
  = distanceFromPostcode StringToNumber pc h.
Proof.
  apply distanceTo_start. now apply routeAnnotated_prop.
Qed.

(** When the callback of [map] returns, it returns [routeAnnotated]. *)
Lemma Route_withDistance_Normal (pc h r : json) :
  Route.withDistance StringToNumber pc h = Normal r ->
  r = routeAnnotated StringToNumber pc h.
Proof.
  unfold Route.withDistance. intros H.
  destruct (member (Some pc) "latitude") as [lat1 |] eqn:E1; [| discriminate].
  destruct (member (Some pc) "longitude") as [lon1 |] eqn:E2; [| discriminate].
  destruct (member (Some h) "start") as [start |] eqn:E3; [| discriminate].
  cbn [mbind completion_bind] in H.
  destruct (member start "lat") as [lat2 |] eqn:E4; [| discriminate].
  destruct (member start "lon") as [lon2 |] eqn:E5; [| discriminate].
  cbn [mbind completion_bind] in H.
  rewrite !ToNumeric_cases in H.
  destruct (convertible lat2); [| discriminate].
  destruct (convertible lat1); [| discriminate].
  destruct (convertible lon2); [| discriminate].
  destruct (convertible lon1); [| discriminate].
  cbn in H. injection H as <-.
  apply member_inv in E1 as (o1 & [= <-] & _ & ->).
  apply member_inv in E2 as (o2 & [= <-] & _ & ->).
  apply member_inv in E3 as (o3 & [= <-] & _ & ->).
  apply member_inv in E4 as (o4 & Es & Ho4 & ->).
  apply member_inv in E5 as (o5 & Es' & _ & ->).
  rewrite Es in Es'. injection Es' as <-.
  unfold routeAnnotated, distanceFromPostcode, distanceTo, startLat, startLon.
  rewrite Es, !optmember_prop. reflexivity.
Qed.

(** The callback throws only over the coordinates of the record. *)
Lemma Route_withDistance_cases (pc h : json) :
  pc <> JNull -> numericStart h = true ->
  Route.withDistance StringToNumber pc h
  = if locatable pc then Normal (routeAnnotated StringToNumber pc h)
    else Throw TypeError.
Proof.
  intros Hpc Hh.
  destruct (numericStart_shape h Hh) as (Hn & start & Es & Hs & Elat & Elon).
  unfold Route.withDistance.
  rewrite !(member_Normal pc) by assumption. cbn [mbind completion_bind].
  rewrite (member_Normal h) by assumption. cbn [mbind completion_bind].
  rewrite Es. rewrite !(member_Normal start) by assumption.
  cbn [mbind completion_bind mret completion_ret].
  destruct (numericStart_convertible h Hh) as [H1 H2].
  rewrite Elat in H1. rewrite Elon in H2.
  rewrite !ToNumeric_cases, H1, H2.
  unfold locatable.
  destruct (convertible (prop pc "latitude"));
    destruct (convertible (prop pc "longitude")); cbn; try reflexivity.
  unfold routeAnnotated, distanceFromPostcode, distanceTo.
  now rewrite Elat, Elon.
Qed.

Lemma Route_withDistance_numeric (pc h : json) :
  pc <> JNull -> locatable pc = true -> numericStart h = true ->
  Route.withDistance StringToNumber pc h
  = Normal (routeAnnotated StringToNumber pc h).
Proof.
  intros Hpc Hl Hh. now rewrite Route_withDistance_cases, Hl.
Qed.

Lemma Route_searchResults_Normal (pc : json) (hikes results : list json)
    (maxDistanceKm limit : number) :
  Route.searchResults StringToNumber pc hikes maxDistanceKm limit
  = Normal results ->
  results = nearest (Route.distanceFromPostcodeKm StringToNumber)
              maxDistanceKm limit
              (map (routeAnnotated StringToNumber pc) hikes).
Proof.
  unfold Route.searchResults. intros H.
  destruct (mapM (Route.withDistance StringToNumber pc) hikes) as [mapped |] eqn:E;
    [| discriminate].
  cbn in H. injection H as <-.
  apply mapM_Normal in E.
  assert (Em : mapped = map (routeAnnotated StringToNumber pc) hikes).
  { apply Forall2_map_eq.
    eapply Forall2_impl; [exact E |].
    intros h r Hr. symmetry. now apply Route_withDistance_Normal. }
  now subst mapped.
Qed.

Lemma Route_searchResults_numeric (pc : json) (hikes : list json)
    (maxDistanceKm limit : number) :
  pc <> JNull -> locatable pc = true ->
  Forall (fun h => numericStart h = true) hikes ->
  Route.searchResults StringToNumber pc hikes maxDistanceKm limit
  = Normal (nearest (Route.distanceFromPostcodeKm StringToNumber)
              maxDistanceKm limit
              (map (routeAnnotated StringToNumber pc) hikes)).
Proof.
  intros Hpc Hl Hh. unfold Route.searchResults.
  rewrite (mapM_all_Normal _ (routeAnnotated StringToNumber pc)).
  - reflexivity.
  - eapply List.Forall_impl; [| exact Hh].
    intros h Hn. now apply Route_withDistance_numeric.
Qed.

(** Over a record whose coordinates cannot be converted the first hike
    makes the search throw. *)
Lemma Route_searchResults_throws (pc h : json) (rest : list json)
    (maxDistanceKm limit : number) :
  pc <> JNull -> locatable pc = false -> numericStart h = true ->
  Route.searchResults StringToNumber pc (h :: rest) maxDistanceKm limit
  = Throw TypeError.
Proof.
  intros Hpc Hl Hh. unfold Route.searchResults.
  rewrite mapM_cons, Route_withDistance_cases, Hl by assumption.
  reflexivity.
Qed.

(** ** Hikes near a hike *)

Lemma nearbyAnnotated_key (center h : json) :
  Lib.distance_from_start_km StringToNumber
    (nearbyAnnotated StringToNumber center h)
  = distanceFromCenter StringToNumber center h.
Proof.
  unfold Lib.distance_from_start_km, nearbyAnnotated.
  now rewrite prop_assign_eq.
Qed.

Lemma nearbyAnnotated_prop (center h : json) (k : string) :
  k <> "distance_from_start_km" ->
  prop (nearbyAnnotated StringToNumber center h) k = prop h k.
Proof. intros H. apply prop_assign_neq. congruence. Qed.

Lemma nearbyAnnotated_distance (center h : json) :
  distanceFromCenter StringToNumber center
    (nearbyAnnotated StringToNumber center h)
  = distanceFromCenter StringToNumber center h.
Proof. apply distanceTo_start. now apply nearbyAnnotated_prop. Qed.

Lemma Lib_withDistance_Normal (center h r : json) :
  Lib.withDistance StringToNumber center h = Normal r ->
  r = nearbyAnnotated StringToNumber center h.
Proof.
  unfold Lib.withDistance. intros H.
  destruct (member (Some center) "start") as [cstart |] eqn:E0; [| discriminate].
  cbn [mbind completion_bind] in H.
  destruct (member cstart "lat") as [lat1 |] eqn:E1; [| discriminate].
  destruct (member cstart "lon") as [lon1 |] eqn:E2; [| discriminate].
  destruct (member (Some h) "start") as [start |] eqn:E3; [| discriminate].
  cbn [mbind completion_bind] in H.
  destruct (member start "lat") as [lat2 |] eqn:E4; [| discriminate].
  destruct (member start "lon") as [lon2 |] eqn:E5; [| discriminate].
  cbn [mbind completion_bind] in H.
  rewrite !ToNumeric_cases in H.
  destruct (convertible lat2); [| discriminate].
  destruct (convertible lat1); [| discriminate].
  destruct (convertible lon2); [| discriminate].
  destruct (convertible lon1); [| discriminate].
  cbn in H. injection H as <-.
  apply member_inv in E0 as (o0 & [= <-] & _ & ->).
  apply member_inv in E1 as (o1 & Ec & Ho1 & ->).
  apply member_inv in E2 as (o2 & Ec' & _ & ->).
  rewrite Ec in Ec'. injection Ec' as <-.
  apply member_inv in E3 as (o3 & [= <-] & _ & ->).
  apply member_inv in E4 as (o4 & Es & Ho4 & ->).
  apply member_inv in E5 as (o5 & Es' & _ & ->).
  rewrite Es in Es'. injection Es' as <-.
  unfold nearbyAnnotated, distanceFromCenter, distanceTo, startLat, startLon.
  rewrite Ec, Es, !optmember_prop. reflexivity.
Qed.

Lemma Lib_notSlug_Normal (slug : string) (h : json) (b : bool) :
  Lib.notSlug slug h = Normal b ->
  b = negb (is_string (prop h "slug") slug).
Proof.
  unfold Lib.notSlug. destruct h; try discriminate; cbn;
    intros H; now injection H as <-.
Qed.

Lemma Lib_hasNumericStart_Normal (h : json) (b : bool) :
  Lib.hasNumericStart h = Normal b -> b = numericStart h.
Proof.
  unfold Lib.hasNumericStart, numericStart, startLat, startLon.
  destruct h; try discriminate; cbn; intros H; now injection H as <-.
Qed.

Lemma filterM_Normal {A} (f : A -> completion bool) (g : A -> bool)
    (l l' : list A) :
  (forall x b, f x = Normal b -> b = g x) ->
  filterM f l = Normal l' -> l' = List.filter g l.
Proof.
  intros Hf. revert l'. induction l as [| x r IH]; intros l' H; cbn in H.
  - now injection H as <-.
  - destruct (f x) as [b |] eqn:Ex; [| discriminate].
    destruct (filterM f r) as [k |] eqn:Er; [| discriminate].
    cbn in H. injection H as <-.
    rewrite (Hf _ _ Ex), (IH k eq_refl). cbn. rewrite <- (Hf _ _ Ex).
    now destruct b.
Qed.

Lemma filter_filter {A} (f g : A -> bool) (l : list A) :
  List.filter g (List.filter f l) = List.filter (fun x => f x && g x) l.
Proof.
  induction l as [| x r IH]; cbn; [reflexivity |].
  destruct (f x); cbn; [destruct (g x) |]; now rewrite IH.
Qed.

Lemma Lib_nearby_Normal (center : json) (all results : list json)
    (slug : string) (maxDistanceKm limit : number) :
  Lib.nearby StringToNumber center all slug maxDistanceKm limit
  = Normal results ->
  results = nearest (Lib.distance_from_start_km StringToNumber)
              maxDistanceKm limit
              (map (nearbyAnnotated StringToNumber center)
                   (List.filter (nearbyCandidate slug) all)).
Proof.
  unfold Lib.nearby. intros H.
  destruct (filterM (Lib.notSlug slug) all) as [others |] eqn:E1; [| discriminate].
  cbn [mbind completion_bind] in H.
  destruct (filterM Lib.hasNumericStart others) as [located |] eqn:E2;
    [| discriminate].
  cbn [mbind completion_bind] in H.
  destruct (mapM (Lib.withDistance StringToNumber center) located)
    as [mapped |] eqn:E3; [| discriminate].
  cbn in H. injection H as <-.
  apply (filterM_Normal _ _ _ _ (Lib_notSlug_Normal slug)) in E1.
  apply (filterM_Normal _ _ _ _ Lib_hasNumericStart_Normal) in E2.
  apply mapM_Normal in E3.
  assert (Em : mapped = map (nearbyAnnotated StringToNumber center) located).
  { apply Forall2_map_eq. eapply Forall2_impl; [exact E3 |].
    intros h r Hr. symmetry. now apply Lib_withDistance_Normal. }
  subst mapped located others. now rewrite filter_filter.
Qed.

End SearchFacts.


(* ====================================================================== *)
(** * The numeric contract of the distance *)

(** ** Where a number comes from *)

Lemma add_Num (a b : number) (x : R) :
  add a b = Num x -> exists p q, a = Num p /\ b = Num q.
Proof. destruct a, b; cbn; try discriminate. eauto. Qed.

Lemma sub_Num (a b : number) (x : R) :
  sub a b = Num x -> exists p q, a = Num p /\ b = Num q.
Proof. destruct a, b; cbn; try discriminate. eauto. Qed.

Lemma inf_signed_Num (s : bool) (r x : R) : inf_signed s r <> Num x.
Proof.
  unfold inf_signed. destruct (Rltb 0 r), (Rltb r 0), s; discriminate.
Qed.

Lemma mul_Num (a b : number) (x : R) :
  mul a b = Num x -> exists p q, a = Num p /\ b = Num q.
Proof.
  destruct a, b; cbn; try discriminate; eauto;
    intros H; now apply inf_signed_Num in H.
Qed.

Lemma div_Num (a : number) (c x : R) :
  div a (Num c) = Num x -> exists p, a = Num p.
Proof.
  destruct a; cbn; try discriminate; eauto.
  - destruct (Rltb c 0); discriminate.
  - destruct (Rltb c 0); discriminate.
Qed.

Lemma sin_Num (a : number) (x : R) : Math_sin a = Num x -> exists p, a = Num p.
Proof. destruct a; cbn; try discriminate. eauto. Qed.

Lemma toRad_Num (a : number) (x : R) : Lib.toRad a = Num x -> exists p, a = Num p.
Proof.
  unfold Lib.toRad. intros H.
  apply div_Num in H as [p H]. apply mul_Num in H as (q & _ & -> & _). eauto.
Qed.

(** A distance that is a number comes from four finite coordinates. *)
Lemma haversineKm_Num (lat1 lon1 lat2 lon2 : number) (x : R) :
  Lib.haversineKm lat1 lon1 lat2 lon2 = Num x ->
  exists a b c d,
    lat1 = Num a /\ lon1 = Num b /\ lat2 = Num c /\ lon2 = Num d.
Proof.
  unfold Lib.haversineKm. cbv zeta. intros H.
  apply mul_Num in H as (_ & t & _ & H).
  apply mul_Num in H as (_ & u & _ & H).
  assert (Hfin : forall s1 c1 c2 s2 : number,
             add (mul (Math_sin s1) (Math_sin s1))
                 (mul (mul (mul (Math_cos c1) (Math_cos c2)) (Math_sin s2))
                      (Math_sin s2)) <> PosInf
             /\ add (mul (Math_sin s1) (Math_sin s1))
                    (mul (mul (mul (Math_cos c1) (Math_cos c2)) (Math_sin s2))
                         (Math_sin s2)) <> NegInf).
  { intros s1 c1 c2 s2.
    destruct (Math_sin s1) eqn:E1; try (destruct s1; discriminate);
    destruct (Math_cos c1) eqn:E2; try (destruct c1; discriminate);
    destruct (Math_cos c2) eqn:E3; try (destruct c2; discriminate);
    destruct (Math_sin s2) eqn:E4; try (destruct s2; discriminate);
    cbn; split; discriminate. }
  match type of H with
  | Math_atan2 (Math_sqrt ?e) _ = _ => destruct e as [| | | v] eqn:E
  end.
  - discriminate.
  - exfalso. revert E. apply Hfin.
  - exfalso. revert E. apply Hfin.
  - clear H. apply add_Num in E as (p & q & Hp & Hq).
    apply mul_Num in Hp as (s1 & _ & Hs1 & _).
    apply mul_Num in Hq as (m & s2 & Hm & Hs2).
    apply mul_Num in Hm as (cc & _ & Hcc & _).
    apply mul_Num in Hcc as (c1 & c2 & Hc1 & Hc2).
    apply sin_Num in Hs1 as [h1 Hs1]. apply div_Num in Hs1 as [g1 Hs1].
    apply toRad_Num in Hs1 as [e1 Hs1].
    apply sub_Num in Hs1 as (c & a & -> & ->).
    apply sin_Num in Hs2 as [h2 Hs2]. apply div_Num in Hs2 as [g2 Hs2].
    apply toRad_Num in Hs2 as [e2 Hs2].
    apply sub_Num in Hs2 as (d & b & -> & ->).
    exists a, b, c, d. auto.
Qed.







(* ====================================================================== *)
(** * Distances on the equator *)

Section Equator.

Local Open Scope R_scope.

(** Along the equator the distance is the arc of the difference of
    longitude. *)
Lemma hav_km_equator (x : R) :
  0 <= x < 180 -> hav_km 0 0 0 x = 6371 * (x * PI / 180).
Proof.
  intros [H0 H180]. pose proof PI_RGT_0 as Hpi.
  unfold hav_km, hav_a. cbv zeta.
  replace ((0 - 0) * PI / 180 / 2) with 0 by field.
  replace (0 * PI / 180) with 0 by field.
  replace ((x - 0) * PI / 180 / 2) with (x * PI / 180 / 2) by field.
  set (h := x * PI / 180 / 2).
  assert (Hh : 0 <= h < PI / 2).
  { unfold h. split.
    - apply Rmult_le_pos; [| lra].
      apply Rmult_le_pos; [| lra]. apply Rmult_le_pos; lra.
    - assert (x * PI < 180 * PI) by (apply Rmult_lt_compat_r; lra). lra. }
  rewrite sin_0, cos_0.
  replace (0 * 0 + 1 * 1 * sin h * sin h) with (sin h * sin h) by ring.
  assert (Hs : 0 <= sin h) by (apply sin_ge_0; lra).
  assert (Hc : 0 < cos h) by (apply cos_gt_0; lra).
  rewrite sqrt_square by assumption.
  replace (1 - sin h * sin h) with (cos h * cos h)
    by (pose proof (sin2_cos2 h) as E; unfold Rsqr in E; lra).
  rewrite sqrt_square by lra.
  unfold Ratan2.
  assert (E : Rltb 0 (cos h) = true) by now apply Rltb_true.
  rewrite E. fold (tan h). rewrite atan_tan by lra.
  unfold h. field.
Qed.

(** Eleven metres and a bit. *)
Lemma near_distance :
  exists d, hav_km 0 0 0 (1 / 10000) = d /\ 106 / 10000 < d < 142 / 10000.
Proof.
  eexists. split; [reflexivity |].
  rewrite hav_km_equator by lra.
  pose proof PI_4 as H4. pose proof PI2_3_2 as H3. lra.
Qed.

Lemma toFixed2_near (d : R) :
  106 / 10000 < d < 142 / 10000 -> toFixed2 (Num d) = Num (1 / 100).
Proof.
  intros [Hl Hu]. unfold toFixed2, round_half_up.
  assert (E : Rltb d 0 = false) by (apply Rltb_false; lra).
  rewrite E. rewrite (Int_part_eq _ 1); [reflexivity |]. lra.
Qed.

(** A full turn of latitude is no distance. *)
Lemma hav_km_full_turn : hav_km 0 0 360 0 = 0.
Proof.
  unfold hav_km, hav_a. cbv zeta.
  replace ((360 - 0) * PI / 180 / 2) with PI by field.
  replace ((0 - 0) * PI / 180 / 2) with 0 by field.
  rewrite sin_PI, sin_0.
  replace (0 * 0 + cos (0 * PI / 180) * cos (360 * PI / 180) * 0 * 0)
    with 0 by ring.
  rewrite Rminus_0_r, sqrt_0, sqrt_1, Ratan2_0_1. ring.
Qed.

Lemma toFixed2_0 : toFixed2 (Num 0) = Num 0.
Proof.
  unfold toFixed2, round_half_up.
  assert (E : Rltb 0 0 = false) by (apply Rltb_false; lra).
  rewrite E. rewrite (Int_part_eq _ 0) by lra. f_equal. field.
Qed.

(** [toFixed(2)] rounds to two decimal places. *)
Lemma toFixed2_rounded (d : R) :
  exists q, toFixed2 (Num d) = Num q /\ rounded2 d q.
Proof.
  unfold toFixed2, round_half_up, rounded2.
  destruct (Rltb d 0) eqn:E; rbool.
  - pose proof (Int_part_bounds (100 * - d + / 2)) as [Hl Hu].
    eexists. split; [reflexivity |].
    exists (- Int_part (100 * - d + / 2))%Z. split.
    + rewrite opp_IZR. field.
    + apply Rabs_le. lra.
  - pose proof (Int_part_bounds (100 * d + / 2)) as [Hl Hu].
    eexists. split; [reflexivity |].
    exists (Int_part (100 * d + / 2)). split; [reflexivity |].
    apply Rabs_le. lra.
Qed.

Lemma toFixed2_NaN (a : number) : isNaN (toFixed2 a) = false -> isNaN a = false.
Proof. now destruct a. Qed.

End Equator.

(* ====================================================================== *)
(** * Keeping everything: a limit at least the length *)

Section SliceAll.

Context {A : Type}.

Lemma atMost_le (n m : nat) (limit : number) :
  atMost n limit -> (m <= n)%nat -> atMost m limit.
Proof.
  unfold atMost. destruct limit; cbn; try easy.
  intros H Hm; rbool. apply Rleb_true.
  apply Rle_trans with (INR n); [now apply le_INR | assumption].
Qed.

Lemma slice_all (l : list A) (limit : number) :
  atMost (List.length l) limit -> Array_slice0 l limit = l.
Proof.
  unfold atMost, Array_slice0. destruct limit as [| | | r]; cbn; try easy.
  - intros _. apply firstn_all.
  - intros H; rbool.
    pose proof (pos_INR (List.length l)) as Hpos.
    unfold Rtrunc.
    assert (E : Rltb r 0 = false) by (apply Rltb_false; lra).
    rewrite E.
    pose proof (Int_part_bounds r) as [Hlo Hhi].
    assert (Hk : (Z.of_nat (List.length l) <= Int_part r)%Z).
    { rewrite INR_IZR_INZ in H.
      assert (Hlt : (Z.of_nat (List.length l) < Int_part r + 1)%Z).
      { apply lt_IZR. rewrite plus_IZR. lra. }
      lia. }
    assert (Ek : (Int_part r <? 0)%Z = false) by (apply Z.ltb_ge; lia).
    rewrite Ek, Z.min_r by assumption.
    rewrite Nat2Z.id. apply firstn_all.
Qed.

Variable key : A -> number.

Lemma nearest_In (maxDistanceKm limit : number) (l : list A) (x : A) :
  In x l -> Num.leb (key x) maxDistanceKm = true ->
  atMost (List.length l) limit ->
  In x (nearest key maxDistanceKm limit l).
Proof.
  intros Hx Hk Hl. unfold nearest.
  rewrite slice_all.
  - apply (Permutation_in (l := List.filter (fun h => Num.leb (key h) maxDistanceKm) l)).
    + symmetry. apply Array_sort_perm.
    + apply List.filter_In. now split.
  - apply atMost_le with (List.length l); [assumption |].
    rewrite (Permutation_length (Array_sort_perm key _)).
    apply List.filter_length_le.
Qed.

Lemma nearest_one (maxDistanceKm limit : number) (x : A) :
  Num.leb (key x) maxDistanceKm = true -> atMost 1 limit ->
  nearest key maxDistanceKm limit [x] = [x].
Proof.
  intros Hk Hl. unfold nearest. cbn [List.filter]. rewrite Hk.
  cbn [Array_sort fold_right sort_insert]. now apply slice_all.
Qed.

End SliceAll.

Lemma atMost_1_20 : atMost 1 (Num 20).
Proof. unfold atMost. cbn. apply Rleb_true. lra. Qed.


(* ====================================================================== *)
(** * Loading the corpus *)

Lemma fold_left_invariant {A B} (P : A -> Prop) (f : A -> B -> A)
    (l : list B) (init : A) :
  P init -> (forall acc x, P acc -> P (f acc x)) -> P (fold_left f l init).
Proof.
  intros Hinit Hstep. revert init Hinit.
  induction l as [| x r IH]; intros init Hinit; cbn; auto.
Qed.

Lemma Forall_snoc {A} (P : A -> Prop) (l : list A) (x : A) :
  Forall P l -> P x -> Forall P (l ++ [x]).
Proof. intros Hl Hx. apply List.Forall_app. split; [assumption | now constructor]. Qed.

Lemma Route_hasNumericStart_Normal (h : json) (b : bool) :
  Route.hasNumericStart h = Normal b -> b = numericStart h.
Proof.
  unfold Route.hasNumericStart, numericStart, startLat, startLon.
  destruct h; try discriminate; cbn; intros H; now injection H as <-.
Qed.

(** The route loads only hikes whose start coordinates are numbers. *)
Lemma loadAllHikes_numeric (fs : FileSystem) :
  Forall (fun h => numericStart h = true) (Route.loadAllHikes fs).
Proof.
  unfold Route.loadAllHikes.
  destruct (fs_readdir fs _) as [files |]; [| constructor].
  apply fold_left_invariant; [constructor |].
  intros acc fileName Hacc. unfold Route.loadHikeFile.
  destruct (negb (endsWith fileName ".json")); [assumption |].
  destruct (fs_readFile fs _) as [f |]; [| assumption].
  cbn [mbind completion_bind try_catch].
  destruct (JSON_parse f) as [hike |]; [| assumption].
  cbn [mbind completion_bind try_catch].
  destruct (Route.hasNumericStart hike) as [ok |] eqn:E; [| assumption].
  cbn. apply Route_hasNumericStart_Normal in E.
  destruct ok; [| assumption].
  apply Forall_snoc; auto.
Qed.

(** [getAllHikes] keeps only values that are not [null]. *)
Lemma getAllHikes_not_null (fs : FileSystem) :
  Forall (fun h => h <> JNull) (Lib.getAllHikes fs).
Proof.
  unfold Lib.getAllHikes.
  destruct (fs_readdir fs _) as [files |]; [| constructor].
  cbn. apply fold_left_invariant; [constructor |].
  intros acc file Hacc. unfold Lib.pushHikeOfFile.
  destruct (negb (endsWith file ".json")); [assumption |].
  destruct (truthy _) eqn:E; [| assumption].
  apply Forall_snoc; [assumption |]. now apply truthy_not_null.
Qed.

Lemma nearest_nil {A} (key : A -> number) (maxDistanceKm limit : number) :
  nearest key maxDistanceKm limit [] = [].
Proof. unfold nearest, Array_slice0. cbn. apply firstn_nil. Qed.

Lemma json_null_or (j : json) : j = JNull \/ j <> JNull.
Proof. destruct j; (now left) || (right; discriminate). Qed.

Section SearchReturns.

Variable StringToNumber : string -> number.

(** The callback throws only over the start of the reference hike. *)
Lemma Lib_withDistance_cases (center h : json) :
  numericStart h = true ->
  Lib.withDistance StringToNumber center h
  = if anchored center then Normal (nearbyAnnotated StringToNumber center h)
    else Throw TypeError.
Proof.
  intros Hh.
  destruct (numericStart_shape h Hh) as (Hn & start & Es & Hs & Elat & Elon).
  destruct (numericStart_convertible h Hh) as [H1 H2].
  rewrite Elat in H1. rewrite Elon in H2.
  unfold Lib.withDistance, anchored.
  destruct (json_null_or center) as [-> | Hcn]; [reflexivity |].
  rewrite (member_Normal center) by assumption. cbn [mbind completion_bind].
  destruct (prop center "start") as [cstart |] eqn:Ec; [| reflexivity].
  destruct (json_null_or cstart) as [-> | Hc]; [reflexivity |].
  rewrite !(member_Normal cstart) by assumption. cbn [mbind completion_bind].
  rewrite (member_Normal h) by assumption. cbn [mbind completion_bind].
  rewrite Es. rewrite !(member_Normal start) by assumption.
  cbn [mbind completion_bind mret completion_ret].
  rewrite !ToNumeric_cases, H1, H2.
  assert (Ea : (match cstart with
                | JNull => false
                | _ => convertible (prop cstart "lat")
                       && convertible (prop cstart "lon")
                end)
               = convertible (prop cstart "lat")
                 && convertible (prop cstart "lon")).
  { destruct cstart; try reflexivity. now contradiction Hc. }
  rewrite Ea.
  destruct (convertible (prop cstart "lat"));
    destruct (convertible (prop cstart "lon")); cbn; try reflexivity.
  unfold nearbyAnnotated, distanceFromCenter, distanceTo.
  rewrite Elat, Elon. unfold startLat, startLon. rewrite Ec.
  now rewrite !optmember_prop.
Qed.

Lemma Lib_nearby_filters (center : json) (all : list json) (slug : string)
    (maxDistanceKm limit : number) :
  Forall (fun h => h <> JNull) all ->
  Lib.nearby StringToNumber center all slug maxDistanceKm limit
  = (mapped ← mapM (Lib.withDistance StringToNumber center)
                (List.filter (nearbyCandidate slug) all);
     mret (nearest (Lib.distance_from_start_km StringToNumber)
             maxDistanceKm limit mapped)).
Proof.
  intros Hall. unfold Lib.nearby.
  rewrite (filterM_all_Normal _
             (fun h => negb (is_string (prop h "slug") slug))).
  2:{ eapply List.Forall_impl; [| exact Hall].
      intros h Hh. unfold Lib.notSlug. now rewrite member_Normal. }
  cbn [mbind completion_bind].
  rewrite (filterM_all_Normal _ numericStart).
  2:{ apply List.Forall_forall. intros h Hh.
      apply List.filter_In in Hh as [Hh _].
      rewrite List.Forall_forall in Hall. specialize (Hall h Hh).
      unfold Lib.hasNumericStart. now rewrite member_Normal. }
  cbn [mbind completion_bind].
  now rewrite filter_filter.
Qed.

(** With a reference hike whose start can be converted, the search near a
    hike returns, whatever the corpus holds. *)
Lemma Lib_nearby_returns (center : json) (all : list json)
    (slug : string) (maxDistanceKm limit : number) :
  anchored center = true ->
  Forall (fun h => h <> JNull) all ->
  Lib.nearby StringToNumber center all slug maxDistanceKm limit
  = Normal (nearest (Lib.distance_from_start_km StringToNumber)
              maxDistanceKm limit
              (map (nearbyAnnotated StringToNumber center)
                   (List.filter (nearbyCandidate slug) all))).
Proof.
  intros Hc Hall. rewrite Lib_nearby_filters by assumption.
  rewrite (mapM_all_Normal _ (nearbyAnnotated StringToNumber center)).
  2:{ apply List.Forall_forall. intros h Hh.
      apply List.filter_In in Hh as [_ Hh].
      unfold nearbyCandidate in Hh. apply andb_true_iff in Hh as [_ Hh].
      now rewrite Lib_withDistance_cases, Hc. }
  reflexivity.
Qed.

(** The route answers whenever the coordinates of the record it found can
    be converted. *)
Lemma GET_returns (fs : FileSystem) (req : Route.request) :
  (forall raw,
      Route.q_postcode req = Some raw ->
      locatable (Route.loadPostcodeRecord fs (Route.normalisePostcode raw))
      = true) ->
  exists resp, Route.GET StringToNumber fs req = Normal resp.
Proof.
  intros Hl. unfold Route.GET.
  destruct (Route.q_postcode req) as [[| c raw] |]; try (eexists; reflexivity).
  specialize (Hl _ eq_refl).
  destruct (isNaN _ || Num.leb _ _); [eexists; reflexivity |].
  destruct (isNaN _ || Num.leb _ _); [eexists; reflexivity |].
  destruct (truthy _) eqn:Et; cbn [negb]; [| eexists; reflexivity].
  destruct (_ =? 0)%nat; [eexists; reflexivity |].
  rewrite Route_searchResults_numeric.
  - eexists; reflexivity.
  - now apply truthy_not_null.
  - exact Hl.
  - apply loadAllHikes_numeric.
Qed.

End SearchReturns.


(* ====================================================================== *)
(** * The output of the proximity search *)

Lemma nearest_contract {A} (key : A -> number) (P : A -> Prop)
    (maxDistanceKm limit : number) (corpus : list A) :
  Num.ltb (Num 0) limit = true ->
  (forall r, In r corpus -> P r) ->
  let results := nearest key maxDistanceKm limit corpus in
  Forall (fun r => In r corpus /\ P r
                   /\ Num.leb (key r) maxDistanceKm = true) results
  /\ ascending key results
  /\ tiesKeepOrder key corpus results
  /\ atMost (List.length results) limit.
Proof.
  intros Hlimit HP results. repeat split.
  - apply List.Forall_forall. intros r Hr.
    apply nearest_within in Hr as [Hin Hle]. auto.
  - apply nearest_ascending.
  - apply nearest_ties.
  - now apply nearest_atMost.
Qed.

(** C1, as amended.  For a limit above zero, both searches return only
    candidates whose annotated distance does not exceed [maxDistanceKm]:
    the distance rounded to two decimal places in the postcode search, the
    distance itself in the search near a hike.  The results ascend by the
    annotated distance, candidates of equal annotated distance keep the
    order of the corpus, and there are at most [limit] results. *)
Theorem proximity_search_contract (StringToNumber : string -> number)
    (postcodeRecord center : json) (hikes all : list json) (slug : string)
    (maxDistanceKm limit : number) :
  Num.ltb (Num 0) limit = true ->
  (forall results,
      Route.searchResults StringToNumber postcodeRecord hikes
        maxDistanceKm limit = Normal results ->
      let key := Route.distanceFromPostcodeKm StringToNumber in
      let corpus := map (routeAnnotated StringToNumber postcodeRecord) hikes in
      Forall (fun r =>
                In r corpus
                /\ key r = toFixed2 (distanceFromPostcode StringToNumber
                                       postcodeRecord r)
                /\ Num.leb (key r) maxDistanceKm = true) results
      /\ ascending key results
      /\ tiesKeepOrder key corpus results
      /\ atMost (List.length results) limit)
  /\ (forall results,
      Lib.nearby StringToNumber center all slug maxDistanceKm limit
      = Normal results ->
      let key := Lib.distance_from_start_km StringToNumber in
      let corpus :=
        map (nearbyAnnotated StringToNumber center)
            (List.filter (nearbyCandidate slug) all) in
      Forall (fun r =>
                In r corpus
                /\ key r = distanceFromCenter StringToNumber center r
                /\ Num.leb (key r) maxDistanceKm = true) results
      /\ ascending key results
      /\ tiesKeepOrder key corpus results
      /\ atMost (List.length results) limit).
Proof.
  intros Hlimit. split; intros results Hres key corpus.
  - apply Route_searchResults_Normal in Hres. subst results.
    apply nearest_contract; [assumption |].
    intros r Hr. apply in_map_iff in Hr as (h & <- & _).
    unfold key. now rewrite routeAnnotated_key, routeAnnotated_distance.
  - apply Lib_nearby_Normal in Hres. subst results.
    apply nearest_contract; [assumption |].
    intros r Hr. apply in_map_iff in Hr as (h & <- & _).
    unfold key. now rewrite nearbyAnnotated_key, nearbyAnnotated_distance.
Qed.

Section Samples.

Import Examples.
Local Open Scope R_scope.

Lemma distance_equator_near :
  distanceFromPostcode noNumerals equatorPostcode nearHike
  = Num (hav_km 0 0 0 (1 / 10000)).
Proof. apply haversineKm_finite. Qed.

Lemma distance_origin_near :
  distanceFromCenter noNumerals equatorHike nearHike
  = Num (hav_km 0 0 0 (1 / 10000)).
Proof. apply haversineKm_finite. Qed.

Lemma leb_refl_Num (r : R) : Num.leb (Num r) (Num r) = true.
Proof. cbn. apply Rleb_true. lra. Qed.

Lemma postcode_search_near (maxDistanceKm limit : number) :
  Num.leb (Num (1 / 100)) maxDistanceKm = true -> atMost 1 limit ->
  Route.searchResults noNumerals equatorPostcode [nearHike]
    maxDistanceKm limit
  = Normal [routeAnnotated noNumerals equatorPostcode nearHike].
Proof.
  intros Hmax Hlimit.
  rewrite Route_searchResults_numeric;
    [| discriminate | reflexivity | now repeat constructor].
  f_equal. cbn [map]. apply nearest_one; [| assumption].
  rewrite routeAnnotated_key, distance_equator_near.
  destruct near_distance as (d & -> & Hd).
  now rewrite (toFixed2_near d Hd).
Qed.

Lemma atMost_1_4 : atMost 1 (Num 4).
Proof. unfold atMost. cbn. apply Rleb_true. lra. Qed.

Lemma atMost_2_4 : atMost 2 (Num 4).
Proof. unfold atMost. cbn. apply Rleb_true. lra. Qed.

Lemma nearby_search_near :
  Lib.nearby noNumerals equatorHike [equatorHike; nearHike] "origin"
    (Num 30) (Num 4)
  = Normal [nearbyAnnotated noNumerals equatorHike nearHike].
Proof.
  rewrite (Lib_nearby_returns noNumerals equatorHike);
    [| reflexivity | repeat constructor; discriminate].
  f_equal.
  change (List.filter (nearbyCandidate "origin") [equatorHike; nearHike])
    with [nearHike].
  cbn [map]. apply nearest_one; [| apply atMost_1_4].
  rewrite nearbyAnnotated_key, distance_origin_near.
  destruct near_distance as (d & -> & Hd). cbn. apply Rleb_true. lra.
Qed.

Lemma distance_equator_stray :
  distanceFromPostcode noNumerals equatorPostcode strayHike = Num 0.
Proof.
  transitivity (Num (hav_km 0 0 360 0)); [apply haversineKm_finite |].
  now rewrite hav_km_full_turn.
Qed.

Lemma postcode_search_stray :
  Route.searchResults noNumerals equatorPostcode [strayHike]
    (Num 50) (Num 20)
  = Normal [routeAnnotated noNumerals equatorPostcode strayHike].
Proof.
  rewrite Route_searchResults_numeric;
    [| discriminate | reflexivity | now repeat constructor].
  f_equal. cbn [map]. apply nearest_one; [| apply atMost_1_20].
  rewrite routeAnnotated_key, distance_equator_stray, toFixed2_0.
  cbn. apply Rleb_true. lra.
Qed.

End Samples.

(** C1 as stated fails in the postcode search, which filters on the
    rounded distance: eleven metres from the postcode, with a radius of
    ten metres, the hike is returned. *)
Lemma postcode_search_beyond_radius :
  exists r,
    Route.searchResults Examples.noNumerals Examples.equatorPostcode
      [Examples.nearHike] (Num (1 / 100)) (Num 20) = Normal [r]
    /\ Num.leb (distanceFromPostcode Examples.noNumerals
                  Examples.equatorPostcode r) (Num (1 / 100)) = false.
Proof.
  eexists. split; [apply postcode_search_near;
                     [apply leb_refl_Num | apply atMost_1_20] |].
  rewrite routeAnnotated_distance, distance_equator_near.
  destruct near_distance as (d & -> & Hd). cbn. apply Rleb_false. lra.
Qed.

(** The contract at work: a postcode on the equator, a hike eleven
    metres away, a radius of 30 km and a limit of 4. *)
Lemma proximity_search_contract_witness :
  Num.ltb (Num 0) (Num 4) = true
  /\ exists found near,
      Route.searchResults Examples.noNumerals Examples.equatorPostcode
        [Examples.nearHike] (Num 30) (Num 4) = Normal found
      /\ Lib.nearby Examples.noNumerals Examples.equatorHike
           [Examples.equatorHike; Examples.nearHike] "origin"
           (Num 30) (Num 4) = Normal near
      /\ ascending (Route.distanceFromPostcodeKm Examples.noNumerals) found
      /\ atMost (List.length found) (Num 4)
      /\ ascending (Lib.distance_from_start_km Examples.noNumerals) near
      /\ atMost (List.length near) (Num 4).
Proof.
  assert (H : Num.ltb (Num 0) (Num 4) = true) by (apply Rltb_true; lra).
  assert (Hmax : Num.leb (Num (1 / 100)) (Num 30) = true)
    by (apply Rleb_true; lra).
  assert (Hs := postcode_search_near (Num 30) (Num 4) Hmax atMost_1_4).
  split; [exact H |].
  do 2 eexists. split; [exact Hs |]. split; [exact nearby_search_near |].
  destruct (proximity_search_contract Examples.noNumerals
              Examples.equatorPostcode Examples.equatorHike
              [Examples.nearHike] [Examples.equatorHike; Examples.nearHike]
              "origin" (Num 30) (Num 4) H) as [HR HL].
  destruct (HR _ Hs) as (_ & Hasc & _ & Hlen).
  destruct (HL _ nearby_search_near) as (_ & Hasc' & _ & Hlen').
  repeat split; assumption.
Defined.


(* ====================================================================== *)
(** * The distance annotation *)

(** C6, as amended.  Every candidate the postcode search returns carries
    its distance rounded to two decimal places; every candidate the search
    near a hike returns carries its distance as computed, not rounded. *)
Theorem distance_annotation (StringToNumber : string -> number)
    (postcodeRecord center : json) (hikes all : list json) (slug : string)
    (maxDistanceKm limit : number) (found near : list json) :
  Route.searchResults StringToNumber postcodeRecord hikes maxDistanceKm limit
  = Normal found ->
  Lib.nearby StringToNumber center all slug maxDistanceKm limit
  = Normal near ->
  Forall (fun r =>
            exists d q,
              distanceFromPostcode StringToNumber postcodeRecord r = Num d
              /\ Route.distanceFromPostcodeKm StringToNumber r = Num q
              /\ rounded2 d q) found
  /\ Forall (fun r =>
               Lib.distance_from_start_km StringToNumber r
               = distanceFromCenter StringToNumber center r) near.
Proof.
  intros Hfound Hnear.
  apply Route_searchResults_Normal in Hfound.
  apply Lib_nearby_Normal in Hnear. subst found near.
  split; apply List.Forall_forall; intros r Hr;
    apply nearest_within in Hr as [Hin Hle];
    apply in_map_iff in Hin as (h & <- & _).
  - rewrite routeAnnotated_key in Hle |- *.
    rewrite routeAnnotated_distance.
    apply leb_nonNaN in Hle as [Hnan _]. apply toFixed2_NaN in Hnan.
    unfold distanceFromPostcode, distanceTo in *.
    destruct (haversineKm_cases
                (ToNumber StringToNumber (prop postcodeRecord "latitude"))
                (ToNumber StringToNumber (prop postcodeRecord "longitude"))
                (ToNumber StringToNumber (startLat h))
                (ToNumber StringToNumber (startLon h))) as [E | [d E]];
      rewrite E in *; [discriminate |].
    destruct (toFixed2_rounded d) as (q & Eq & Hq).
    exists d, q. auto.
  - now rewrite nearbyAnnotated_key, nearbyAnnotated_distance.
Qed.

(** The annotations of both searches, eleven metres from the reference. *)
Lemma distance_annotation_witness :
  exists found near,
    Route.searchResults Examples.noNumerals Examples.equatorPostcode
      [Examples.nearHike] (Num 30) (Num 4) = Normal found
    /\ Lib.nearby Examples.noNumerals Examples.equatorHike
         [Examples.equatorHike; Examples.nearHike] "origin" (Num 30) (Num 4)
       = Normal near
    /\ Forall (fun r =>
                 exists d q,
                   distanceFromPostcode Examples.noNumerals
                     Examples.equatorPostcode r = Num d
                   /\ Route.distanceFromPostcodeKm Examples.noNumerals r = Num q
                   /\ rounded2 d q) found.
Proof.
  assert (Hmax : Num.leb (Num (1 / 100)) (Num 30) = true)
    by (apply Rleb_true; lra).
  assert (Hs := postcode_search_near (Num 30) (Num 4) Hmax atMost_1_4).
  do 2 eexists. split; [exact Hs |].
  split; [apply nearby_search_near |].
  exact (proj1 (distance_annotation Examples.noNumerals
                  Examples.equatorPostcode Examples.equatorHike
                  [Examples.nearHike]
                  [Examples.equatorHike; Examples.nearHike] "origin"
                  (Num 30) (Num 4) _ _ Hs nearby_search_near)).
Defined.

(** C6 as stated fails in the search near a hike: eleven metres from the
    reference the annotation is the distance itself, not 0.01. *)
Lemma nearby_distance_not_rounded :
  exists r,
    Lib.nearby Examples.noNumerals Examples.equatorHike
      [Examples.equatorHike; Examples.nearHike] "origin" (Num 30) (Num 4)
    = Normal [r]
    /\ Lib.distance_from_start_km Examples.noNumerals r
       <> toFixed2 (distanceFromCenter Examples.noNumerals
                      Examples.equatorHike r).
Proof.
  eexists. split; [apply nearby_search_near |].
  rewrite nearbyAnnotated_key, nearbyAnnotated_distance, distance_origin_near.
  destruct near_distance as (d & -> & Hd).
  rewrite (toFixed2_near d Hd). intros H. injection H as H. lra.
Qed.


(* ====================================================================== *)
(** * Which records take part *)

Lemma GET_results (StringToNumber : string -> number) (fs : FileSystem)
    (req : Route.request) (resp : Route.response) (r : json) :
  Route.GET StringToNumber fs req = Normal resp -> In r (resultsOf resp) ->
  exists postcodeRecord h,
    In h (Route.loadAllHikes fs)
    /\ r = routeAnnotated StringToNumber postcodeRecord h.
Proof.
  unfold Route.GET.
  destruct (Route.q_postcode req) as [[| c raw] |];
    try (intros H; injection H as <-; contradiction).
  destruct (isNaN _ || Num.leb _ _);
    [intros H; injection H as <-; contradiction |].
  destruct (isNaN _ || Num.leb _ _);
    [intros H; injection H as <-; contradiction |].
  destruct (negb (truthy _)); [intros H; injection H as <-; contradiction |].
  destruct (_ =? 0)%nat; [intros H; injection H as <-; contradiction |].
  destruct (Route.searchResults _ _ _ _ _) as [results |] eqn:E;
    [| discriminate].
  cbn. intros H; injection H as <-. unfold resultsOf. cbn. intros Hr.
  apply Route_searchResults_Normal in E. subst results.
  apply nearest_within in Hr as [Hr _].
  apply in_map_iff in Hr as (h & <- & Hh). eauto.
Qed.

Lemma candidates_numeric (slug : string) (l : list json) :
  List.filter (nearbyCandidate slug) (List.filter numericStart l)
  = List.filter (nearbyCandidate slug) l.
Proof.
  rewrite filter_filter. apply List.filter_ext. intros h.
  unfold nearbyCandidate. now destruct (numericStart h), (negb _).
Qed.

Lemma Forall_filter_keeps {A} (P : A -> Prop) (f : A -> bool) (l : list A) :
  Forall P l -> Forall P (List.filter f l).
Proof.
  intros H. apply List.Forall_forall. intros x Hx.
  apply List.filter_In in Hx as [Hx _].
  rewrite List.Forall_forall in H. now apply H.
Qed.

Lemma anchored_truthy (center : json) :
  anchored center = true -> truthy (Some center) = true.
Proof. unfold anchored. now destruct center. Qed.

(** C4, as amended.  A hike takes part in a search only if [start.lat]
    and [start.lon] are both numbers, of any size, and the other records
    are left out without harm.  The route loads such hikes only, each of
    its results is one of them with its distance, and it answers whenever
    the coordinates of the postcode record can be converted.  The search
    near a hike gives the same outcome, thrown errors included, as on the
    corpus without the records that lack a numeric start; each of its
    results is a hike with a numeric start, with its distance; and it
    returns whenever the reference hike has a start whose coordinates can
    be converted, or is not found.  So a search throws over its reference
    point only, never over a candidate. *)
Theorem coordinate_participation (StringToNumber : string -> number)
    (fs : FileSystem) (req : Route.request) (slug : string)
    (maxDistanceKm limit : option number) :
  let center := Lib.getHikeBySlug fs slug in
  let all := Lib.getAllHikes fs in
  Forall (fun h => numericStart h = true) (Route.loadAllHikes fs)
  /\ (forall resp,
         Route.GET StringToNumber fs req = Normal resp ->
         Forall (fun r =>
                   exists postcodeRecord h,
                     In h (Route.loadAllHikes fs)
                     /\ r = routeAnnotated StringToNumber postcodeRecord h)
                (resultsOf resp))
  /\ ((forall raw,
          Route.q_postcode req = Some raw ->
          locatable (Route.loadPostcodeRecord fs (Route.normalisePostcode raw))
          = true) ->
      exists resp, Route.GET StringToNumber fs req = Normal resp)
  /\ Lib.nearby StringToNumber center all slug
        (default (Num 30) maxDistanceKm) (default (Num 4) limit)
      = Lib.nearby StringToNumber center (List.filter numericStart all) slug
          (default (Num 30) maxDistanceKm) (default (Num 4) limit)
  /\ (forall results,
         Lib.getNearbyHikes StringToNumber fs slug maxDistanceKm limit
         = Normal results ->
         Forall (fun r =>
                   exists h,
                     In h all /\ numericStart h = true
                     /\ r = nearbyAnnotated StringToNumber center h)
                results)
  /\ (anchored center = true \/ truthy (Some center) = false ->
      exists results,
        Lib.getNearbyHikes StringToNumber fs slug maxDistanceKm limit
        = Normal results).
Proof.
  intros center all.
  pose proof (getAllHikes_not_null fs) as Hall. fold all in Hall.
  split; [apply loadAllHikes_numeric |]. split; [| split; [| split; [| split]]].
  - intros resp E. apply List.Forall_forall. intros r Hr.
    now apply (GET_results _ fs req resp).
  - apply GET_returns.
  - rewrite !Lib_nearby_filters;
      [| now apply Forall_filter_keeps | assumption].
    now rewrite candidates_numeric.
  - intros results. unfold Lib.getNearbyHikes. fold center all.
    destruct (negb (truthy (Some center))).
    + intros H; injection H as <-. constructor.
    + intros H. apply Lib_nearby_Normal in H. subst results.
      apply List.Forall_forall. intros r Hr.
      apply nearest_within in Hr as [Hr _].
      apply in_map_iff in Hr as (h & <- & Hh).
      apply List.filter_In in Hh as [Hin Hcand].
      unfold nearbyCandidate in Hcand.
      apply andb_true_iff in Hcand as [_ Hnum]. eauto.
  - unfold Lib.getNearbyHikes. fold center all. intros [Ha | Hf].
    + rewrite (anchored_truthy _ Ha). cbn [negb].
      rewrite Lib_nearby_returns by assumption. eauto.
    + rewrite Hf. cbn [negb]. eauto.
Qed.

(** A store with malformed records among its hikes: a hike without
    start, a hike whose latitude is text and a file that holds [null].
    Both searches answer, and return hikes with a numeric start only. *)
Lemma coordinate_participation_witness :
  In Examples.lostHike (Lib.getAllHikes Examples.mixedStore)
  /\ In Examples.textHike (Lib.getAllHikes Examples.mixedStore)
  /\ numericStart Examples.lostHike = false
  /\ numericStart Examples.textHike = false
  /\ (exists resp,
        Route.GET Examples.defaultNumerals Examples.mixedStore
          {| Route.q_postcode := Some "aa11aa"; Route.q_distance := None;
             Route.q_limit := None |} = Normal resp
        /\ Forall (fun r =>
                     exists postcodeRecord h,
                       In h [Examples.equatorHike; Examples.nearHike]
                       /\ r = routeAnnotated Examples.defaultNumerals
                                postcodeRecord h)
                  (resultsOf resp))
  /\ (exists results,
        Lib.getNearbyHikes Examples.defaultNumerals Examples.mixedStore
          "origin" None None = Normal results
        /\ Forall (fun r =>
                     exists h,
                       numericStart h = true
                       /\ r = nearbyAnnotated Examples.defaultNumerals
                                Examples.equatorHike h)
                  results).
Proof.
  destruct (coordinate_participation Examples.defaultNumerals
              Examples.mixedStore
              {| Route.q_postcode := Some "aa11aa"; Route.q_distance := None;
                 Route.q_limit := None |}
              "origin" None None) as (_ & Hroute & Hanswers & _ & Hnear & Hreturns).
  split; [right; left; reflexivity |].
  split; [right; right; left; reflexivity |].
  split; [reflexivity |]. split; [reflexivity |]. split.
  - destruct Hanswers as [resp E].
    { intros raw [= <-]. reflexivity. }
    exists resp. split; [exact E |]. exact (Hroute resp E).
  - destruct Hreturns as [results E]; [left; reflexivity |].
    exists results. split; [exact E |].
    eapply List.Forall_impl; [| exact (Hnear results E)].
    intros r (h & _ & Hn & ->). eauto.
Defined.

(** C4 as stated fails: a hike at latitude 360 takes part and is
    returned, at distance zero from a postcode on the equator. *)
Lemma stray_latitude_returned :
  exists r,
    Route.searchResults Examples.noNumerals Examples.equatorPostcode
      [Examples.strayHike] (Num 50) (Num 20) = Normal [r]
    /\ startLat r = Some (JNum (Num 360))
    /\ validLat (startLat r) = false.
Proof.
  eexists. split; [apply postcode_search_stray |].
  split; [reflexivity |].
  cbn. apply andb_false_iff. right. apply Rleb_false. lra.
Qed.

(** The reference hike itself is not guarded: without a start it makes
    the search near a hike throw as soon as there is a candidate. *)
Lemma nearby_throws_without_start :
  Lib.nearby Examples.noNumerals Examples.lostHike [Examples.nearHike]
    "lost" (Num 30) (Num 4) = Throw TypeError.
Proof. reflexivity. Qed.


(* ====================================================================== *)
(** * The reference hike is left out *)

Lemma numeric_anchored (h : json) (lat lon : number) :
  startLat h = Some (JNum lat) -> startLon h = Some (JNum lon) ->
  anchored h = true.
Proof.
  intros E1 E2. apply numericStart_anchored.
  unfold numericStart. now rewrite E1, E2.
Qed.

(** C7, as amended.  The search near a hike never returns a hike whose
    slug is the slug asked for; when the reference hike, the hike of the
    file of that name, carries that slug, every result is another hike
    of the corpus.  The match is on the slug, not on the coordinates: a
    hike of another slug that starts where the reference hike starts is
    returned, at distance zero, when the radius is not negative and the
    limit is not below the size of the corpus. *)
Theorem nearby_excludes_reference (StringToNumber : string -> number)
    (fs : FileSystem) (slug : string) (maxDistanceKm limit : option number) :
  (forall results,
      Lib.getNearbyHikes StringToNumber fs slug maxDistanceKm limit
      = Normal results ->
      Forall (fun r => is_string (prop r "slug") slug = false) results
      /\ (is_string (prop (Lib.getHikeBySlug fs slug) "slug") slug = true ->
          Forall (fun r =>
                    exists h,
                      In h (Lib.getAllHikes fs)
                      /\ h <> Lib.getHikeBySlug fs slug
                      /\ r = nearbyAnnotated StringToNumber
                               (Lib.getHikeBySlug fs slug) h)
                 results))
  /\ (forall (other : json) (lat lon : R),
      In other (Lib.getAllHikes fs) ->
      is_string (prop other "slug") slug = false ->
      startLat (Lib.getHikeBySlug fs slug) = Some (JNum (Num lat)) ->
      startLon (Lib.getHikeBySlug fs slug) = Some (JNum (Num lon)) ->
      startLat other = Some (JNum (Num lat)) ->
      startLon other = Some (JNum (Num lon)) ->
      Num.leb (Num 0) (default (Num 30) maxDistanceKm) = true ->
      atMost (List.length (Lib.getAllHikes fs)) (default (Num 4) limit) ->
      exists results,
        Lib.getNearbyHikes StringToNumber fs slug maxDistanceKm limit
        = Normal results
        /\ In (nearbyAnnotated StringToNumber (Lib.getHikeBySlug fs slug) other)
              results
        /\ Lib.distance_from_start_km StringToNumber
             (nearbyAnnotated StringToNumber (Lib.getHikeBySlug fs slug) other)
           = Num 0).
Proof.
  split.
  - intros results. unfold Lib.getNearbyHikes.
    destruct (negb (truthy _)).
    + intros H; injection H as <-. split; constructor.
    + intros H. apply Lib_nearby_Normal in H. subst results.
      assert (Hcand : forall r,
                 In r (nearest (Lib.distance_from_start_km StringToNumber)
                         (default (Num 30) maxDistanceKm)
                         (default (Num 4) limit)
                         (map (nearbyAnnotated StringToNumber
                                 (Lib.getHikeBySlug fs slug))
                              (List.filter (nearbyCandidate slug)
                                 (Lib.getAllHikes fs)))) ->
                 exists h,
                   In h (Lib.getAllHikes fs)
                   /\ is_string (prop h "slug") slug = false
                   /\ r = nearbyAnnotated StringToNumber
                            (Lib.getHikeBySlug fs slug) h).
      { intros r Hr. apply nearest_within in Hr as [Hr _].
        apply in_map_iff in Hr as (h & <- & Hh).
        apply List.filter_In in Hh as [Hin Hc].
        unfold nearbyCandidate in Hc. apply andb_true_iff in Hc as [Hs _].
        apply negb_true_iff in Hs. eauto. }
      split.
      * apply List.Forall_forall. intros r Hr.
        destruct (Hcand r Hr) as (h & _ & Hs & ->).
        now rewrite nearbyAnnotated_prop by discriminate.
      * intros Hslug. apply List.Forall_forall. intros r Hr.
        destruct (Hcand r Hr) as (h & Hin & Hs & ->).
        exists h. split; [assumption |]. split; [| reflexivity].
        intros ->. congruence.
  - intros other lat lon Hin Hslug Eclat Eclon Eolat Eolon Hmax Hlimit.
    set (center := Lib.getHikeBySlug fs slug) in *.
    pose proof (numeric_anchored center _ _ Eclat Eclon) as Ha.
    assert (Ed : distanceFromCenter StringToNumber center other = Num 0).
    { unfold distanceFromCenter, distanceTo.
      rewrite Eclat, Eclon, Eolat, Eolon. cbn [ToNumber ToNumber_json].
      now rewrite haversineKm_finite, hav_km_same. }
    unfold Lib.getNearbyHikes. fold center.
    rewrite (anchored_truthy _ Ha). cbn [negb].
    rewrite Lib_nearby_returns by
      (try assumption; apply getAllHikes_not_null).
    eexists. split; [reflexivity |]. split.
    + apply nearest_In.
      * apply in_map. apply List.filter_In. split; [assumption |].
        unfold nearbyCandidate, numericStart.
        now rewrite Hslug, Eolat, Eolon.
      * now rewrite nearbyAnnotated_key, Ed.
      * apply atMost_le with (List.length (Lib.getAllHikes fs));
          [assumption |].
        rewrite length_map. apply List.filter_length_le.
    + now rewrite nearbyAnnotated_key.
Qed.

(** Two hikes at one start, each in the file of its slug: the search
    from [origin] returns [twin], and no hike but [twin]. *)
Lemma nearby_excludes_reference_witness :
  is_string (prop (Lib.getHikeBySlug Examples.twinStore "origin") "slug")
    "origin" = true
  /\ exists results,
      Lib.getNearbyHikes Examples.noNumerals Examples.twinStore "origin"
        None None = Normal results
      /\ In (nearbyAnnotated Examples.noNumerals Examples.equatorHike
               Examples.twinHike) results
      /\ Forall (fun r => is_string (prop r "slug") "origin" = false) results
      /\ Forall (fun r =>
                   exists h,
                     h <> Examples.equatorHike
                     /\ r = nearbyAnnotated Examples.noNumerals
                              Examples.equatorHike h)
                results.
Proof.
  destruct (nearby_excludes_reference Examples.noNumerals Examples.twinStore
              "origin" None None) as [Hout Hin].
  split; [reflexivity |].
  destruct (Hin Examples.twinHike 0%R 0%R) as (results & E & Hr & _).
  - right. left. reflexivity.
  - reflexivity.
  - reflexivity.
  - reflexivity.
  - reflexivity.
  - reflexivity.
  - apply Rleb_true. lra.
  - apply atMost_2_4.
  - exists results. split; [exact E |]. split; [exact Hr |].
    destruct (Hout results E) as [Hslug Hother].
    split; [exact Hslug |].
    eapply List.Forall_impl; [| exact (Hother eq_refl)].
    intros r (h & _ & Hh & ->). eauto.
Defined.

(** C7 as stated fails where a file does not hold the hike of its name:
    the reference hike is read from [origin.json], the filter looks at
    the [slug] property, which is [first], and the search returns the
    reference hike as its own neighbour, at distance zero. *)
Lemma nearby_returns_reference :
  Lib.getHikeBySlug Examples.misfiledStore "origin" = Examples.misfiledHike
  /\ Lib.getNearbyHikes Examples.noNumerals Examples.misfiledStore "origin"
       None None
     = Normal [nearbyAnnotated Examples.noNumerals Examples.misfiledHike
                 Examples.misfiledHike]
  /\ Lib.distance_from_start_km Examples.noNumerals
       (nearbyAnnotated Examples.noNumerals Examples.misfiledHike
          Examples.misfiledHike)
     = Num 0.
Proof.
  assert (Ed : distanceFromCenter Examples.noNumerals Examples.misfiledHike
                 Examples.misfiledHike = Num 0).
  { transitivity (Num (hav_km 0 0 0 0)); [apply haversineKm_finite |].
    now rewrite hav_km_same. }
  split; [reflexivity |]. split.
  - unfold Lib.getNearbyHikes.
    change (Lib.getHikeBySlug Examples.misfiledStore "origin")
      with Examples.misfiledHike.
    change (Lib.getAllHikes Examples.misfiledStore)
      with [Examples.misfiledHike].
    cbn [truthy negb default].
    rewrite Lib_nearby_returns;
      [| reflexivity | repeat constructor; discriminate].
    f_equal.
    change (List.filter (nearbyCandidate "origin") [Examples.misfiledHike])
      with [Examples.misfiledHike].
    cbn [map]. apply nearest_one; [| apply atMost_1_4].
    rewrite nearbyAnnotated_key, Ed. cbn. apply Rleb_true. lra.
  - now rewrite nearbyAnnotated_key.
Qed.

(* ====================================================================== *)
(** * The outcomes of a search *)

Lemma nearest_none {A} (key : A -> number) (maxDistanceKm limit : number)
    (l : list A) :
  Forall (fun x => Num.leb (key x) maxDistanceKm = false) l ->
  nearest key maxDistanceKm limit l = [].
Proof.
  intros H. unfold nearest.
  assert (E : List.filter (fun h => Num.leb (key h) maxDistanceKm) l = []).
  { induction H as [| x r Hx _ IH]; cbn; [reflexivity |]. now rewrite Hx. }
  rewrite E. apply (nearest_nil key maxDistanceKm limit).
Qed.

(** C5, as amended.  With a postcode given, the route answers 400 when
    the radius or the limit is no number above zero, else 404 when the
    postcode has no record in use, else 500 when no hike was loaded, else
    200 when the coordinates of the record can be converted to numbers;
    with 200 the results are empty when no hike is within the radius.
    Only in the case that is left, a record that cannot be located and
    hikes to measure, the route throws instead of answering.  The four
    status codes differ from one another.  The search near a hike has no
    such outcomes: it checks neither radius nor limit and answers an
    unknown slug with the empty list. *)
Theorem search_outcomes (StringToNumber : string -> number)
    (fs : FileSystem) (req : Route.request) (raw slug : string)
    (maxDistanceKm limit : option number) :
  Route.q_postcode req = Some raw -> raw <> EmptyString ->
  let radius := StringToNumber (default "50" (Route.q_distance req)) in
  let cap := StringToNumber (default "20" (Route.q_limit req)) in
  let postcode := Route.normalisePostcode raw in
  let record := Route.loadPostcodeRecord fs postcode in
  let hikes := Route.loadAllHikes fs in
  let answered :=
    notPositive radius || notPositive cap || negb (truthy (Some record))
    || (List.length hikes =? 0)%nat || locatable record in
  (if answered then
     exists resp,
       Route.GET StringToNumber fs req = Normal resp
       /\ Route.status resp
          = (if notPositive radius || notPositive cap then 400
             else if negb (truthy (Some record)) then 404
             else match hikes with [] => 500 | _ :: _ => 200 end)
       /\ (Route.status resp = 200 ->
           Forall (fun h =>
                     Num.leb (toFixed2 (distanceFromPostcode StringToNumber
                                          record h)) radius = false) hikes ->
           Route.payload resp
           = Route.ResultsBody (prop record "postcode") postcode radius cap
               0 [])
   else Route.GET StringToNumber fs req = Throw TypeError)
  /\ List.NoDup [400; 404; 500; 200]
  /\ (truthy (Some (Lib.getHikeBySlug fs slug)) = false ->
      Lib.getNearbyHikes StringToNumber fs slug maxDistanceKm limit
      = Normal []).
Proof.
  intros Hq Hraw radius cap postcode record hikes answered.
  split; [| split].
  2:{ repeat (constructor 2; [cbn; lia |]). constructor 1. }
  - unfold answered, Route.GET. rewrite Hq.
    destruct raw as [| c raw']; [contradiction |].
    fold radius cap. unfold notPositive.
    destruct (isNaN radius || Num.leb radius (Num 0)); cbn [orb].
    { eexists. split; [reflexivity |]. split; [reflexivity |]. discriminate. }
    destruct (isNaN cap || Num.leb cap (Num 0)); cbn [orb].
    { eexists. split; [reflexivity |]. split; [reflexivity |]. discriminate. }
    fold postcode record.
    destruct (truthy (Some record)) eqn:Et; cbn [negb orb].
    2:{ eexists. split; [reflexivity |]. split; [reflexivity |]. discriminate. }
    fold hikes.
    pose proof (loadAllHikes_numeric fs) as Hnum. fold hikes in Hnum.
    destruct hikes as [| h0 rest] eqn:Eh.
    { eexists. split; [reflexivity |]. split; [reflexivity |]. discriminate. }
    cbn [List.length Nat.eqb orb].
    apply truthy_not_null in Et.
    destruct (locatable record) eqn:El.
    + rewrite Route_searchResults_numeric by assumption.
      eexists. split; [reflexivity |]. split; [reflexivity |].
      intros _ Hfar.
      rewrite nearest_none; [reflexivity |].
      apply List.Forall_forall. intros r Hr.
      apply in_map_iff in Hr as (h & <- & Hh).
      rewrite routeAnnotated_key.
      rewrite List.Forall_forall in Hfar. now apply Hfar.
    + rewrite Route_searchResults_throws; [reflexivity | assumption.. |].
      now inversion Hnum.
  - intros Ht. unfold Lib.getNearbyHikes. now rewrite Ht.
Qed.

Lemma default_radius_positive :
  notPositive (Examples.defaultNumerals "50") = false.
Proof. unfold notPositive. cbn. apply Rleb_false. lra. Qed.

Lemma default_limit_positive :
  notPositive (Examples.defaultNumerals "20") = false.
Proof. unfold notPositive. cbn. apply Rleb_false. lra. Qed.

(** The four answers of the route: a radius that is no number, a postcode
    without a record, a store without hikes, and a search that succeeds. *)
Lemma search_outcomes_witness :
  (exists resp,
      Route.GET Examples.defaultNumerals Examples.mixedStore
        {| Route.q_postcode := Some "aa11aa"; Route.q_distance := Some "far";
           Route.q_limit := None |} = Normal resp
      /\ Route.status resp = 400)
  /\ (exists resp,
      Route.GET Examples.defaultNumerals Examples.mixedStore
        {| Route.q_postcode := Some "S66 7RR"; Route.q_distance := None;
           Route.q_limit := None |} = Normal resp
      /\ Route.status resp = 404)
  /\ (exists resp,
      Route.GET Examples.defaultNumerals Examples.bareStore
        {| Route.q_postcode := Some "aa11aa"; Route.q_distance := None;
           Route.q_limit := None |} = Normal resp
      /\ Route.status resp = 500)
  /\ (exists resp,
      Route.GET Examples.defaultNumerals Examples.mixedStore
        {| Route.q_postcode := Some "aa11aa"; Route.q_distance := None;
           Route.q_limit := None |} = Normal resp
      /\ Route.status resp = 200).
Proof.
  pose proof default_radius_positive as E50.
  pose proof default_limit_positive as E20.
  repeat split.
  - destruct (search_outcomes Examples.defaultNumerals Examples.mixedStore
                {| Route.q_postcode := Some "aa11aa";
                   Route.q_distance := Some "far"; Route.q_limit := None |}
                "aa11aa" "origin" None None eq_refl) as [H _];
      [discriminate |].
    destruct H as (resp & E & Hs & _). exists resp. now split.
  - destruct (search_outcomes Examples.defaultNumerals Examples.mixedStore
                {| Route.q_postcode := Some "S66 7RR";
                   Route.q_distance := None; Route.q_limit := None |}
                "S66 7RR" "origin" None None eq_refl) as [H _];
      [discriminate |].
    cbn [default Route.q_distance Route.q_limit] in H.
    rewrite E50, E20 in H.
    destruct H as (resp & E & Hs & _). exists resp. now split.
  - destruct (search_outcomes Examples.defaultNumerals Examples.bareStore
                {| Route.q_postcode := Some "aa11aa";
                   Route.q_distance := None; Route.q_limit := None |}
                "aa11aa" "origin" None None eq_refl) as [H _];
      [discriminate |].
    cbn [default Route.q_distance Route.q_limit] in H.
    rewrite E50, E20 in H.
    destruct H as (resp & E & Hs & _). exists resp. now split.
  - destruct (search_outcomes Examples.defaultNumerals Examples.mixedStore
                {| Route.q_postcode := Some "aa11aa";
                   Route.q_distance := None; Route.q_limit := None |}
                "aa11aa" "origin" None None eq_refl) as [H _];
      [discriminate |].
    cbn [default Route.q_distance Route.q_limit] in H.
    rewrite E50, E20 in H.
    destruct H as (resp & E & Hs & _). exists resp. now split.
Defined.

(** The case that is left: a record whose latitude is an object with a
    property [toString], and one hike to measure. *)
Lemma postcode_search_throws :
  truthy (Some (Route.loadPostcodeRecord Examples.opaqueStore "ZZ9 9ZZ")) = true
  /\ Route.loadAllHikes Examples.opaqueStore = [Examples.nearHike]
  /\ Route.GET Examples.defaultNumerals Examples.opaqueStore
       {| Route.q_postcode := Some "ZZ9 9ZZ"; Route.q_distance := None;
          Route.q_limit := None |} = Throw TypeError.
Proof.
  split; [reflexivity |]. split; [reflexivity |].
  pose proof default_radius_positive as E50.
  pose proof default_limit_positive as E20.
  unfold notPositive in E50, E20.
  unfold Route.GET.
  cbn [Route.q_postcode Route.q_distance Route.q_limit default].
  rewrite E50, E20. reflexivity.
Qed.

(** C5 as stated fails in the search near a hike: an unknown slug, a
    corpus with nothing in reach, and a radius and a limit that are not
    above zero all give the empty list. *)
Lemma nearby_outcomes_coincide :
  truthy (Some (Lib.getHikeBySlug Examples.noStore "origin")) = false
  /\ truthy (Some (Lib.getHikeBySlug Examples.loneStore "origin")) = true
  /\ Lib.getAllHikes Examples.loneStore = [Examples.equatorHike]
  /\ Lib.getNearbyHikes Examples.noNumerals Examples.noStore "origin"
       None None = Normal []
  /\ Lib.getNearbyHikes Examples.noNumerals Examples.loneStore "origin"
       None None = Normal []
  /\ Lib.getNearbyHikes Examples.noNumerals Examples.loneStore "origin"
       (Some (Num (-1))) (Some (Num 0)) = Normal [].
Proof.
  assert (Hlone : forall m l,
             Lib.getNearbyHikes Examples.noNumerals Examples.loneStore
               "origin" m l = Normal []).
  { intros m l. unfold Lib.getNearbyHikes.
    change (Lib.getHikeBySlug Examples.loneStore "origin")
      with Examples.equatorHike.
    change (Lib.getAllHikes Examples.loneStore) with [Examples.equatorHike].
    cbn [truthy negb].
    rewrite Lib_nearby_returns;
      [| reflexivity | repeat constructor; discriminate].
    f_equal. apply nearest_nil. }
  repeat split; try reflexivity; apply Hlone.
Qed.


(* ====================================================================== *)
(** * The geocoder *)

(** C3.  The geocoder returns the record exactly when the file of the
    postcode exists, parses, and does not say [in_use: false]; a missing
    file, a text that does not parse and a record not in use all give
    [null], and nothing is thrown. *)
Theorem geocoder_not_found (fs : FileSystem) (postcode : string) :
  let fullPath :=
    path_join
      (path_join (path_join (path_join (cwd fs) "data") "postcodes") "by-code")
      (Route.postcodeToFilename postcode) in
  Route.loadPostcodeRecord fs postcode
  = match readFile fs fullPath with
    | None => JNull
    | Some Garbage => JNull
    | Some (Doc record) =>
        if is_false (prop record "in_use") then JNull else record
    end.
Proof.
  intros fullPath. unfold Route.loadPostcodeRecord, fs_readFile.
  fold fullPath. destruct (readFile fs fullPath) as [[| record] |]; cbn;
    try reflexivity.
  destruct record; cbn; try reflexivity.
  now destruct (is_false (lookup "in_use" fields)).
Qed.

(* ====================================================================== *)
(** * The enrichment batch *)

Section EnrichFacts.

Variable callOpenAIForHike : nat -> object -> completion Enrich.enrichment.
Variable ToString : value -> string.
Variable MAX_PER_RUN : nat.

Lemma processHike_saved (dir : string) (st : Enrich.state) (hike : object)
    (entry : string * object) :
  In entry (Enrich.saved (Enrich.processHike callOpenAIForHike ToString dir st hike)) ->
  In entry (Enrich.saved st) \/ savedFrom ToString dir [hike] entry.
Proof.
  unfold Enrich.processHike.
  destruct (Enrich.enrichWithRetry _ _ _) as [[r | e] calls']; cbn.
  - intros [<- | H]; [right | now left].
    exists hike, (Enrich.ai r). split; [now left | reflexivity].
  - now left.
Qed.

Lemma fold_processHike_saved (dir : string) (l : list object)
    (st : Enrich.state) (entry : string * object) :
  In entry (Enrich.saved (fold_left (Enrich.processHike callOpenAIForHike ToString dir) l st)) ->
  In entry (Enrich.saved st) \/ savedFrom ToString dir l entry.
Proof.
  revert st. induction l as [| hike r IH]; intros st H; cbn in H.
  - now left.
  - apply IH in H as [H | (h & ai & Hin & E)].
    + apply processHike_saved in H as [H | (h & ai & [<- | []] & E)].
      * now left.
      * right. exists hike, ai. split; [now left | assumption].
    + right. exists h, ai. split; [now right | assumption].
Qed.

End EnrichFacts.

(** C10.  Every record the enrichment batch saves is a hike it had read,
    not yet enriched, with the [ai] property set to the answer of the API:
    every other property of the written record is the property of the
    hike read, and it is written under the slug of that hike. *)
Theorem enrichment_frame
    (callOpenAIForHike : nat -> object -> completion Enrich.enrichment)
    (ToString : value -> string) (MAX_PER_RUN : nat) (dir : string)
    (hikes : list object) (path : string) (written : object) :
  In (path, written)
     (Enrich.saved
        (Enrich.main callOpenAIForHike ToString MAX_PER_RUN dir hikes)) ->
  exists hike ai,
    In hike hikes
    /\ Enrich.shouldSkip hike = false
    /\ written = Enrich.withAi hike ai
    /\ lookup "ai" written = Some ai
    /\ (forall k, k <> "ai" -> lookup k written = lookup k hike)
    /\ path = path_join dir (ToString (lookup "slug" hike) ++ ".json").
Proof.
  unfold Enrich.main.
  destruct (List.filter _ hikes) as [| p0 rest] eqn:Ep; [intros [] |].
  intros H. apply fold_processHike_saved in H as [[] | (h & ai & Hin & E)].
  apply In_firstn_In in Hin. rewrite <- Ep in Hin.
  apply List.filter_In in Hin as [Hin Hskip].
  apply negb_true_iff in Hskip.
  unfold Enrich.saveHike in E. injection E as -> ->.
  exists h, ai. repeat split; try assumption.
  - apply lookup_assign_eq.
  - intros k Hk. apply lookup_assign_neq. congruence.
  - unfold Enrich.withAi. rewrite lookup_assign_neq by discriminate. reflexivity.
Qed.

(** One hike enriched: the file written is the hike with [ai] at its end. *)
Lemma enrichment_frame_witness :
  In ("data/hikes/kinder-scout.json",
      Examples.sampleHike ++ [("ai", JObj [("summary", JStr "A short walk.")])])
     (Enrich.saved
        (Enrich.main Examples.sampleApi Examples.sampleToString 20
           "data/hikes" [Examples.sampleHike]))
  /\ exists hike ai,
      In hike [Examples.sampleHike]
      /\ Enrich.shouldSkip hike = false
      /\ Examples.sampleHike ++ [("ai", JObj [("summary", JStr "A short walk.")])]
         = Enrich.withAi hike ai
      /\ lookup "ai"
           (Examples.sampleHike ++ [("ai", JObj [("summary", JStr "A short walk.")])])
         = Some ai
      /\ (forall k, k <> "ai" ->
            lookup k
              (Examples.sampleHike ++ [("ai", JObj [("summary", JStr "A short walk.")])])
            = lookup k hike)
      /\ "data/hikes/kinder-scout.json"
         = path_join "data/hikes" (Examples.sampleToString (lookup "slug" hike) ++ ".json").
Proof.
  assert (H : In ("data/hikes/kinder-scout.json",
                  Examples.sampleHike ++ [("ai", JObj [("summary", JStr "A short walk.")])])
                (Enrich.saved
                   (Enrich.main Examples.sampleApi Examples.sampleToString 20 "data/hikes"
                      [Examples.sampleHike]))) by (left; reflexivity).
  split; [exact H |].
  exact (enrichment_frame Examples.sampleApi Examples.sampleToString 20 "data/hikes"
           [Examples.sampleHike] _ _ H).
Defined.


(* ====================================================================== *)
(** * The preprocessing run *)

Section PreprocessFacts.

Variable StringToNumber : string -> number.
Variable writable : string -> bool.


Lemma processRow_balanced (st st' : Preprocess.state)
    (headerMap : gmap string nat) (line : string) :
  balanced st ->
  Preprocess.processRow StringToNumber writable st headerMap line = Some st' ->
  balanced st'.
Proof.
  unfold balanced, Preprocess.processRow. intros Hb.
  destruct (Preprocess.getField _ headerMap "Postcode") as [[| c rawPc] |];
    try (intros H; injection H as <-; cbn; lia).
  destruct (isEmpty _); [intros H; injection H as <-; cbn; lia |].
  destruct (Preprocess.parseNumber _ _) as [lat |];
    [| intros H; injection H as <-; cbn; lia].
  destruct (Preprocess.parseNumber _ _) as [lon |];
    [| intros H; injection H as <-; cbn; lia].
  destruct (Preprocess.deriveAreaDistrictSector _) as [[area district] sector].
  destruct (negb (writable _)); [discriminate |].
  intros H; injection H as <-; cbn; lia.
Qed.

Lemma step_balanced (st st' : Preprocess.state) (line : string) :
  balanced st ->
  Preprocess.step StringToNumber writable st line = Some st' -> balanced st'.
Proof.
  unfold Preprocess.step. intros Hb.
  destruct (isEmpty (trim line)); [intros H; injection H as <-; exact Hb |].
  cbn [Preprocess.lineNumber Preprocess.headerMap].
  destruct (S (Preprocess.lineNumber st) =? 1)%nat;
    [intros H; injection H as <-; exact Hb |].
  destruct (Preprocess.headerMap st) as [headerMap |]; [| discriminate].
  apply processRow_balanced. exact Hb.
Qed.

Lemma readLines_balanced (lines : list string) (st st' : Preprocess.state) :
  balanced st ->
  Preprocess.readLines StringToNumber writable st lines = Some st' ->
  balanced st'.
Proof.
  revert st. induction lines as [| line rest IH]; intros st Hb; cbn.
  - intros H; injection H as <-; exact Hb.
  - destruct (Preprocess.step _ _ st line) as [st1 |] eqn:E; [| discriminate].
    apply IH. now apply (step_balanced st st1 line).
Qed.

End PreprocessFacts.

(** C9.  When the preprocessing run completes, the rows it counted are
    the records written plus the rows skipped for want of a postcode plus
    the rows skipped for want of coordinates. *)
Theorem row_count_invariant (StringToNumber : string -> number)
    (writable : string -> bool) (csv : option (list string))
    (out : Preprocess.output) :
  Preprocess.preprocess StringToNumber writable csv = Some out ->
  Preprocess.sum_totalRows (Preprocess.out_summary out)
  = (Preprocess.sum_written (Preprocess.out_summary out)
     + Preprocess.sum_skippedNoPostcode (Preprocess.out_summary out)
     + Preprocess.sum_skippedNoCoords (Preprocess.out_summary out))%nat.
Proof.
  unfold Preprocess.preprocess.
  destruct csv as [lines |]; [| discriminate].
  destruct (Preprocess.readLines _ _ _ lines) as [st |] eqn:E; [| discriminate].
  destruct (Preprocess.districtFiles _ _) as [files |]; [| discriminate].
  intros H; injection H as <-. cbn.
  apply (readLines_balanced StringToNumber writable lines Preprocess.initial st);
    [reflexivity | exact E].
Qed.

(** A run over the sample table: three rows counted, one of each kind. *)
Lemma sample_run :
  exists out,
    Preprocess.preprocess Examples.defaultNumerals (fun _ => true)
      (Some Examples.sampleCsv) = Some out
    /\ Preprocess.out_summary out
       = {| Preprocess.sum_totalRows := 3; Preprocess.sum_written := 1;
            Preprocess.sum_skippedNoPostcode := 1;
            Preprocess.sum_skippedNoCoords := 1 |}.
Proof.
  eexists. split; [vm_compute; reflexivity |]. reflexivity.
Qed.

(** The invariant on the run over the sample table. *)
Lemma row_count_invariant_witness :
  exists out,
    Preprocess.preprocess Examples.defaultNumerals (fun _ => true)
      (Some Examples.sampleCsv) = Some out
    /\ Preprocess.sum_totalRows (Preprocess.out_summary out)
       = (Preprocess.sum_written (Preprocess.out_summary out)
          + Preprocess.sum_skippedNoPostcode (Preprocess.out_summary out)
          + Preprocess.sum_skippedNoCoords (Preprocess.out_summary out))%nat.
Proof.
  destruct sample_run as (out & E & _). exists out.
  split; [exact E |].
  exact (row_count_invariant Examples.defaultNumerals (fun _ => true)
           (Some Examples.sampleCsv) out E).
Defined.


(* ====================================================================== *)
(** * The postcode normalisers *)

Section StringFacts.

Lemma chars_str (l : list ascii) : chars (str l) = l.
Proof. apply list_ascii_of_string_of_list_ascii. Qed.

Lemma str_chars (s : string) : str (chars s) = s.
Proof. apply string_of_list_ascii_of_string. Qed.

Lemma length_chars (s : string) : String.length s = List.length (chars s).
Proof. induction s as [| c s IH]; cbn; congruence. Qed.

Lemma length_str (l : list ascii) : String.length (str l) = List.length l.
Proof. now rewrite length_chars, chars_str. Qed.

Lemma str_app (l1 l2 : list ascii) : str (l1 ++ l2) = (str l1 ++ str l2)%string.
Proof.
  induction l1 as [| c r IH]; [reflexivity |].
  cbn [app str string_of_list_ascii String.append]. fold (str (r ++ l2)) (str r).
  now rewrite IH.
Qed.

Lemma isWhiteSpace_upper (c : ascii) :
  isWhiteSpace (toUpperChar c) = isWhiteSpace c.
Proof. destruct c as [[] [] [] [] [] [] [] []]; reflexivity. Qed.

Lemma space_isWhiteSpace (c : ascii) :
  Ascii.eqb " " c = true -> isWhiteSpace c = true.
Proof. intros H. apply Ascii.eqb_eq in H. now subst c. Qed.

Lemma stripL_upper (l : list ascii) :
  stripL (map toUpperChar l) = map toUpperChar (stripL l).
Proof.
  unfold stripL. induction l as [| c r IH]; cbn; [reflexivity |].
  rewrite isWhiteSpace_upper. destruct (isWhiteSpace c); cbn; now rewrite IH.
Qed.

Lemma stripL_dropWhile (l : list ascii) :
  stripL (dropWhile isWhiteSpace l) = stripL l.
Proof.
  unfold stripL. induction l as [| c r IH]; cbn; [reflexivity |].
  destruct (isWhiteSpace c) eqn:E; cbn; [assumption |]. now rewrite E.
Qed.

Lemma stripL_rev (l : list ascii) : stripL (rev l) = rev (stripL l).
Proof. unfold stripL. apply List.filter_rev. Qed.

Lemma stripL_trimL (l : list ascii) : stripL (trimL l) = stripL l.
Proof.
  unfold trimL, trimEndL, trimStartL.
  rewrite stripL_rev, stripL_dropWhile, stripL_rev, rev_involutive.
  apply stripL_dropWhile.
Qed.

Lemma existsb_upper (l : list ascii) :
  existsb isWhiteSpace (map toUpperChar l) = existsb isWhiteSpace l.
Proof.
  induction l as [| c r IH]; cbn; [reflexivity |].
  now rewrite isWhiteSpace_upper, IH.
Qed.

(** Without white space, nothing is stripped or collapsed, and there is
    no space. *)
Lemma stripL_none (l : list ascii) :
  existsb isWhiteSpace l = false -> stripL l = l.
Proof.
  unfold stripL. induction l as [| c r IH]; cbn; [reflexivity |].
  intros H. apply orb_false_iff in H as [Hc Hr]. rewrite Hc. cbn.
  now rewrite IH.
Qed.

Lemma collapseL_none (l : list ascii) :
  existsb isWhiteSpace l = false -> collapseL false l = l.
Proof.
  induction l as [| c r IH]; cbn; [reflexivity |].
  intros H. apply orb_false_iff in H as [Hc Hr]. rewrite Hc.
  now rewrite IH.
Qed.

Lemma no_space (l : list ascii) :
  existsb isWhiteSpace l = false -> existsb (Ascii.eqb " ") l = false.
Proof.
  induction l as [| c r IH]; cbn [existsb]; [reflexivity |].
  intros H. apply orb_false_iff in H as [Hc Hr]. rewrite (IH Hr).
  destruct (Ascii.eqb " " c) eqn:E; [| reflexivity].
  apply space_isWhiteSpace in E. congruence.
Qed.

Lemma collapseL_space (l : list ascii) :
  existsb isWhiteSpace l = true ->
  existsb (Ascii.eqb " ") (collapseL false l) = true.
Proof.
  induction l as [| c r IH]; cbn [existsb collapseL]; [discriminate |].
  destruct (isWhiteSpace c) eqn:E; cbn [existsb orb]; [reflexivity |].
  intros H. rewrite (IH H). apply orb_true_r.
Qed.

Lemma stripL_clean (l : list ascii) : existsb isWhiteSpace (stripL l) = false.
Proof.
  unfold stripL. induction l as [| c r IH]; cbn; [reflexivity |].
  destruct (isWhiteSpace c) eqn:E; cbn; [assumption |]. now rewrite E.
Qed.

Lemma stripL_blank (l : list ascii) :
  forallb isWhiteSpace l = true -> stripL l = [].
Proof.
  unfold stripL. induction l as [| c r IH]; cbn; [reflexivity |].
  intros H. apply andb_true_iff in H as [Hc Hr]. rewrite Hc. cbn. auto.
Qed.

(** The stripped, uppercased input, as both normalisers see it. *)
Lemma stripped_chars (raw : string) :
  chars (toUpperCase (replaceAllWs_empty raw))
  = map toUpperChar (stripL (chars raw)).
Proof. unfold toUpperCase, replaceAllWs_empty. now rewrite !chars_str. Qed.

Lemma preprocess_stripped (raw : string) :
  replaceAllWs_empty (toUpperCase (trim raw))
  = toUpperCase (replaceAllWs_empty raw).
Proof.
  unfold toUpperCase, replaceAllWs_empty, trim. rewrite !chars_str.
  now rewrite stripL_upper, stripL_trimL.
Qed.

End StringFacts.

(** C2, as amended.  The normaliser of the preprocessing script is the
    one specified, for every input: white space stripped, uppercased, one
    space set before the last three characters of a string longer than
    three, and the empty string for a blank input.  The normaliser of the
    route does the same for an input without white space inside; an input
    with white space inside it only trims, uppercases and collapses every
    run of white space to one space, keeping the spacing given. *)
Theorem postcode_normaliser (raw : string) :
  let stripped := toUpperCase (replaceAllWs_empty raw) in
  Preprocess.normalisePostcode raw = normalise raw
  /\ Route.normalisePostcode raw
     = (if hasInnerWhiteSpace raw
        then replaceAllWs_space (toUpperCase (trim raw))
        else normalise raw)
  /\ includes stripped " " = false
  /\ normalise raw
     = (if (String.length stripped <=? 3)%nat then stripped
        else (slice_to_minus 3 stripped ++ " " ++ slice_from_minus 3 stripped)%string)
  /\ (slice_to_minus 3 stripped ++ slice_from_minus 3 stripped)%string = stripped
  /\ String.length (slice_from_minus 3 stripped)
     = Nat.min 3 (String.length stripped)
  /\ (if forallb isWhiteSpace (chars raw) then normalise raw = EmptyString else True).
Proof.
  intros stripped. repeat split.
  - unfold Preprocess.normalisePostcode, normalise.
    rewrite preprocess_stripped. fold stripped.
    destruct stripped as [| c s] eqn:E; [reflexivity |]. reflexivity.
  - unfold Route.normalisePostcode, hasInnerWhiteSpace, includes,
      replaceAllWs_space.
    set (l := map toUpperChar (trimL (chars raw))).
    assert (El : chars (toUpperCase (trim raw)) = l).
    { unfold toUpperCase, trim. now rewrite !chars_str. }
    rewrite El, chars_str.
    assert (Ews : existsb isWhiteSpace l = existsb isWhiteSpace (trimL (chars raw)))
      by apply existsb_upper.
    destruct (existsb isWhiteSpace (trimL (chars raw))) eqn:E.
    + now rewrite collapseL_space.
    + rewrite (collapseL_none l Ews), (no_space l Ews).
      assert (Es : toUpperCase (replaceAllWs_empty raw) = str l).
      { unfold toUpperCase, replaceAllWs_empty. rewrite chars_str.
        unfold l. f_equal. f_equal.
        now rewrite <- stripL_trimL, stripL_none. }
      unfold normalise. rewrite Es.
      rewrite Nat.ltb_antisym. now destruct (String.length (str l) <=? 3)%nat.
  - unfold includes, stripped. rewrite stripped_chars.
    apply no_space. rewrite existsb_upper. apply stripL_clean.
  - unfold slice_to_minus, slice_from_minus.
    now rewrite <- str_app, firstn_skipn, str_chars.
  - unfold slice_from_minus. rewrite length_str, length_skipn, <- length_chars.
    lia.
  - destruct (forallb isWhiteSpace (chars raw)) eqn:E; [| exact I].
    unfold normalise, toUpperCase, replaceAllWs_empty.
    rewrite chars_str, (stripL_blank _ E). reflexivity.
Qed.

(** C2 as stated fails for the normaliser of the route: it keeps a space
    the input has, wherever it stands. *)
Lemma route_normaliser_keeps_spacing :
  Route.normalisePostcode "S6 67RR" = "S6 67RR"
  /\ normalise "S6 67RR" = "S66 7RR"
  /\ Preprocess.normalisePostcode "S6 67RR" = "S66 7RR"
  /\ Route.normalisePostcode "A B" = "A B"
  /\ normalise "A B" = "AB".
Proof. repeat split; reflexivity. Qed.


(* ====================================================================== *)
(** * The nearest come first *)

Lemma leb_transitive (a b c : number) :
  Num.leb a b = true -> Num.leb b c = true -> Num.leb a c = true.
Proof.
  destruct a, b, c; cbn; try easy.
  intros H1 H2; rbool. apply Rleb_true. now apply Rle_trans with r0.
Qed.

Section RankingFacts.

Context {A : Type}.
Variable key : A -> number.

Lemma ascending_strongly (l : list A) :
  ascending key l ->
  StronglySorted (fun a b => Num.leb (key a) (key b) = true) l.
Proof.
  unfold ascending. apply Sorted_StronglySorted.
  intros a b c. apply leb_transitive.
Qed.

Lemma strongly_split (R : A -> A -> Prop) (n : nat) (l : list A) :
  StronglySorted R l ->
  forall r x, In r (firstn n l) -> In x (skipn n l) -> R r x.
Proof.
  intros Hs. revert n.
  induction Hs as [| a l Hs IH Ha]; intros n r x Hr Hx.
  - rewrite firstn_nil in Hr. contradiction.
  - destruct n as [| n]; [contradiction |].
    cbn in Hr, Hx. destruct Hr as [<- | Hr].
    + rewrite List.Forall_forall in Ha. apply Ha.
      rewrite <- (firstn_skipn n l). apply in_or_app. now right.
    + now apply (IH n).
Qed.

(** The chain keeps the nearest of the candidates within the radius. *)
Lemma nearest_keeps_nearest (maxDistanceKm limit : number) (corpus : list A) :
  exists left,
    Permutation (nearest key maxDistanceKm limit corpus ++ left)
                (Laws.withinRadius key maxDistanceKm corpus)
    /\ Laws.noFarther key (nearest key maxDistanceKm limit corpus) left.
Proof.
  unfold nearest, Array_slice0, Laws.withinRadius.
  set (within := List.filter _ corpus).
  set (n := slice_end _ _).
  exists (skipn n (Array_sort (byKey key) within)). split.
  - rewrite firstn_skipn. apply Array_sort_perm.
  - intros r x Hr Hx.
    apply (strongly_split (fun a b => Num.leb (key a) (key b) = true) n
             (Array_sort (byKey key) within)); try assumption.
    apply ascending_strongly, Array_sort_ascending.
    apply List.Forall_forall. intros y Hy.
    apply List.filter_In in Hy as [_ Hy]. now apply leb_nonNaN in Hy.
Qed.

(** With a limit that covers the corpus nothing within the radius is
    left out. *)
Lemma nearest_all (maxDistanceKm limit : number) (corpus : list A) :
  atMost (List.length corpus) limit ->
  Permutation (nearest key maxDistanceKm limit corpus)
              (Laws.withinRadius key maxDistanceKm corpus).
Proof.
  intros Hl. unfold nearest, Laws.withinRadius.
  rewrite slice_all; [apply Array_sort_perm |].
  apply atMost_le with (List.length corpus); [assumption |].
  rewrite (Permutation_length (Array_sort_perm key _)).
  apply List.filter_length_le.
Qed.

End RankingFacts.

(** X1.  Both searches return the nearest: the results and the candidates
    within the radius that were cut off by [limit] make up the candidates
    within the radius, and no result is farther (by the annotated
    distance) than a candidate cut off. *)
Theorem searches_keep_nearest (StringToNumber : string -> number)
    (postcodeRecord center : json) (hikes all : list json) (slug : string)
    (maxDistanceKm limit : number) (found near : list json) :
  Route.searchResults StringToNumber postcodeRecord hikes maxDistanceKm limit
  = Normal found ->
  Lib.nearby StringToNumber center all slug maxDistanceKm limit
  = Normal near ->
  (exists left,
      Permutation (found ++ left)
        (Laws.withinRadius (Route.distanceFromPostcodeKm StringToNumber)
           maxDistanceKm
           (map (routeAnnotated StringToNumber postcodeRecord) hikes))
      /\ Laws.noFarther (Route.distanceFromPostcodeKm StringToNumber)
           found left)
  /\ (exists left,
      Permutation (near ++ left)
        (Laws.withinRadius (Lib.distance_from_start_km StringToNumber)
           maxDistanceKm
           (map (nearbyAnnotated StringToNumber center)
                (List.filter (nearbyCandidate slug) all)))
      /\ Laws.noFarther (Lib.distance_from_start_km StringToNumber)
           near left).
Proof.
  intros Hfound Hnear.
  apply Route_searchResults_Normal in Hfound.
  apply Lib_nearby_Normal in Hnear. subst found near.
  split; apply nearest_keeps_nearest.
Qed.

(** The nearest of one: a hike eleven metres from the reference. *)
Lemma searches_keep_nearest_witness :
  exists found near left,
    Route.searchResults Examples.noNumerals Examples.equatorPostcode
      [Examples.nearHike] (Num 30) (Num 4) = Normal found
    /\ Lib.nearby Examples.noNumerals Examples.equatorHike
         [Examples.equatorHike; Examples.nearHike] "origin" (Num 30) (Num 4)
       = Normal near
    /\ Laws.noFarther (Route.distanceFromPostcodeKm Examples.noNumerals)
         found left.
Proof.
  assert (Hmax : Num.leb (Num (1 / 100)) (Num 30) = true)
    by (apply Rleb_true; lra).
  assert (Hs := postcode_search_near (Num 30) (Num 4) Hmax atMost_1_4).
  destruct (searches_keep_nearest Examples.noNumerals
              Examples.equatorPostcode Examples.equatorHike
              [Examples.nearHike] [Examples.equatorHike; Examples.nearHike]
              "origin" (Num 30) (Num 4) _ _ Hs nearby_search_near)
    as [(left & _ & Hleft) _].
  do 3 eexists. split; [exact Hs |]. split; [exact nearby_search_near |].
  exact Hleft.
Defined.

(** X2.  With a limit that covers the corpus, the postcode search returns
    every loaded hike within the radius and the search near a hike every
    candidate within the radius: the results are those candidates,
    rearranged. *)
Theorem searches_lose_nothing (StringToNumber : string -> number)
    (postcodeRecord center : json) (hikes all : list json) (slug : string)
    (maxDistanceKm limit : number) (found near : list json) :
  atMost (List.length hikes) limit -> atMost (List.length all) limit ->
  Route.searchResults StringToNumber postcodeRecord hikes maxDistanceKm limit
  = Normal found ->
  Lib.nearby StringToNumber center all slug maxDistanceKm limit
  = Normal near ->
  Permutation found
    (Laws.withinRadius (Route.distanceFromPostcodeKm StringToNumber)
       maxDistanceKm
       (map (routeAnnotated StringToNumber postcodeRecord) hikes))
  /\ Permutation near
       (Laws.withinRadius (Lib.distance_from_start_km StringToNumber)
          maxDistanceKm
          (map (nearbyAnnotated StringToNumber center)
               (List.filter (nearbyCandidate slug) all))).
Proof.
  intros Hh Ha Hfound Hnear.
  apply Route_searchResults_Normal in Hfound.
  apply Lib_nearby_Normal in Hnear. subst found near.
  split; apply nearest_all.
  - now rewrite length_map.
  - rewrite length_map.
    apply atMost_le with (List.length all); [assumption |].
    apply List.filter_length_le.
Qed.

(** Nothing lost of one and of two hikes, with a limit of 4. *)
Lemma searches_lose_nothing_witness :
  exists found near,
    Route.searchResults Examples.noNumerals Examples.equatorPostcode
      [Examples.nearHike] (Num 30) (Num 4) = Normal found
    /\ Lib.nearby Examples.noNumerals Examples.equatorHike
         [Examples.equatorHike; Examples.nearHike] "origin" (Num 30) (Num 4)
       = Normal near
    /\ Permutation near
         (Laws.withinRadius (Lib.distance_from_start_km Examples.noNumerals)
            (Num 30)
            (map (nearbyAnnotated Examples.noNumerals Examples.equatorHike)
                 (List.filter (nearbyCandidate "origin")
                    [Examples.equatorHike; Examples.nearHike]))).
Proof.
  assert (Hmax : Num.leb (Num (1 / 100)) (Num 30) = true)
    by (apply Rleb_true; lra).
  assert (Hs := postcode_search_near (Num 30) (Num 4) Hmax atMost_1_4).
  do 2 eexists. split; [exact Hs |]. split; [exact nearby_search_near |].
  exact (proj2 (searches_lose_nothing Examples.noNumerals
                  Examples.equatorPostcode Examples.equatorHike
                  [Examples.nearHike]
                  [Examples.equatorHike; Examples.nearHike] "origin"
                  (Num 30) (Num 4) _ _ atMost_1_4 atMost_2_4 Hs
                  nearby_search_near)).
Defined.


(* ====================================================================== *)
(** * More on the great-circle distance *)

Section HaversineMore.

Local Open Scope R_scope.

Lemma Ratan2_le_half_pi (y x : R) : 0 <= y -> 0 <= x -> Ratan2 y x <= PI / 2.
Proof.
  intros Hy Hx. pose proof PI2_RGT_0 as Hpi. unfold Ratan2.
  destruct (Rltb 0 x) eqn:E1; rbool.
  - destruct (atan_bound (y / x)) as [_ Hu]. lra.
  - destruct (Rltb x 0) eqn:E2; rbool; [lra |].
    destruct (Rltb 0 y) eqn:E3; rbool; [lra |].
    destruct (Rltb y 0) eqn:E4; rbool; lra.
Qed.

Lemma hav_km_le (lat1 lon1 lat2 lon2 : R) :
  hav_km lat1 lon1 lat2 lon2 <= 6371 * PI.
Proof.
  unfold hav_km. cbv zeta.
  pose proof (Ratan2_le_half_pi (sqrt (hav_a lat1 lon1 lat2 lon2))
                (sqrt (1 - hav_a lat1 lon1 lat2 lon2))
                (sqrt_pos _) (sqrt_pos _)).
  lra.
Qed.

(** The angle whose haversine is the square of [sin h]. *)
Lemma Ratan2_half_angle (h : R) :
  0 <= h < PI / 2 ->
  Ratan2 (sqrt (sin h * sin h)) (sqrt (1 - sin h * sin h)) = h.
Proof.
  intros [H0 H1].
  assert (Hs : 0 <= sin h) by (apply sin_ge_0; lra).
  assert (Hc : 0 < cos h) by (apply cos_gt_0; lra).
  rewrite sqrt_square by assumption.
  replace (1 - sin h * sin h) with (cos h * cos h)
    by (pose proof (sin2_cos2 h) as E; unfold Rsqr in E; lra).
  rewrite sqrt_square by lra.
  unfold Ratan2.
  assert (E : Rltb 0 (cos h) = true) by now apply Rltb_true.
  rewrite E. fold (tan h). apply atan_tan. lra.
Qed.

Lemma half_angle_range (x : R) :
  0 <= x < 180 -> 0 <= x * PI / 180 / 2 < PI / 2.
Proof.
  intros [H0 H1]. pose proof PI_RGT_0 as Hpi. split.
  - apply Rmult_le_pos; [| lra].
    apply Rmult_le_pos; [| lra]. apply Rmult_le_pos; lra.
  - assert (x * PI < 180 * PI) by (apply Rmult_lt_compat_r; lra). lra.
Qed.

(** Along a parallel only the equator is a great circle; along it the
    distance is the arc of the difference of longitude. *)
Lemma hav_km_along_equator (lon x : R) :
  0 <= x < 180 -> hav_km 0 lon 0 (lon + x) = 6371 * (x * PI / 180).
Proof.
  intros Hx. unfold hav_km, hav_a. cbv zeta.
  replace ((0 - 0) * PI / 180 / 2) with 0 by field.
  replace (0 * PI / 180) with 0 by field.
  replace ((lon + x - lon) * PI / 180 / 2) with (x * PI / 180 / 2) by field.
  rewrite sin_0, cos_0.
  replace (0 * 0 + 1 * 1 * sin (x * PI / 180 / 2) * sin (x * PI / 180 / 2))
    with (sin (x * PI / 180 / 2) * sin (x * PI / 180 / 2)) by ring.
  rewrite Ratan2_half_angle by now apply half_angle_range.
  field.
Qed.

(** Along a meridian the distance is the arc of the difference of
    latitude. *)
Lemma hav_km_along_meridian (lat lon x : R) :
  0 <= x < 180 -> hav_km lat lon (lat + x) lon = 6371 * (x * PI / 180).
Proof.
  intros Hx. unfold hav_km, hav_a. cbv zeta.
  replace ((lon - lon) * PI / 180 / 2) with 0 by field.
  replace ((lat + x - lat) * PI / 180 / 2) with (x * PI / 180 / 2) by field.
  rewrite sin_0.
  replace (sin (x * PI / 180 / 2) * sin (x * PI / 180 / 2)
           + cos (lat * PI / 180) * cos ((lat + x) * PI / 180) * 0 * 0)
    with (sin (x * PI / 180 / 2) * sin (x * PI / 180 / 2)) by ring.
  rewrite Ratan2_half_angle by now apply half_angle_range.
  field.
Qed.

End HaversineMore.


Lemma haversineKm_Num_bounds (lat1 lon1 lat2 lon2 : number) (x : R) :
  Lib.haversineKm lat1 lon1 lat2 lon2 = Num x -> (0 <= x <= 6371 * PI)%R.
Proof.
  intros H. destruct (haversineKm_Num _ _ _ _ _ H) as (a & b & c & d & E).
  destruct E as (-> & -> & -> & ->).
  rewrite haversineKm_finite in H. injection H as <-.
  split; [apply hav_km_nonneg | apply hav_km_le].
Qed.

(** X3.  The distance is a number only from four finite coordinates, and
    then it lies between zero and half the circumference of the sphere,
    6371 pi km. *)
Theorem haversine_number_bounds (lat1 lon1 lat2 lon2 : number) (x : R) :
  Lib.haversineKm lat1 lon1 lat2 lon2 = Num x ->
  (exists a b c d,
      lat1 = Num a /\ lon1 = Num b /\ lat2 = Num c /\ lon2 = Num d)
  /\ (0 <= x <= 6371 * PI)%R.
Proof.
  intros H. split; [now apply haversineKm_Num in H |].
  now apply haversineKm_Num_bounds in H.
Qed.

(** One degree of latitude along the Greenwich meridian. *)
Lemma haversine_number_bounds_witness :
  exists x,
    Lib.haversineKm (Num 0) (Num 0) (Num 1) (Num 0) = Num x
    /\ (0 <= x <= 6371 * PI)%R.
Proof.
  eexists. split; [apply haversineKm_finite |].
  exact (proj2 (haversine_number_bounds _ _ _ _ _
                  (haversineKm_finite 0 0 1 0))).
Defined.

(** X4.  Along the equator and along any meridian the distance is the
    length of the arc: 6371 km times the difference in radians, for a
    difference from 0 to less than 180 degrees. *)
Theorem haversine_arcs (lat lon x : R) :
  (0 <= x < 180)%R ->
  Lib.haversineKm (Num 0) (Num lon) (Num 0) (Num (lon + x))
  = Num (6371 * (x * PI / 180))
  /\ Lib.haversineKm (Num lat) (Num lon) (Num (lat + x)) (Num lon)
     = Num (6371 * (x * PI / 180)).
Proof.
  intros Hx. rewrite !haversineKm_finite.
  now rewrite hav_km_along_equator, hav_km_along_meridian.
Qed.

(** One degree from Sheffield northwards: 6371 pi / 180 km. *)
Lemma haversine_arcs_witness :
  Lib.haversineKm (Num (5338 / 100)) (Num (-147 / 100))
    (Num (5338 / 100 + 1)) (Num (-147 / 100))
  = Num (6371 * (1 * PI / 180)).
Proof.
  apply (haversine_arcs (5338 / 100) (-147 / 100) 1). lra.
Defined.

(* ====================================================================== *)
(** * The distances of the results *)

Lemma StronglySorted_map_rel {A} (P : A -> Prop) (R R' : A -> A -> Prop)
    (l : list A) :
  (forall a b, P a -> P b -> R a b -> R' a b) ->
  Forall P l -> StronglySorted R l -> StronglySorted R' l.
Proof.
  intros HR HP Hs. induction Hs as [| a l Hs IH Ha]; constructor.
  - apply IH. now inversion HP.
  - inversion HP as [| ? ? Pa Pl]; subst.
    rewrite List.Forall_forall in *. intros b Hb. apply HR; auto.
Qed.

Lemma distance_onSphere (StringToNumber : string -> number)
    (latv lonv : value) (h : json) :
  isNaN (distanceTo StringToNumber latv lonv h) = false ->
  Laws.onSphere (distanceTo StringToNumber latv lonv h).
Proof.
  unfold distanceTo. intros Hn.
  match goal with
  | |- Laws.onSphere (Lib.haversineKm ?a ?b ?c ?d) =>
      destruct (haversineKm_cases a b c d) as [E | [x E]]
  end.
  - rewrite E in Hn. discriminate.
  - exists x. split; [exact E |].
    exact (haversineKm_Num_bounds _ _ _ _ _ E).
Qed.

(** X5.  No result of either search carries a distance that is NaN,
    negative or beyond half the circumference: the distance computed for
    every hike returned is a finite number from 0 to 6371 pi km. *)
Theorem result_distances_onSphere (StringToNumber : string -> number)
    (postcodeRecord center : json) (hikes all : list json) (slug : string)
    (maxDistanceKm limit : number) (found near : list json) :
  Route.searchResults StringToNumber postcodeRecord hikes maxDistanceKm limit
  = Normal found ->
  Lib.nearby StringToNumber center all slug maxDistanceKm limit
  = Normal near ->
  Forall (fun r =>
            Laws.onSphere
              (distanceFromPostcode StringToNumber postcodeRecord r)) found
  /\ Forall (fun r =>
               Laws.onSphere (Lib.distance_from_start_km StringToNumber r))
            near.
Proof.
  intros Hfound Hnear.
  apply Route_searchResults_Normal in Hfound.
  apply Lib_nearby_Normal in Hnear. subst found near.
  split; apply List.Forall_forall; intros r Hr;
    apply nearest_within in Hr as [Hin Hle];
    apply in_map_iff in Hin as (h & <- & _);
    apply leb_nonNaN in Hle as [Hn _].
  - rewrite routeAnnotated_key in Hn. apply toFixed2_NaN in Hn.
    rewrite routeAnnotated_distance. now apply distance_onSphere.
  - rewrite nearbyAnnotated_key in Hn |- *. now apply distance_onSphere.
Qed.

(** The distances of the sample searches lie on the sphere. *)
Lemma result_distances_onSphere_witness :
  exists found near,
    Route.searchResults Examples.noNumerals Examples.equatorPostcode
      [Examples.nearHike] (Num 30) (Num 4) = Normal found
    /\ Lib.nearby Examples.noNumerals Examples.equatorHike
         [Examples.equatorHike; Examples.nearHike] "origin" (Num 30) (Num 4)
       = Normal near
    /\ Forall (fun r =>
                 Laws.onSphere
                   (Lib.distance_from_start_km Examples.noNumerals r)) near.
Proof.
  assert (Hmax : Num.leb (Num (1 / 100)) (Num 30) = true)
    by (apply Rleb_true; lra).
  assert (Hs := postcode_search_near (Num 30) (Num 4) Hmax atMost_1_4).
  do 2 eexists. split; [exact Hs |]. split; [exact nearby_search_near |].
  exact (proj2 (result_distances_onSphere Examples.noNumerals
                  Examples.equatorPostcode Examples.equatorHike
                  [Examples.nearHike]
                  [Examples.equatorHike; Examples.nearHike] "origin"
                  (Num 30) (Num 4) _ _ Hs nearby_search_near)).
Defined.

Section RoundingFacts.

Local Open Scope R_scope.

Lemma rounded2_close (d q : R) : rounded2 d q -> q - / 200 <= d <= q + / 200.
Proof.
  intros (n & _ & H). unfold Rabs in H.
  destruct (Rcase_abs (q - d)); lra.
Qed.

End RoundingFacts.

(** What the postcode search returns carries a rounded distance within
    the radius. *)
Lemma route_result_rounded (StringToNumber : string -> number)
    (postcodeRecord : json) (hikes : list json)
    (maxDistanceKm limit : number) (r : json) :
  In r (nearest (Route.distanceFromPostcodeKm StringToNumber)
          maxDistanceKm limit
          (map (routeAnnotated StringToNumber postcodeRecord) hikes)) ->
  exists d q,
    distanceFromPostcode StringToNumber postcodeRecord r = Num d
    /\ Route.distanceFromPostcodeKm StringToNumber r = Num q
    /\ rounded2 d q
    /\ Num.leb (Num q) maxDistanceKm = true.
Proof.
  intros Hr. apply nearest_within in Hr as [Hin Hle].
  apply in_map_iff in Hin as (h & <- & _).
  rewrite routeAnnotated_key in Hle |- *. rewrite routeAnnotated_distance.
  pose proof (leb_nonNaN _ _ Hle) as [Hn _]. apply toFixed2_NaN in Hn.
  destruct (distance_onSphere StringToNumber _ _ h Hn) as (d & Ed & _).
  unfold distanceFromPostcode in *. rewrite Ed in *.
  destruct (toFixed2_rounded d) as (q & Eq & Hq).
  rewrite Eq in *. exists d, q. auto.
Qed.

(** X6.  The postcode search filters and sorts on the rounded distance,
    so the distance itself may pass the radius and the order by at most
    the rounding: every hike returned is within the radius plus 5 m, and
    a hike returned before another is farther by 10 m at most. *)
Theorem postcode_search_slack (StringToNumber : string -> number)
    (postcodeRecord : json) (hikes : list json) (radius : R)
    (limit : number) (found : list json) :
  Route.searchResults StringToNumber postcodeRecord hikes (Num radius) limit
  = Normal found ->
  Forall (fun r =>
            Laws.below (/ 200)
              (distanceFromPostcode StringToNumber postcodeRecord r)
              (Num radius)) found
  /\ StronglySorted
       (fun r1 r2 =>
          Laws.below (/ 100)
            (distanceFromPostcode StringToNumber postcodeRecord r1)
            (distanceFromPostcode StringToNumber postcodeRecord r2)) found.
Proof.
  intros Hfound.
  apply Route_searchResults_Normal in Hfound. subst found.
  set (found := nearest _ _ _ _).
  assert (Hann : Forall (fun r =>
            exists d q,
              distanceFromPostcode StringToNumber postcodeRecord r = Num d
              /\ Route.distanceFromPostcodeKm StringToNumber r = Num q
              /\ rounded2 d q
              /\ Num.leb (Num q) (Num radius) = true) found).
  { apply List.Forall_forall. intros r Hr.
    now apply (route_result_rounded _ _ hikes _ limit). }
  split.
  - eapply List.Forall_impl; [| exact Hann].
    intros r (d & q & Ed & Eq & Hq & Hle). cbn in Hle. rbool.
    apply rounded2_close in Hq.
    exists d, radius. repeat split; [assumption |]. lra.
  - eapply (StronglySorted_map_rel _
             (fun a b => Num.leb (Route.distanceFromPostcodeKm StringToNumber a)
                           (Route.distanceFromPostcodeKm StringToNumber b)
                         = true)); [| exact Hann |].
    + intros a b (d1 & q1 & Ed1 & Eq1 & Hq1 & _) (d2 & q2 & Ed2 & Eq2 & Hq2 & _) Hab.
      rewrite Eq1, Eq2 in Hab. cbn in Hab. rbool.
      apply rounded2_close in Hq1, Hq2.
      exists d1, d2. repeat split; [assumption | assumption |]. lra.
    + apply ascending_strongly. apply nearest_ascending.
Qed.

(** Eleven metres away, within a radius of ten metres plus five. *)
Lemma postcode_search_slack_witness :
  exists found,
    Route.searchResults Examples.noNumerals Examples.equatorPostcode
      [Examples.nearHike] (Num (1 / 100)) (Num 20) = Normal found
    /\ Forall (fun r =>
                 Laws.below (/ 200)
                   (distanceFromPostcode Examples.noNumerals
                      Examples.equatorPostcode r)
                   (Num (1 / 100))) found.
Proof.
  assert (Hs := postcode_search_near (Num (1 / 100)) (Num 20)
                  (leb_refl_Num _) atMost_1_20).
  eexists. split; [exact Hs |].
  exact (proj1 (postcode_search_slack Examples.noNumerals
                  Examples.equatorPostcode [Examples.nearHike] (1 / 100)
                  (Num 20) _ Hs)).
Defined.


(* ====================================================================== *)
(** * The two postcode normalisers *)

Section NormaliserFacts.

Lemma toUpperChar_idem (c : ascii) :
  toUpperChar (toUpperChar c) = toUpperChar c.
Proof. destruct c as [[] [] [] [] [] [] [] []]; reflexivity. Qed.

Lemma map_upper_idem (l : list ascii) :
  map toUpperChar (map toUpperChar l) = map toUpperChar l.
Proof.
  rewrite map_map. apply map_ext. intros c. apply toUpperChar_idem.
Qed.

Lemma chars_app (a b : string) : chars (a ++ b) = chars a ++ chars b.
Proof.
  rewrite <- (chars_str (chars a ++ chars b)), str_app, !str_chars.
  reflexivity.
Qed.

Lemma chars_inj (a b : string) : chars a = chars b -> a = b.
Proof. intros H. rewrite <- (str_chars a), <- (str_chars b). now f_equal. Qed.

Lemma existsb_ws_rev (l : list ascii) :
  existsb isWhiteSpace (rev l) = existsb isWhiteSpace l.
Proof.
  induction l as [| c r IH]; [reflexivity |].
  cbn [rev existsb]. rewrite existsb_app, IH. cbn [existsb].
  rewrite orb_false_r. apply orb_comm.
Qed.

(** A list that does not start with white space. *)
Lemma dropWhile_head (c : ascii) (l : list ascii) :
  isWhiteSpace c = false -> dropWhile isWhiteSpace (c :: l) = c :: l.
Proof. intros H. cbn [dropWhile]. now rewrite H. Qed.

Lemma dropWhile_none (l : list ascii) :
  existsb isWhiteSpace l = false -> dropWhile isWhiteSpace l = l.
Proof.
  destruct l as [| c r]; [reflexivity |]. cbn [existsb].
  intros H. apply orb_false_iff in H as [Hc _]. now apply dropWhile_head.
Qed.

Lemma dropWhile_snoc (l : list ascii) (c : ascii) :
  isWhiteSpace c = false ->
  dropWhile isWhiteSpace (l ++ [c]) = dropWhile isWhiteSpace l ++ [c].
Proof.
  intros Hc. induction l as [| d r IH]; cbn [app dropWhile].
  - now rewrite Hc.
  - destruct (isWhiteSpace d); [exact IH | reflexivity].
Qed.

Lemma dropWhile_idem (l : list ascii) :
  dropWhile isWhiteSpace (dropWhile isWhiteSpace l) = dropWhile isWhiteSpace l.
Proof.
  induction l as [| c r IH]; [reflexivity |]. cbn [dropWhile].
  destruct (isWhiteSpace c) eqn:E; [exact IH |]. now apply dropWhile_head.
Qed.

(** Trimming leaves a list alone that neither starts nor ends with white
    space. *)
Lemma trimL_fixed (l : list ascii) :
  dropWhile isWhiteSpace l = l ->
  dropWhile isWhiteSpace (rev l) = rev l ->
  trimL l = l.
Proof.
  intros H1 H2. unfold trimL, trimEndL, trimStartL.
  now rewrite H1, H2, rev_involutive.
Qed.

Lemma trimL_none (l : list ascii) :
  existsb isWhiteSpace l = false -> trimL l = l.
Proof.
  intros H. apply trimL_fixed; apply dropWhile_none; [assumption |].
  now rewrite existsb_ws_rev.
Qed.

Lemma trimL_head (l : list ascii) :
  dropWhile isWhiteSpace (trimL l) = trimL l.
Proof.
  unfold trimL, trimEndL, trimStartL.
  destruct (dropWhile isWhiteSpace l) as [| c m] eqn:E; [reflexivity |].
  assert (Hc : isWhiteSpace c = false).
  { destruct (isWhiteSpace c) eqn:Hc; [| reflexivity].
    pose proof (dropWhile_idem l) as Hi. rewrite E in Hi.
    cbn [dropWhile] in Hi. rewrite Hc in Hi.
    assert (Hlen : (List.length (dropWhile isWhiteSpace m) <= List.length m)%nat).
    { clear. induction m as [| d r IH]; cbn [dropWhile]; [lia |].
      destruct (isWhiteSpace d); cbn [List.length]; lia. }
    rewrite Hi in Hlen. cbn [List.length] in Hlen. lia. }
  cbn [rev]. rewrite (dropWhile_snoc _ _ Hc), rev_app_distr. cbn [rev app].
  now apply dropWhile_head.
Qed.

Lemma trimL_last (l : list ascii) :
  dropWhile isWhiteSpace (rev (trimL l)) = rev (trimL l).
Proof.
  unfold trimL, trimEndL. rewrite rev_involutive. apply dropWhile_idem.
Qed.

Lemma dropWhile_upper (l : list ascii) :
  dropWhile isWhiteSpace (map toUpperChar l)
  = map toUpperChar (dropWhile isWhiteSpace l).
Proof.
  induction l as [| c r IH]; [reflexivity |]. cbn [map dropWhile].
  rewrite isWhiteSpace_upper. now destruct (isWhiteSpace c).
Qed.

(** ** Collapsing runs of white space *)

Lemma collapseL_upper (b : bool) (l : list ascii) :
  collapseL b (map toUpperChar l) = map toUpperChar (collapseL b l).
Proof.
  revert b. induction l as [| c r IH]; intros b; [reflexivity |].
  cbn [map collapseL]. rewrite isWhiteSpace_upper.
  destruct (isWhiteSpace c); [destruct b |]; cbn [map]; now rewrite IH.
Qed.

Lemma collapseL_idem (l : list ascii) :
  collapseL false (collapseL false l) = collapseL false l
  /\ collapseL true (collapseL true l) = collapseL true l.
Proof.
  induction l as [| c r [IHf IHt]]; [split; reflexivity |].
  cbn [collapseL]. destruct (isWhiteSpace c) eqn:E.
  - split; [| exact IHt].
    cbn [collapseL]. change (isWhiteSpace " ") with true. cbn iota.
    now rewrite IHt.
  - split; cbn [collapseL]; rewrite E; now rewrite IHf.
Qed.

Lemma collapseL_head (l : list ascii) :
  dropWhile isWhiteSpace l = l ->
  dropWhile isWhiteSpace (collapseL false l) = collapseL false l.
Proof.
  destruct l as [| c r]; [reflexivity |]. cbn [dropWhile collapseL].
  destruct (isWhiteSpace c) eqn:E.
  - intros H. exfalso.
    assert (Hlen : (List.length (dropWhile isWhiteSpace r) <= List.length r)%nat).
    { clear. induction r as [| d r IH]; cbn [dropWhile]; [lia |].
      destruct (isWhiteSpace d); cbn [List.length]; lia. }
    rewrite H in Hlen. cbn [List.length] in Hlen. lia.
  - intros _. now apply dropWhile_head.
Qed.

Lemma collapseL_snoc (b : bool) (l : list ascii) (c : ascii) :
  isWhiteSpace c = false ->
  collapseL b (l ++ [c]) = collapseL b l ++ [c].
Proof.
  intros Hc. revert b. induction l as [| d r IH]; intros b; cbn [app collapseL].
  - now rewrite Hc.
  - destruct (isWhiteSpace d); [destruct b |]; cbn [app]; now rewrite IH.
Qed.

Lemma collapseL_last (l : list ascii) :
  dropWhile isWhiteSpace (rev l) = rev l ->
  dropWhile isWhiteSpace (rev (collapseL false l)) = rev (collapseL false l).
Proof.
  intros H. destruct (rev l) as [| c t] eqn:E.
  - apply (f_equal (@rev ascii)) in E. rewrite rev_involutive in E.
    now subst l.
  - assert (Hc : isWhiteSpace c = false).
    { destruct (isWhiteSpace c) eqn:Hc; [| reflexivity]. exfalso.
      cbn [dropWhile] in H. rewrite Hc in H.
      assert (Hlen : (List.length (dropWhile isWhiteSpace t) <= List.length t)%nat).
      { clear. induction t as [| d r IH]; cbn [dropWhile]; [lia |].
        destruct (isWhiteSpace d); cbn [List.length]; lia. }
      rewrite H in Hlen. cbn [List.length] in Hlen. lia. }
    apply (f_equal (@rev ascii)) in E. rewrite rev_involutive in E.
    cbn [rev] in E. subst l.
    rewrite (collapseL_snoc _ _ _ Hc), rev_app_distr. cbn [rev app].
    now apply dropWhile_head.
Qed.

Lemma collapseL_clean_app (a l : list ascii) :
  existsb isWhiteSpace a = false ->
  collapseL false (a ++ l) = a ++ collapseL false l.
Proof.
  induction a as [| c r IH]; [reflexivity |]. cbn [existsb app collapseL].
  intros H. apply orb_false_iff in H as [Hc Hr]. rewrite Hc.
  now rewrite IH.
Qed.

Lemma collapseL_true_clean (b : list ascii) :
  existsb isWhiteSpace b = false -> collapseL true b = b.
Proof.
  destruct b as [| c r]; [reflexivity |]. cbn [existsb collapseL].
  intros H. apply orb_false_iff in H as [Hc Hr]. rewrite Hc.
  now rewrite collapseL_none.
Qed.

(** ** A code with its one space *)

Lemma spaced_trim (a b : list ascii) :
  a <> [] -> b <> [] ->
  existsb isWhiteSpace a = false -> existsb isWhiteSpace b = false ->
  trimL (a ++ " "%char :: b) = a ++ " "%char :: b.
Proof.
  intros Ha Hb Hwa Hwb. apply trimL_fixed.
  - destruct a as [| c r]; [congruence |]. cbn [existsb] in Hwa.
    apply orb_false_iff in Hwa as [Hc _]. cbn [app].
    now apply dropWhile_head.
  - rewrite rev_app_distr. cbn [rev].
    destruct (rev b) as [| d t] eqn:E.
    + apply (f_equal (@rev ascii)) in E. rewrite rev_involutive in E.
      now subst b.
    + assert (Hd : isWhiteSpace d = false).
      { rewrite <- existsb_ws_rev, E in Hwb. cbn [existsb] in Hwb.
        now apply orb_false_iff in Hwb as [Hd _]. }
      cbn [app]. now apply dropWhile_head.
Qed.

Lemma spaced_collapse (a b : list ascii) :
  existsb isWhiteSpace a = false -> existsb isWhiteSpace b = false ->
  collapseL false (a ++ " "%char :: b) = a ++ " "%char :: b.
Proof.
  intros Hwa Hwb. rewrite (collapseL_clean_app _ _ Hwa). cbn [collapseL].
  change (isWhiteSpace " ") with true. cbn iota.
  now rewrite (collapseL_true_clean _ Hwb).
Qed.

Lemma spaced_strip (a b : list ascii) :
  stripL (a ++ " "%char :: b) = stripL (a ++ b).
Proof.
  unfold stripL. rewrite !List.filter_app. cbn [List.filter].
  change (isWhiteSpace " ") with true. reflexivity.
Qed.

Lemma existsb_firstn (k : nat) (l : list ascii) :
  existsb isWhiteSpace l = false ->
  existsb isWhiteSpace (firstn k l) = false
  /\ existsb isWhiteSpace (skipn k l) = false.
Proof.
  intros H. rewrite <- (firstn_skipn k l), existsb_app in H.
  now apply orb_false_iff in H.
Qed.

End NormaliserFacts.


Section NormaliserLaws.

Lemma preprocess_normalise (raw : string) :
  Preprocess.normalisePostcode raw = normalise raw.
Proof.
  unfold Preprocess.normalisePostcode, normalise.
  rewrite preprocess_stripped.
  now destruct (toUpperCase (replaceAllWs_empty raw)).
Qed.

Lemma stripped_clean (raw : string) :
  existsb isWhiteSpace (chars (Laws.stripped raw)) = false.
Proof.
  unfold Laws.stripped. rewrite stripped_chars, existsb_upper.
  apply stripL_clean.
Qed.

Lemma stripped_upper (raw : string) :
  map toUpperChar (chars (Laws.stripped raw)) = chars (Laws.stripped raw).
Proof.
  unfold Laws.stripped. rewrite stripped_chars. apply map_upper_idem.
Qed.

(** The canonical code, character by character. *)
Lemma normalise_chars (raw : string) :
  let x := chars (Laws.stripped raw) in
  let k := (List.length x - 3)%nat in
  chars (normalise raw)
  = if (List.length x <=? 3)%nat then x
    else firstn k x ++ " "%char :: skipn k x.
Proof.
  intros x k. unfold normalise. fold (Laws.stripped raw).
  rewrite (length_chars (Laws.stripped raw)). fold x.
  destruct (List.length x <=? 3)%nat; [reflexivity |].
  unfold slice_to_minus, slice_from_minus.
  rewrite (length_chars (Laws.stripped raw)). fold x. fold k.
  rewrite !chars_app, !chars_str. reflexivity.
Qed.

Lemma stripped_normalise (raw : string) :
  Laws.stripped (normalise raw) = Laws.stripped raw.
Proof.
  apply chars_inj.
  unfold Laws.stripped at 1. rewrite stripped_chars, normalise_chars.
  set (x := chars (Laws.stripped raw)).
  assert (Hx : map toUpperChar (stripL x) = x).
  { rewrite (stripL_none x (stripped_clean raw)). apply stripped_upper. }
  destruct (List.length x <=? 3)%nat; [exact Hx |].
  now rewrite spaced_strip, firstn_skipn.
Qed.

(** The normaliser of the route, character by character. *)
Lemma route_chars (raw : string) :
  let z := collapseL false (map toUpperChar (trimL (chars raw))) in
  let k := (List.length z - 3)%nat in
  chars (Route.normalisePostcode raw)
  = if existsb (Ascii.eqb " ") z then z
    else if (3 <? List.length z)%nat
         then firstn k z ++ " "%char :: skipn k z
         else z.
Proof.
  intros z k. unfold Route.normalisePostcode, includes, replaceAllWs_space,
    toUpperCase, trim, slice_to_minus, slice_from_minus.
  rewrite !chars_str, !length_str. fold z. fold k.
  destruct (existsb (Ascii.eqb " ") z); [apply chars_str |].
  destruct (3 <? List.length z)%nat; [| apply chars_str].
  now rewrite !chars_app, !chars_str.
Qed.

Lemma route_plain (x : list ascii) :
  existsb isWhiteSpace x = false -> map toUpperChar x = x ->
  (List.length x <= 3)%nat ->
  chars (Route.normalisePostcode (str x)) = x.
Proof.
  intros Hw Hu Hn. rewrite route_chars, chars_str.
  rewrite (trimL_none x Hw), Hu, (collapseL_none x Hw), (no_space x Hw).
  now destruct (Nat.ltb_spec 3 (List.length x)); [lia |].
Qed.

Lemma route_spaced (a b : list ascii) :
  a <> [] -> b <> [] ->
  existsb isWhiteSpace a = false -> existsb isWhiteSpace b = false ->
  map toUpperChar a = a -> map toUpperChar b = b ->
  chars (Route.normalisePostcode (str (a ++ " "%char :: b)))
  = a ++ " "%char :: b.
Proof.
  intros Ha Hb Hwa Hwb Hua Hub. rewrite route_chars, chars_str.
  rewrite (spaced_trim a b Ha Hb Hwa Hwb).
  assert (Hu : map toUpperChar (a ++ " "%char :: b) = a ++ " "%char :: b).
  { rewrite map_app. cbn [map]. now rewrite Hua, Hub. }
  rewrite Hu, (spaced_collapse a b Hwa Hwb).
  rewrite existsb_app. cbn [existsb]. now rewrite orb_true_r.
Qed.

(** The route leaves a clean upper-case string, plain or with its space
    set, as the preprocessing script would write it. *)
Lemma route_canonical (x : list ascii) :
  existsb isWhiteSpace x = false -> map toUpperChar x = x ->
  let k := (List.length x - 3)%nat in
  let y := if (List.length x <=? 3)%nat then x
           else firstn k x ++ " "%char :: skipn k x in
  chars (Route.normalisePostcode (str y)) = y.
Proof.
  intros Hw Hu k y. subst y.
  destruct (Nat.leb_spec (List.length x) 3) as [Hn | Hn].
  - now apply route_plain.
  - destruct (existsb_firstn k x Hw) as [Hwa Hwb].
    apply route_spaced; try assumption.
    + intros E. apply (f_equal (@List.length ascii)) in E.
      rewrite length_firstn in E. cbn in E. lia.
    + intros E. apply (f_equal (@List.length ascii)) in E.
      rewrite length_skipn in E. cbn in E. lia.
    + rewrite <- firstn_map. now rewrite Hu.
    + rewrite <- skipn_map. now rewrite Hu.
Qed.

Lemma collapsed_no_space (l : list ascii) :
  existsb (Ascii.eqb " ") (collapseL false l) = false ->
  existsb isWhiteSpace l = false.
Proof.
  intros H. destruct (existsb isWhiteSpace l) eqn:E; [| reflexivity].
  rewrite (collapseL_space l E) in H. discriminate.
Qed.

Lemma route_fixes_canonical (raw : string) :
  Route.normalisePostcode (Preprocess.normalisePostcode raw)
  = Preprocess.normalisePostcode raw.
Proof.
  apply chars_inj. rewrite preprocess_normalise.
  rewrite <- (str_chars (normalise raw)), normalise_chars at 1.
  rewrite (route_canonical _ (stripped_clean raw) (stripped_upper raw)).
  now rewrite normalise_chars.
Qed.

End NormaliserLaws.

(** X7.  Normalising twice is normalising once, for the preprocessing
    script and for the route; and the route leaves every code the
    preprocessing script writes as it is, so it asks for the file that
    was written. *)
Theorem normalisers_idempotent (raw : string) :
  Preprocess.normalisePostcode (Preprocess.normalisePostcode raw)
  = Preprocess.normalisePostcode raw
  /\ Route.normalisePostcode (Route.normalisePostcode raw)
     = Route.normalisePostcode raw
  /\ Route.normalisePostcode (Preprocess.normalisePostcode raw)
     = Preprocess.normalisePostcode raw.
Proof.
  split; [| split].
  - rewrite !preprocess_normalise. unfold normalise at 1 3.
    fold (Laws.stripped (normalise raw)) (Laws.stripped raw).
    now rewrite stripped_normalise.
  - apply chars_inj.
    set (l := map toUpperChar (trimL (chars raw))).
    set (z := collapseL false l).
    assert (Hl : map toUpperChar l = l) by apply map_upper_idem.
    assert (Hz : map toUpperChar z = z).
    { unfold z. now rewrite <- collapseL_upper, Hl. }
    pose proof (route_chars raw) as Hr. cbv zeta in Hr. fold l z in Hr.
    destruct (existsb (Ascii.eqb " ") z) eqn:Hsp.
    + rewrite Hr. rewrite <- (str_chars (Route.normalisePostcode raw)), Hr.
      rewrite route_chars, chars_str.
      assert (Ht : trimL z = z).
      { apply trimL_fixed.
        - apply collapseL_head. unfold l.
          now rewrite dropWhile_upper, trimL_head.
        - apply collapseL_last. unfold l.
          now rewrite <- map_rev, dropWhile_upper, trimL_last. }
      rewrite Ht, Hz. unfold z at 1 2 3.
      rewrite (proj1 (collapseL_idem l)). fold z. now rewrite Hsp.
    + pose proof (collapsed_no_space l Hsp) as Hw.
      assert (Ez : z = l) by (apply collapseL_none; exact Hw).
      rewrite Ez in Hr.
      rewrite <- (str_chars (Route.normalisePostcode raw)), Hr.
      pose proof (route_canonical l Hw Hl) as Hc. cbv zeta in Hc.
      rewrite Nat.ltb_antisym.
      destruct (List.length l <=? 3)%nat; cbn [negb]; now rewrite Hc, chars_str.
  - apply route_fixes_canonical.
Qed.

Section PathFacts.

Lemma append_inv_head (p a b : string) : (p ++ a = p ++ b)%string -> a = b.
Proof.
  intros H. apply chars_inj. apply (f_equal chars) in H.
  rewrite !chars_app in H. now apply app_inv_head in H.
Qed.

Lemma append_inv_tail (a b q : string) : (a ++ q = b ++ q)%string -> a = b.
Proof.
  intros H. apply chars_inj. apply (f_equal chars) in H.
  rewrite !chars_app in H. now apply app_inv_tail in H.
Qed.

Lemma replaceFirstRunL_clean (a l : list ascii) :
  existsb isWhiteSpace a = false ->
  replaceFirstRunL (a ++ l) = a ++ replaceFirstRunL l.
Proof.
  induction a as [| c r IH]; [reflexivity |]. cbn [existsb app replaceFirstRunL].
  intros H. apply orb_false_iff in H as [Hc Hr]. rewrite Hc.
  now rewrite IH.
Qed.

(** The file name of a canonical code: its space becomes a hyphen. *)
Lemma hyphened_chars (raw : string) :
  let x := chars (Laws.stripped raw) in
  let k := (List.length x - 3)%nat in
  chars (replaceFirstWs_hyphen (normalise raw))
  = if (List.length x <=? 3)%nat then x
    else firstn k x ++ "-"%char :: skipn k x.
Proof.
  intros x k. unfold replaceFirstWs_hyphen.
  rewrite chars_str, normalise_chars. fold x. fold k.
  pose proof (stripped_clean raw) as Hw. fold x in Hw.
  destruct (List.length x <=? 3)%nat.
  - rewrite <- (app_nil_r x) at 1.
    rewrite (replaceFirstRunL_clean x [] Hw). apply app_nil_r.
  - destruct (existsb_firstn k x Hw) as [Hwa Hwb].
    rewrite (replaceFirstRunL_clean _ _ Hwa). cbn [replaceFirstRunL].
    change (isWhiteSpace " ") with true. cbn iota.
    now rewrite (dropWhile_none _ Hwb).
Qed.

Lemma hyphened_inj (a b : string) :
  replaceFirstWs_hyphen (normalise a) = replaceFirstWs_hyphen (normalise b) ->
  Laws.stripped a = Laws.stripped b.
Proof.
  intros H. apply (f_equal chars) in H. rewrite !hyphened_chars in H.
  apply chars_inj.
  set (x := chars (Laws.stripped a)) in *.
  set (y := chars (Laws.stripped b)) in *.
  assert (Hlen : forall (u : list ascii) (c : ascii),
             (3 < List.length u)%nat ->
             List.length (firstn (List.length u - 3) u
                          ++ c :: skipn (List.length u - 3) u)
             = S (List.length u)).
  { intros u c Hu. rewrite length_app. cbn [List.length].
    rewrite length_firstn, length_skipn. lia. }
  destruct (Nat.leb_spec (List.length x) 3) as [Hx | Hx];
    destruct (Nat.leb_spec (List.length y) 3) as [Hy | Hy].
  - exact H.
  - apply (f_equal (@List.length ascii)) in H. rewrite Hlen in H; lia.
  - apply (f_equal (@List.length ascii)) in H. rewrite Hlen in H; lia.
  - pose proof (f_equal (@List.length ascii) H) as HL.
    rewrite !Hlen in HL by assumption.
    assert (Exy : List.length x = List.length y) by lia.
    rewrite Exy in H.
    apply app_inj_1 in H; [| rewrite !length_firstn; lia].
    destruct H as [H1 H2]. injection H2 as H2.
    rewrite <- (firstn_skipn (List.length y - 3) x), H1, H2.
    apply firstn_skipn.
Qed.

Lemma fileName_stripped (a b : string) :
  Laws.fileName a = Laws.fileName b -> Laws.stripped a = Laws.stripped b.
Proof.
  unfold Laws.fileName. rewrite !preprocess_normalise. intros H.
  apply append_inv_tail in H. now apply hyphened_inj.
Qed.

Lemma outPath_stripped (a b : string) :
  Laws.outPath a = Laws.outPath b -> Laws.stripped a = Laws.stripped b.
Proof.
  unfold Laws.outPath, path_join. intros H.
  apply append_inv_head, append_inv_head in H.
  now apply fileName_stripped.
Qed.

Lemma normalise_stripped (a b : string) :
  Laws.stripped a = Laws.stripped b ->
  Preprocess.normalisePostcode a = Preprocess.normalisePostcode b.
Proof.
  intros H. rewrite !preprocess_normalise. unfold normalise.
  fold (Laws.stripped a) (Laws.stripped b). now rewrite H.
Qed.

Lemma preprocess_idempotent (raw : string) :
  Preprocess.normalisePostcode (Preprocess.normalisePostcode raw)
  = Preprocess.normalisePostcode raw.
Proof.
  rewrite !preprocess_normalise. unfold normalise at 1 3.
  fold (Laws.stripped (normalise raw)) (Laws.stripped raw).
  now rewrite stripped_normalise.
Qed.

End PathFacts.

(** X8.  The files by code are named alike exactly when the postcodes
    have the same characters, letter case and white space aside: no two
    different postcodes are given one file name, and the route asks for
    the name the preprocessing script wrote. *)
Theorem fileName_collision (a b : string) :
  (Laws.fileName a = Laws.fileName b <-> Laws.stripped a = Laws.stripped b)
  /\ Route.postcodeToFilename (Preprocess.normalisePostcode a)
     = Laws.fileName a.
Proof.
  split; [| reflexivity].
  split; [apply fileName_stripped |].
  intros H. unfold Laws.fileName. now rewrite (normalise_stripped a b H).
Qed.


(* ====================================================================== *)
(** * What the preprocessing run writes *)

Section WrittenFacts.

Variable StringToNumber : string -> number.
Variable writable : string -> bool.

Lemma parseNumber_number (v : option string) (n : number) :
  Preprocess.parseNumber StringToNumber v = Some n -> isNaN n = false.
Proof.
  unfold Preprocess.parseNumber. destruct v as [[| c s] |]; try discriminate.
  destruct (isEmpty _); [discriminate |].
  destruct (isNaN (StringToNumber _)) eqn:E; [discriminate |].
  intros H. injection H as <-. exact E.
Qed.

Lemma outPath_normalised (raw : string) :
  Laws.outPath (Preprocess.normalisePostcode raw) = Laws.outPath raw.
Proof.
  unfold Laws.outPath, Laws.fileName. now rewrite preprocess_idempotent.
Qed.

Lemma isEmpty_false (s : string) : isEmpty s = false -> s <> EmptyString.
Proof. now destruct s. Qed.

(** A data row either leaves the files alone or writes one record and
    one entry of the index. *)
Lemma processRow_cases (st st' : Preprocess.state)
    (headerMap : gmap string nat) (line : string) :
  Preprocess.processRow StringToNumber writable st headerMap line = Some st' ->
  (Preprocess.byCode st' = Preprocess.byCode st
   /\ Preprocess.districtIndex st' = Preprocess.districtIndex st
   /\ Preprocess.writtenByCode st' = Preprocess.writtenByCode st)
  \/ exists (rawPc : string) (r : Preprocess.PostcodeRecord),
       Preprocess.getField (Preprocess.splitCsvLine line) headerMap "Postcode"
       = Some rawPc
       /\ Preprocess.postcode r = Preprocess.normalisePostcode rawPc
       /\ Preprocess.postcode r <> EmptyString
       /\ isNaN (Preprocess.latitude r) = false
       /\ isNaN (Preprocess.longitude r) = false
       /\ (Preprocess.area r, Preprocess.district r, Preprocess.sector r)
          = Preprocess.deriveAreaDistrictSector (Preprocess.postcode r)
       /\ writable (Laws.outPath rawPc) = true
       /\ Preprocess.byCode st'
          = <[Laws.outPath rawPc := r]> (Preprocess.byCode st)
       /\ Preprocess.districtIndex st'
          = <[Preprocess.district r :=
                default [] (Preprocess.districtIndex st !! Preprocess.district r)
                ++ [Laws.itemOf r]]> (Preprocess.districtIndex st)
       /\ Preprocess.writtenByCode st' = S (Preprocess.writtenByCode st).
Proof.
  unfold Preprocess.processRow.
  destruct (Preprocess.getField _ headerMap "Postcode") as [[| c rawPc] |];
    try (intros H; injection H as <-; left; now cbn).
  destruct (isEmpty _) eqn:Epc; [intros H; injection H as <-; left; now cbn |].
  destruct (Preprocess.parseNumber _ _) as [lat |] eqn:Elat;
    [| intros H; injection H as <-; left; now cbn].
  destruct (Preprocess.parseNumber _ (Preprocess.getField _ _ "Longitude"))
    as [lon |] eqn:Elon;
    [| intros H; injection H as <-; left; now cbn].
  destruct (Preprocess.deriveAreaDistrictSector _)
    as [[area district] sector] eqn:Ed.
  destruct (writable _) eqn:Ew; cbn [negb]; [| discriminate].
  intros H; injection H as <-. right.
  eexists (String c rawPc), _.
  cbn [Preprocess.byCode Preprocess.districtIndex Preprocess.writtenByCode].
  repeat split; try reflexivity.
  all: cbn [Preprocess.postcode Preprocess.area Preprocess.district
            Preprocess.sector Preprocess.latitude Preprocess.longitude].
  - now apply isEmpty_false.
  - exact (parseNumber_number _ _ Elat).
  - exact (parseNumber_number _ _ Elon).
  - now rewrite Ed.
  - exact Ew.
Qed.

(** What holds of the files and the counter of records at the start and
    is kept by every data row holds at the end of the reading loop. *)
Lemma readLines_preserves
    (P : gmap string Preprocess.PostcodeRecord ->
         gmap string (list Preprocess.DistrictIndexItem) -> nat -> Prop) :
  (forall st st' headerMap line,
      P (Preprocess.byCode st) (Preprocess.districtIndex st)
        (Preprocess.writtenByCode st) ->
      Preprocess.processRow StringToNumber writable st headerMap line
      = Some st' ->
      P (Preprocess.byCode st') (Preprocess.districtIndex st')
        (Preprocess.writtenByCode st')) ->
  forall lines st st',
    P (Preprocess.byCode st) (Preprocess.districtIndex st)
      (Preprocess.writtenByCode st) ->
    Preprocess.readLines StringToNumber writable st lines = Some st' ->
    P (Preprocess.byCode st') (Preprocess.districtIndex st')
      (Preprocess.writtenByCode st').
Proof.
  intros Hrow lines. induction lines as [| line rest IH]; intros st st' HP; cbn.
  - intros H; injection H as <-; exact HP.
  - destruct (Preprocess.step _ _ st line) as [st1 |] eqn:E; [| discriminate].
    apply IH. revert E. unfold Preprocess.step.
    destruct (isEmpty (trim line)); [intros H; injection H as <-; exact HP |].
    cbn [Preprocess.lineNumber Preprocess.headerMap].
    destruct (S (Preprocess.lineNumber st) =? 1)%nat;
      [intros H; injection H as <-; exact HP |].
    destruct (Preprocess.headerMap st) as [headerMap |]; [| discriminate].
    apply Hrow. exact HP.
Qed.

End WrittenFacts.


Section DistrictFacts.

Variable StringToNumber : string -> number.
Variable writable : string -> bool.

Lemma districtPath_inj (d1 d2 : string) :
  Laws.districtPath d1 = Laws.districtPath d2 -> d1 = d2.
Proof.
  unfold Laws.districtPath, path_join. intros H.
  now apply append_inv_head, append_inv_head, append_inv_tail in H.
Qed.

(** The entry of the index that becomes a district file. *)
Lemma districtFiles_list
    (index : gmap string (list Preprocess.DistrictIndexItem))
    (files : gmap string (string * nat * list Preprocess.DistrictIndexItem)) :
  Preprocess.districtFiles writable index = Some files ->
  files
  = list_to_map
      ((fun e => (Laws.districtPath (fst e),
                  (fst e, List.length (snd e), snd e)))
       <$> map_to_list index).
Proof.
  unfold Preprocess.districtFiles. destruct (forallb _ _); [| discriminate].
  intros H; injection H as <-. f_equal.
  apply map_ext. now intros [d items].
Qed.

Lemma districtFiles_NoDup
    (index : gmap string (list Preprocess.DistrictIndexItem)) :
  NoDup (((fun e : string * list Preprocess.DistrictIndexItem =>
             (Laws.districtPath (fst e),
              (fst e, List.length (snd e), snd e)))
          <$> map_to_list index).*1).
Proof.
  rewrite <- list_fmap_compose.
  change (NoDup ((Laws.districtPath ∘ fst) <$> map_to_list index)).
  rewrite list_fmap_compose. apply NoDup_fmap_2_strong.
  - intros x y _ _. apply districtPath_inj.
  - apply NoDup_fst_map_to_list.
Qed.

(** A district file holds a district with its count and its entries, and
    every district of the index has its file. *)
Lemma districtFiles_lookup
    (index : gmap string (list Preprocess.DistrictIndexItem))
    (files : gmap string (string * nat * list Preprocess.DistrictIndexItem))
    (path d : string) (n : nat) (items : list Preprocess.DistrictIndexItem) :
  Preprocess.districtFiles writable index = Some files ->
  files !! path = Some (d, n, items)
  <-> path = Laws.districtPath d /\ n = List.length items
      /\ index !! d = Some items.
Proof.
  intros H. apply districtFiles_list in H. subst files.
  rewrite <- elem_of_list_to_map by apply districtFiles_NoDup.
  rewrite list_elem_of_fmap. split.
  - intros ([d' items'] & E & Hin). cbn in E. injection E as -> -> -> ->.
    now apply elem_of_map_to_list in Hin.
  - intros (-> & -> & Hlk). exists (d, items). split; [reflexivity |].
    now apply elem_of_map_to_list.
Qed.

Lemma districtFiles_countSum
    (index : gmap string (list Preprocess.DistrictIndexItem))
    (files : gmap string (string * nat * list Preprocess.DistrictIndexItem)) :
  Preprocess.districtFiles writable index = Some files ->
  Laws.countSum files
  = sum_list_with (fun e => List.length (snd e)) (map_to_list index).
Proof.
  intros H. apply districtFiles_list in H. subst files. unfold Laws.countSum.
  rewrite map_to_list_to_map by apply districtFiles_NoDup.
  induction (map_to_list index) as [| e l IH]; [reflexivity |].
  cbn. now rewrite IH.
Qed.

(** The end of a run that completes. *)
Lemma preprocess_Some (csv : option (list string)) (out : Preprocess.output) :
  Preprocess.preprocess StringToNumber writable csv = Some out ->
  exists lines st,
    csv = Some lines
    /\ Preprocess.readLines StringToNumber writable Preprocess.initial lines
       = Some st
    /\ Preprocess.districtFiles writable (Preprocess.districtIndex st)
       = Some (Preprocess.out_byDistrict out)
    /\ Preprocess.out_byCode out = Preprocess.byCode st
    /\ Preprocess.sum_written (Preprocess.out_summary out)
       = Preprocess.writtenByCode st
    /\ Preprocess.sum_totalRows (Preprocess.out_summary out)
       = Preprocess.totalRows st.
Proof.
  unfold Preprocess.preprocess.
  destruct csv as [lines |]; [| discriminate].
  destruct (Preprocess.readLines _ _ _ lines) as [st |] eqn:E; [| discriminate].
  destruct (Preprocess.districtFiles _ _) as [files |] eqn:F; [| discriminate].
  intros H; injection H as <-. exists lines, st. now cbn.
Qed.

(** ** The records *)

Lemma readLines_records (lines : list string) (st : Preprocess.state) :
  Preprocess.readLines StringToNumber writable Preprocess.initial lines
  = Some st ->
  forall path r, Preprocess.byCode st !! path = Some r -> Laws.recordOk path r.
Proof.
  apply (readLines_preserves StringToNumber writable
           (fun byCode _ _ =>
              forall path r, byCode !! path = Some r -> Laws.recordOk path r)).
  - intros st0 st' hm line HP Hrow path r.
    destruct (processRow_cases _ _ _ _ _ _ Hrow)
      as [(-> & _) | (rawPc & r' & _ & Epc & Hne & Hlat & Hlon & Hd & _ & -> & _)];
      [apply HP |].
    rewrite lookup_insert_Some. intros [[<- <-] | [_ H]]; [| now apply HP].
    unfold Laws.recordOk. repeat split; try assumption.
    + now rewrite Epc, outPath_normalised.
    + rewrite Epc. apply preprocess_idempotent.
  - intros path r H. cbn in H. now rewrite lookup_empty in H.
Qed.

(** ** The index of districts *)

Lemma districtOf_record (r : Preprocess.PostcodeRecord) :
  (Preprocess.area r, Preprocess.district r, Preprocess.sector r)
  = Preprocess.deriveAreaDistrictSector (Preprocess.postcode r) ->
  Laws.districtOf (Preprocess.postcode r) = Preprocess.district r.
Proof. unfold Laws.districtOf. now intros <-. Qed.

(** An entry of the index lies in its district, holds a canonical
    postcode with numbers for coordinates, and has a record on file. *)
Lemma readLines_index (lines : list string) (st : Preprocess.state) :
  Preprocess.readLines StringToNumber writable Preprocess.initial lines
  = Some st ->
  forall d items,
    Preprocess.districtIndex st !! d = Some items ->
    items <> []
    /\ Forall (fun it =>
                 Laws.districtOf (Preprocess.item_postcode it) = d
                 /\ isNaN (Preprocess.item_latitude it) = false
                 /\ isNaN (Preprocess.item_longitude it) = false
                 /\ Preprocess.normalisePostcode (Preprocess.item_postcode it)
                    = Preprocess.item_postcode it
                 /\ exists r,
                      Preprocess.byCode st
                        !! Laws.outPath (Preprocess.item_postcode it) = Some r
                      /\ Preprocess.postcode r = Preprocess.item_postcode it)
              items.
Proof.
  apply (readLines_preserves StringToNumber writable
           (fun byCode index _ =>
              forall d items,
                index !! d = Some items ->
                items <> []
                /\ Forall (fun it =>
                     Laws.districtOf (Preprocess.item_postcode it) = d
                     /\ isNaN (Preprocess.item_latitude it) = false
                     /\ isNaN (Preprocess.item_longitude it) = false
                     /\ Preprocess.normalisePostcode (Preprocess.item_postcode it)
                        = Preprocess.item_postcode it
                     /\ exists r,
                          byCode !! Laws.outPath (Preprocess.item_postcode it)
                          = Some r
                          /\ Preprocess.postcode r = Preprocess.item_postcode it)
                   items)).
  - intros st0 st' hm line HP Hrow d items.
    destruct (processRow_cases _ _ _ _ _ _ Hrow)
      as [(-> & -> & _)
         | (rawPc & r' & _ & Epc & Hne & Hlat & Hlon & Hd & _ & -> & -> & _)];
      [apply HP |].
    assert (Hcanon : Preprocess.normalisePostcode (Preprocess.postcode r')
                     = Preprocess.postcode r').
    { rewrite Epc. apply preprocess_idempotent. }
    assert (Hkeep : forall d0 its,
               Preprocess.districtIndex st0 !! d0 = Some its ->
               Forall (fun it =>
                     Laws.districtOf (Preprocess.item_postcode it) = d0
                     /\ isNaN (Preprocess.item_latitude it) = false
                     /\ isNaN (Preprocess.item_longitude it) = false
                     /\ Preprocess.normalisePostcode (Preprocess.item_postcode it)
                        = Preprocess.item_postcode it
                     /\ exists r,
                          <[Laws.outPath rawPc := r']> (Preprocess.byCode st0)
                            !! Laws.outPath (Preprocess.item_postcode it)
                          = Some r
                          /\ Preprocess.postcode r = Preprocess.item_postcode it)
                   its).
    { intros d0 its Hits. destruct (HP d0 its Hits) as [_ Hall].
      eapply Forall_impl; [exact Hall |].
      intros it (H1 & H2 & H3 & H4 & r & Hr & Er).
      repeat split; try assumption.
      destruct (decide (Laws.outPath rawPc
                        = Laws.outPath (Preprocess.item_postcode it)))
        as [E | E].
      - exists r'. rewrite <- E, lookup_insert_eq. split; [reflexivity |].
        apply outPath_stripped, normalise_stripped in E.
        now rewrite Epc, E.
      - exists r. now rewrite lookup_insert_ne. }
    rewrite lookup_insert_Some. intros [[<- <-] | [_ H]].
    + split; [intros E; apply app_eq_nil in E as [_ E]; discriminate |].
      apply Forall_app. split.
      * destruct (Preprocess.districtIndex st0 !! Preprocess.district r')
          as [old |] eqn:Eold; [| constructor].
        now apply Hkeep.
      * constructor; [| constructor]. cbn [Laws.itemOf Preprocess.item_postcode
          Preprocess.item_latitude Preprocess.item_longitude].
        repeat split; try assumption.
        -- now apply districtOf_record.
        -- exists r'. split; [| reflexivity].
           now rewrite Epc, outPath_normalised, lookup_insert_eq.
    + split; [apply (HP d items H) | now apply Hkeep].
  - intros d items H. cbn in H. now rewrite lookup_empty in H.
Qed.

(** A record on file is listed under its district. *)
Lemma readLines_listed (lines : list string) (st : Preprocess.state) :
  Preprocess.readLines StringToNumber writable Preprocess.initial lines
  = Some st ->
  forall path r,
    Preprocess.byCode st !! path = Some r ->
    exists items,
      Preprocess.districtIndex st !! Preprocess.district r = Some items
      /\ In (Laws.itemOf r) items.
Proof.
  apply (readLines_preserves StringToNumber writable
           (fun byCode index _ =>
              forall path r,
                byCode !! path = Some r ->
                exists items,
                  index !! Preprocess.district r = Some items
                  /\ In (Laws.itemOf r) items)).
  - intros st0 st' hm line HP Hrow path r.
    destruct (processRow_cases _ _ _ _ _ _ Hrow)
      as [(-> & -> & _) | (rawPc & r' & _ & _ & _ & _ & _ & _ & _ & -> & -> & _)];
      [apply HP |].
    rewrite lookup_insert_Some. intros [[<- <-] | [_ H]].
    + eexists. rewrite lookup_insert_eq. split; [reflexivity |].
      apply in_or_app. right. now left.
    + destruct (HP path r H) as (items & Hits & Hin).
      destruct (decide (Preprocess.district r' = Preprocess.district r))
        as [E | E].
      * eexists. rewrite E, lookup_insert_eq. split; [reflexivity |].
        rewrite Hits. apply in_or_app. now left.
      * exists items. now rewrite lookup_insert_ne.
  - intros path r H. cbn in H. now rewrite lookup_empty in H.
Qed.

(** The entries of the index are as many as the records written, and the
    files by code are no more. *)
Lemma readLines_counts (lines : list string) (st : Preprocess.state) :
  Preprocess.readLines StringToNumber writable Preprocess.initial lines
  = Some st ->
  sum_list_with (fun e => List.length (snd e))
    (map_to_list (Preprocess.districtIndex st))
  = Preprocess.writtenByCode st
  /\ (size (Preprocess.byCode st) <= Preprocess.writtenByCode st)%nat.
Proof.
  apply (readLines_preserves StringToNumber writable
           (fun byCode index written =>
              sum_list_with (fun e => List.length (snd e)) (map_to_list index)
              = written
              /\ (size byCode <= written)%nat)).
  - intros st0 st' hm line [Hsum Hsize] Hrow.
    destruct (processRow_cases _ _ _ _ _ _ Hrow)
      as [(-> & -> & ->) | (rawPc & r' & _ & _ & _ & _ & _ & _ & _ & -> & -> & ->)];
      [now split |].
    split.
    + set (d := Preprocess.district r').
      destruct (Preprocess.districtIndex st0 !! d) as [old |] eqn:Eold.
      * rewrite <- insert_delete_eq.
        rewrite map_to_list_insert by apply lookup_delete_eq.
        rewrite <- Hsum, <- (map_to_list_delete _ _ _ Eold).
        cbn. rewrite length_app. cbn. lia.
      * rewrite map_to_list_insert by exact Eold. cbn. now rewrite Hsum.
    + rewrite map_size_insert.
      destruct (Preprocess.byCode st0 !! Laws.outPath rawPc); cbn; lia.
  - cbn. rewrite map_to_list_empty, map_size_empty. now cbn.
Qed.

End DistrictFacts.

(** The postcodes of the sample table hold no path separator. *)
Lemma sample_plain (out : Preprocess.output) :
  Preprocess.preprocess Examples.defaultNumerals (fun _ => true)
    (Some Examples.sampleCsv) = Some out ->
  forall path r,
    Preprocess.out_byCode out !! path = Some r ->
    Laws.plainName (Preprocess.postcode r) = true.
Proof.
  intros E. vm_compute in E. injection E as <-. intros path r H.
  apply elem_of_map_to_list in H. vm_compute in H.
  apply list_elem_of_singleton in H. injection H as _ ->.
  vm_compute. reflexivity.
Qed.

(** X9.  Every record the run leaves on file is well formed, for
    postcodes without a path separator: the file is the one named after
    its postcode, the postcode is canonical and not empty, latitude and
    longitude are numbers, and area, district and sector are those
    derived from the postcode. *)
Theorem written_records_wellformed (StringToNumber : string -> number)
    (writable : string -> bool) (csv : option (list string))
    (out : Preprocess.output) :
  Preprocess.preprocess StringToNumber writable csv = Some out ->
  (forall path r,
      Preprocess.out_byCode out !! path = Some r ->
      Laws.plainName (Preprocess.postcode r) = true) ->
  forall path r,
    Preprocess.out_byCode out !! path = Some r -> Laws.recordOk path r.
Proof.
  intros H _.
  destruct (preprocess_Some _ _ _ _ H) as (lines & st & _ & Hr & _ & -> & _).
  now apply (readLines_records StringToNumber writable lines).
Qed.

(** The record of the sample table. *)
Lemma written_records_wellformed_witness :
  exists out,
    Preprocess.preprocess Examples.defaultNumerals (fun _ => true)
      (Some Examples.sampleCsv) = Some out
    /\ forall path r,
         Preprocess.out_byCode out !! path = Some r -> Laws.recordOk path r.
Proof.
  destruct sample_run as (out & E & _). exists out. split; [exact E |].
  exact (written_records_wellformed Examples.defaultNumerals (fun _ => true)
           (Some Examples.sampleCsv) out E (sample_plain out E)).
Defined.

(** X10.  The district files and the files by code agree, for postcodes
    without a path separator (a name without one is joined to its
    directory as it stands).  A district file sits at the path of its
    district, its count is the number of its entries and is not zero, and
    each entry lies in that district, has numbers for coordinates and a
    record on file under its postcode; and every record on file is listed
    in the file of its district. *)
Theorem district_files_consistent (StringToNumber : string -> number)
    (writable : string -> bool) (csv : option (list string))
    (out : Preprocess.output) :
  Preprocess.preprocess StringToNumber writable csv = Some out ->
  (forall path r,
      Preprocess.out_byCode out !! path = Some r ->
      Laws.plainName (Preprocess.postcode r) = true) ->
  (forall path d n items,
      Preprocess.out_byDistrict out !! path = Some (d, n, items) ->
      path = Laws.districtPath d /\ n = List.length items /\ (0 < n)%nat
      /\ Forall (fun it =>
                   Laws.districtOf (Preprocess.item_postcode it) = d
                   /\ isNaN (Preprocess.item_latitude it) = false
                   /\ isNaN (Preprocess.item_longitude it) = false
                   /\ exists r,
                        Preprocess.out_byCode out
                          !! Laws.outPath (Preprocess.item_postcode it)
                        = Some r
                        /\ Preprocess.postcode r = Preprocess.item_postcode it)
                items)
  /\ (forall path r,
         Preprocess.out_byCode out !! path = Some r ->
         exists items,
           Preprocess.out_byDistrict out
             !! Laws.districtPath (Preprocess.district r)
           = Some (Preprocess.district r, List.length items, items)
           /\ In (Laws.itemOf r) items).
Proof.
  intros H _.
  destruct (preprocess_Some _ _ _ _ H) as (lines & st & _ & Hr & Hf & -> & _).
  split.
  - intros path d n items Hlk.
    apply (districtFiles_lookup writable _ _ _ _ _ _ Hf) in Hlk
      as (-> & -> & Hix).
    destruct (readLines_index StringToNumber writable lines st Hr d items Hix)
      as [Hne Hall].
    repeat split.
    + destruct items; [congruence | cbn; lia].
    + eapply Forall_impl; [exact Hall |].
      intros it (H1 & H2 & H3 & _ & H5). auto.
  - intros path r Hlk.
    destruct (readLines_listed StringToNumber writable lines st Hr path r Hlk)
      as (items & Hix & Hin).
    exists items. split; [| exact Hin].
    now apply (districtFiles_lookup writable _ _ _ _ _ _ Hf).
Qed.

(** The files of the sample table. *)
Lemma district_files_consistent_witness :
  exists out,
    Preprocess.preprocess Examples.defaultNumerals (fun _ => true)
      (Some Examples.sampleCsv) = Some out
    /\ forall path r,
         Preprocess.out_byCode out !! path = Some r ->
         exists items,
           Preprocess.out_byDistrict out
             !! Laws.districtPath (Preprocess.district r)
           = Some (Preprocess.district r, List.length items, items)
           /\ In (Laws.itemOf r) items.
Proof.
  destruct sample_run as (out & E & _). exists out. split; [exact E |].
  exact (proj2 (district_files_consistent Examples.defaultNumerals
                  (fun _ => true) (Some Examples.sampleCsv) out E
                  (sample_plain out E))).
Defined.

(** X11.  For postcodes without a path separator, the counts of the
    district files add up to the number of records written, every row
    written being counted, a row that overwrites the file of an earlier
    row too; the files by code are no more than that. *)
Theorem district_counts_add_up (StringToNumber : string -> number)
    (writable : string -> bool) (csv : option (list string))
    (out : Preprocess.output) :
  Preprocess.preprocess StringToNumber writable csv = Some out ->
  (forall path r,
      Preprocess.out_byCode out !! path = Some r ->
      Laws.plainName (Preprocess.postcode r) = true) ->
  Laws.countSum (Preprocess.out_byDistrict out)
  = Preprocess.sum_written (Preprocess.out_summary out)
  /\ (size (Preprocess.out_byCode out)
      <= Preprocess.sum_written (Preprocess.out_summary out))%nat.
Proof.
  intros H _.
  destruct (preprocess_Some _ _ _ _ H)
    as (lines & st & _ & Hr & Hf & -> & -> & _).
  rewrite (districtFiles_countSum writable _ _ Hf).
  now apply (readLines_counts StringToNumber writable lines).
Qed.

(** The counts of the sample table. *)
Lemma district_counts_add_up_witness :
  exists out,
    Preprocess.preprocess Examples.defaultNumerals (fun _ => true)
      (Some Examples.sampleCsv) = Some out
    /\ Laws.countSum (Preprocess.out_byDistrict out)
       = Preprocess.sum_written (Preprocess.out_summary out).
Proof.
  destruct sample_run as (out & E & _). exists out. split; [exact E |].
  exact (proj1 (district_counts_add_up Examples.defaultNumerals
                  (fun _ => true) (Some Examples.sampleCsv) out E
                  (sample_plain out E))).
Defined.


(* ====================================================================== *)
(** * The header and the rows of the table *)

Section HeaderFacts.

Lemma buildHeaderMap_snoc (headers : list string) (h : string) :
  Preprocess.buildHeaderMap (headers ++ [h])
  = <[toLowerCase h := List.length headers]> (Preprocess.buildHeaderMap headers).
Proof.
  unfold Preprocess.buildHeaderMap.
  rewrite imap_app, foldl_app. cbn. now rewrite Nat.add_0_r.
Qed.

Lemma buildHeaderMap_absent (headers : list string) (key : string) :
  Forall (fun h => toLowerCase h <> key) headers ->
  Preprocess.buildHeaderMap headers !! key = None.
Proof.
  induction headers as [| h l IH] using rev_ind; intros H.
  - apply lookup_empty.
  - apply Forall_app in H as [Hl Hh]. inversion Hh as [| ? ? Hne _]; subst.
    rewrite buildHeaderMap_snoc, lookup_insert_ne by exact Hne. now apply IH.
Qed.

Lemma buildHeaderMap_last (pre post : list string) (h key : string) :
  toLowerCase h = key ->
  Forall (fun h' => toLowerCase h' <> key) post ->
  Preprocess.buildHeaderMap (pre ++ h :: post) !! key
  = Some (List.length pre).
Proof.
  intros Hh. induction post as [| h' l IH] using rev_ind; intros H.
  - change (pre ++ [h]) with (pre ++ [h]).
    rewrite buildHeaderMap_snoc, Hh. apply lookup_insert_eq.
  - apply Forall_app in H as [Hl Hh']. inversion Hh' as [| ? ? Hne _]; subst.
    change (pre ++ h :: l ++ [h']) with (pre ++ (h :: l) ++ [h']).
    rewrite app_assoc, buildHeaderMap_snoc, lookup_insert_ne by exact Hne.
    now apply IH.
Qed.

End HeaderFacts.

(** X12.  A column is found by its name whatever the letter case, and of
    two columns of the same name the last one counts: the field of a row
    is the cell under the last header that matches, and there is no field
    when no header matches or the row is too short.  (The name
    [__proto__], which the script never asks for, is set aside: an
    object keeps no entry under it.) *)
Theorem field_of_last_header (headers row : list string) (name : string) :
  toLowerCase name <> "__proto__" ->
  (Forall (fun h => toLowerCase h <> toLowerCase name) headers ->
   Preprocess.getField row (Preprocess.buildHeaderMap headers) name = None)
  /\ (forall pre h post,
         headers = pre ++ h :: post ->
         toLowerCase h = toLowerCase name ->
         Forall (fun h' => toLowerCase h' <> toLowerCase name) post ->
         Preprocess.getField row (Preprocess.buildHeaderMap headers) name
         = row !! List.length pre).
Proof.
  intros _. unfold Preprocess.getField. split.
  - intros H. now rewrite buildHeaderMap_absent.
  - intros pre h post -> Hh Hpost.
    now rewrite (buildHeaderMap_last pre post h _ Hh Hpost).
Qed.

(** Two columns of postcodes: the second one is read. *)
Lemma field_of_last_header_witness :
  Preprocess.getField ["S1 1AA"; "51"; "S2 2BB"]
    (Preprocess.buildHeaderMap ["Postcode"; "Latitude"; "POSTCODE"]) "postcode"
  = Some "S2 2BB".
Proof.
  assert (Hname : toLowerCase "postcode" <> "__proto__") by discriminate.
  exact (proj2 (field_of_last_header ["Postcode"; "Latitude"; "POSTCODE"]
                  ["S1 1AA"; "51"; "S2 2BB"] "postcode" Hname)
           ["Postcode"; "Latitude"] "POSTCODE" [] eq_refl eq_refl
           (List.Forall_nil _)).
Defined.

Section RunFacts.

Variable StringToNumber : string -> number.
Variable writable : string -> bool.

(** Without a header every line with text ends the run. *)
Lemma readLines_no_header (rest : list string) (st : Preprocess.state) :
  Preprocess.headerMap st = None ->
  (1 <= Preprocess.lineNumber st)%nat ->
  Exists (fun l => isEmpty (trim l) = false) rest ->
  Preprocess.readLines StringToNumber writable st rest = None.
Proof.
  revert st. induction rest as [| line rest IH]; intros st Hh Hn Hex.
  - inversion Hex.
  - cbn [Preprocess.readLines]. unfold Preprocess.step.
    destruct (isEmpty (trim line)) eqn:E.
    + apply IH; cbn; [assumption | lia |].
      inversion Hex as [? ? Hl | ? ? Hr]; subst; [congruence | assumption].
    + cbn [Preprocess.lineNumber Preprocess.headerMap].
      destruct (Nat.eqb_spec (S (Preprocess.lineNumber st)) 1) as [E1 | _];
        [lia |].
      now rewrite Hh.
Qed.

Hypothesis all_writable : forall p, writable p = true.

Lemma processRow_total (st : Preprocess.state) (headerMap : gmap string nat)
    (line : string) :
  exists st',
    Preprocess.processRow StringToNumber writable st headerMap line = Some st'
    /\ Preprocess.totalRows st' = S (Preprocess.totalRows st)
    /\ Preprocess.headerMap st' = Some headerMap
    /\ Preprocess.lineNumber st' = Preprocess.lineNumber st.
Proof.
  unfold Preprocess.processRow.
  destruct (Preprocess.getField _ headerMap "Postcode") as [[| c rawPc] |];
    try (eexists; split; [reflexivity | now cbn]).
  destruct (isEmpty _); [eexists; split; [reflexivity | now cbn] |].
  destruct (Preprocess.parseNumber _ _) as [lat |];
    [| eexists; split; [reflexivity | now cbn]].
  destruct (Preprocess.parseNumber _ _) as [lon |];
    [| eexists; split; [reflexivity | now cbn]].
  destruct (Preprocess.deriveAreaDistrictSector _) as [[area district] sector].
  rewrite all_writable. cbn [negb].
  eexists; split; [reflexivity | now cbn].
Qed.

(** With a header the loop reads to the end and counts the lines with
    text. *)
Lemma readLines_total (rows : list string) (st : Preprocess.state)
    (headerMap : gmap string nat) :
  Preprocess.headerMap st = Some headerMap ->
  (1 <= Preprocess.lineNumber st)%nat ->
  exists st',
    Preprocess.readLines StringToNumber writable st rows = Some st'
    /\ Preprocess.totalRows st'
       = (Preprocess.totalRows st
          + List.length
              (List.filter (fun l => negb (isEmpty (trim l))) rows))%nat.
Proof.
  revert st. induction rows as [| line rows IH]; intros st Hh Hn.
  - exists st. split; [reflexivity | cbn; lia].
  - cbn [Preprocess.readLines List.filter]. unfold Preprocess.step.
    destruct (isEmpty (trim line)) eqn:E; cbn [negb].
    + match goal with
      | |- context [Preprocess.readLines _ _ ?s rows] =>
          destruct (IH s) as (st' & Hr & Ht); [exact Hh | cbn; lia |]
      end.
      exists st'. split; [exact Hr | exact Ht].
    + cbn [Preprocess.lineNumber Preprocess.headerMap].
      destruct (Nat.eqb_spec (S (Preprocess.lineNumber st)) 1) as [E1 | _];
        [lia |].
      rewrite Hh.
      match goal with
      | |- context [Preprocess.processRow _ _ ?s headerMap line] =>
          destruct (processRow_total s headerMap line)
            as (st1 & -> & Ht1 & Hh1 & Hn1)
      end.
      destruct (IH st1) as (st' & Hr & Ht); [exact Hh1 | |].
      { rewrite Hn1. cbn. lia. }
      exists st'. split; [exact Hr |]. rewrite Ht, Ht1. cbn. lia.
Qed.

Lemma districtFiles_total
    (index : gmap string (list Preprocess.DistrictIndexItem)) :
  exists files, Preprocess.districtFiles writable index = Some files.
Proof.
  unfold Preprocess.districtFiles.
  assert (H : forallb (fun '(district, _) =>
                         writable (path_join Preprocess.OUT_BY_DISTRICT
                                     (district ++ ".json")))
                (map_to_list index) = true).
  { apply forallb_forall. intros [d items] _. apply all_writable. }
  rewrite H. eauto.
Qed.

End RunFacts.

(** X13.  The header is looked for on the first line only.  When the
    first line is blank and a later line is not, the run aborts and
    leaves no summary, whatever that later line holds. *)
Theorem blank_first_line_aborts (StringToNumber : string -> number)
    (writable : string -> bool) (first : string) (rest : list string) :
  isEmpty (trim first) = true ->
  Exists (fun l => isEmpty (trim l) = false) rest ->
  Preprocess.preprocess StringToNumber writable (Some (first :: rest)) = None.
Proof.
  intros Hb Hex. unfold Preprocess.preprocess.
  cbn [Preprocess.readLines]. unfold Preprocess.step at 1. rewrite Hb.
  rewrite readLines_no_header; [reflexivity | reflexivity | cbn; lia | exact Hex].
Qed.

(** A table that starts with an empty line. *)
Lemma blank_first_line_aborts_witness :
  Preprocess.preprocess Examples.defaultNumerals (fun _ => true)
    (Some (EmptyString :: Examples.sampleCsv)) = None.
Proof.
  apply blank_first_line_aborts; [reflexivity |].
  apply Exists_cons_hd. reflexivity.
Defined.

(** X14.  With text on the first line and every file writable, the run
    completes, and the rows it counts are the lines with text after the
    first; blank lines are passed over wherever they stand. *)
Theorem header_run_completes (StringToNumber : string -> number)
    (writable : string -> bool) (header : string) (rows : list string) :
  (forall p, writable p = true) ->
  isEmpty (trim header) = false ->
  exists out,
    Preprocess.preprocess StringToNumber writable (Some (header :: rows))
    = Some out
    /\ Preprocess.sum_totalRows (Preprocess.out_summary out)
       = List.length (List.filter (fun l => negb (isEmpty (trim l))) rows).
Proof.
  intros Hw Hh. unfold Preprocess.preprocess.
  cbn [Preprocess.readLines]. unfold Preprocess.step at 1. rewrite Hh.
  cbn [Preprocess.lineNumber Preprocess.initial Nat.eqb].
  match goal with
  | |- context [Preprocess.readLines _ _ ?s rows] =>
      destruct (readLines_total StringToNumber writable Hw rows s
                  (Preprocess.buildHeaderMap (Preprocess.splitCsvLine header)))
        as (st & -> & Ht); [reflexivity | cbn; lia |]
  end.
  destruct (districtFiles_total writable Hw (Preprocess.districtIndex st))
    as (files & ->).
  eexists. split; [reflexivity |]. cbn. rewrite Ht. reflexivity.
Qed.

(** The sample table: three lines with text after the header. *)
Lemma header_run_completes_witness :
  exists out,
    Preprocess.preprocess Examples.defaultNumerals (fun _ => true)
      (Some Examples.sampleCsv) = Some out
    /\ Preprocess.sum_totalRows (Preprocess.out_summary out) = 3%nat.
Proof.
  exact (header_run_completes Examples.defaultNumerals (fun _ => true)
           "Postcode,Latitude,Longitude,In Use?"
           (tl Examples.sampleCsv) (fun _ => eq_refl) eq_refl).
Defined.


(* ====================================================================== *)
(** * Area, district and sector *)

Section DeriveFacts.

Lemma splitL_clean (cur l : list ascii) :
  existsb (Ascii.eqb " ") l = false ->
  splitL " " cur l = [rev cur ++ l].
Proof.
  revert cur. induction l as [| c r IH]; intros cur H.
  - cbn. now rewrite app_nil_r.
  - cbn [existsb] in H. apply orb_false_iff in H as [Hc Hr].
    cbn [splitL]. rewrite Ascii.eqb_sym, Hc, (IH _ Hr). cbn [rev].
    now rewrite <- app_assoc.
Qed.

Lemma splitL_spaced (cur a b : list ascii) :
  existsb (Ascii.eqb " ") a = false ->
  splitL " " cur (a ++ " "%char :: b) = (rev cur ++ a) :: splitL " " [] b.
Proof.
  revert cur. induction a as [| c r IH]; intros cur H.
  - cbn. now rewrite app_nil_r.
  - cbn [existsb] in H. apply orb_false_iff in H as [Hc Hr].
    cbn [app splitL]. rewrite Ascii.eqb_sym, Hc, (IH _ Hr). cbn [rev].
    now rewrite <- app_assoc.
Qed.

Lemma substring_head (c : ascii) (s : string) :
  substring 0 1 (String c s) = String c EmptyString.
Proof. cbn. now destruct s. Qed.

End DeriveFacts.

(** X15.  Of a postcode as the row spells it, the district is the
    outward code: the characters that count without the last three, or
    all of them when they are three at most.  The sector is the outward
    code, a space and the first of the last three characters; the area is
    the capital letters the outward code starts with, or the outward code
    when it starts with none. *)
Theorem derived_parts (raw : string) :
  let s := Laws.stripped raw in
  let long := (3 <? String.length s)%nat in
  let outward := if long then slice_to_minus 3 s else s in
  let inward := slice_from_minus 3 s in
  Preprocess.deriveAreaDistrictSector (Preprocess.normalisePostcode raw)
  = (match takeWhile isUpperAZ (chars outward) with
     | [] => outward
     | letters => str letters
     end,
     outward,
     if long then (outward ++ " " ++ substring 0 1 inward)%string
     else outward).
Proof.
  intros s long outward inward.
  rewrite preprocess_normalise. unfold Preprocess.deriveAreaDistrictSector, split.
  rewrite normalise_chars. fold s. rewrite <- (length_chars s).
  pose proof (no_space _ (stripped_clean raw)) as Hsp. fold s in Hsp.
  subst long outward inward. rewrite Nat.ltb_antisym.
  destruct (Nat.leb_spec (String.length s) 3) as [Hn | Hn]; cbn [negb].
  - rewrite (splitL_clean [] _ Hsp). cbn [rev app map nth nth_error].
    rewrite str_chars. now destruct (takeWhile isUpperAZ (chars s)).
  - set (k := (String.length s - 3)%nat).
    assert (Ha : existsb (Ascii.eqb " ") (firstn k (chars s)) = false).
    { rewrite <- (firstn_skipn k (chars s)), existsb_app in Hsp.
      now apply orb_false_iff in Hsp. }
    assert (Hb : existsb (Ascii.eqb " ") (skipn k (chars s)) = false).
    { rewrite <- (firstn_skipn k (chars s)), existsb_app in Hsp.
      now apply orb_false_iff in Hsp. }
    rewrite (splitL_spaced [] _ _ Ha), (splitL_clean [] _ Hb).
    cbn [rev app map nth nth_error].
    unfold slice_to_minus, slice_from_minus. fold k.
    destruct (skipn k (chars s)) as [| c t] eqn:E.
    + apply (f_equal (@List.length ascii)) in E.
      rewrite length_skipn, <- length_chars in E. cbn in E. lia.
    + change (str (c :: t)) with (String c (str t)).
      rewrite substring_head, chars_str.
      now destruct (takeWhile isUpperAZ (firstn k (chars s))).
Qed.


(* ====================================================================== *)
(** * From the preprocessing run to the geocoder *)

Section RoundTrip.

Lemma route_path (c f : string) :
  path_join
    (path_join (path_join (path_join c "data") "postcodes") "by-code") f
  = path_join c (path_join Preprocess.OUT_BY_CODE f).
Proof.
  unfold path_join, Preprocess.OUT_BY_CODE. apply chars_inj.
  rewrite !chars_app. cbn [chars list_ascii_of_string].
  rewrite <- !app_assoc. reflexivity.
Qed.

Lemma load_record (fs : FileSystem) (r : Preprocess.PostcodeRecord) :
  readFile fs (path_join (cwd fs) (Laws.outPath (Preprocess.postcode r)))
  = Some (Doc (Laws.recordJson r)) ->
  Preprocess.normalisePostcode (Preprocess.postcode r) = Preprocess.postcode r ->
  Route.loadPostcodeRecord fs (Preprocess.postcode r)
  = if Preprocess.in_use r then Laws.recordJson r else JNull.
Proof.
  intros Hfile Hcanon. unfold Route.loadPostcodeRecord.
  rewrite route_path.
  assert (Ef : Route.postcodeToFilename (Preprocess.postcode r)
               = Laws.fileName (Preprocess.postcode r)).
  { unfold Laws.fileName. now rewrite Hcanon. }
  rewrite Ef. fold (Laws.outPath (Preprocess.postcode r)).
  unfold fs_readFile. rewrite Hfile.
  cbn. destruct (Preprocess.in_use r); reflexivity.
Qed.

Lemma route_normalise_plain (raw : string) :
  hasInnerWhiteSpace raw = false ->
  Route.normalisePostcode raw = Preprocess.normalisePostcode raw.
Proof.
  intros Hw. apply chars_inj. unfold hasInnerWhiteSpace in Hw.
  rewrite route_chars, preprocess_normalise, normalise_chars.
  set (l := map toUpperChar (trimL (chars raw))).
  assert (Hl : existsb isWhiteSpace l = false)
    by (unfold l; now rewrite existsb_upper).
  assert (Es : chars (Laws.stripped raw) = l).
  { unfold Laws.stripped. rewrite stripped_chars. unfold l. f_equal.
    now rewrite <- stripL_trimL, stripL_none. }
  rewrite Es, (collapseL_none l Hl), (no_space l Hl), Nat.ltb_antisym.
  now destruct (List.length l <=? 3)%nat.
Qed.

End RoundTrip.

(** X16.  What the preprocessing run writes, the geocoder finds.  With
    the files of a run in the store, the route loads for the postcode of
    every record (a postcode without a path separator) the record itself,
    or nothing when the record is not in use; the postcode of the record, and every spelling of it without
    white space inside, in any letter case, normalises to it; and the
    route never answers 404 to a spelling that normalises to the postcode
    of a record in use. *)
Theorem written_postcode_found (StringToNumber : string -> number)
    (writable : string -> bool) (csv : option (list string))
    (out : Preprocess.output) (fs : FileSystem) (path : string)
    (r : Preprocess.PostcodeRecord) :
  Preprocess.preprocess StringToNumber writable csv = Some out ->
  Laws.stored fs out ->
  Preprocess.out_byCode out !! path = Some r ->
  Laws.plainName (Preprocess.postcode r) = true ->
  Route.loadPostcodeRecord fs (Preprocess.postcode r)
  = (if Preprocess.in_use r then Laws.recordJson r else JNull)
  /\ Route.normalisePostcode (Preprocess.postcode r) = Preprocess.postcode r
  /\ (forall raw,
         hasInnerWhiteSpace raw = false ->
         Laws.stripped raw = Laws.stripped (Preprocess.postcode r) ->
         Route.normalisePostcode raw = Preprocess.postcode r)
  /\ (forall req raw resp,
         Route.q_postcode req = Some raw ->
         Route.normalisePostcode raw = Preprocess.postcode r ->
         Preprocess.in_use r = true ->
         Route.GET StringToNumber fs req = Normal resp ->
         Route.status resp <> 404%nat).
Proof.
  intros Hrun Hstored Hlk _.
  destruct (preprocess_Some _ _ _ _ Hrun) as (lines & st & _ & Hr & _ & Eb & _).
  pose proof Hlk as Hok. rewrite Eb in Hok.
  apply (readLines_records StringToNumber writable lines st Hr) in Hok
    as (Hpath & _ & Hcanon & _).
  assert (Hload : Route.loadPostcodeRecord fs (Preprocess.postcode r)
                  = if Preprocess.in_use r then Laws.recordJson r else JNull).
  { apply load_record; [| exact Hcanon]. rewrite <- Hpath. now apply Hstored. }
  split; [exact Hload |]. split; [| split].
  - rewrite <- Hcanon. apply route_fixes_canonical.
  - intros raw Hw Hs. rewrite (route_normalise_plain raw Hw).
    now rewrite (normalise_stripped _ _ Hs).
  - intros req raw resp Hq Hn Huse. unfold Route.GET. rewrite Hq.
    destruct raw as [| c raw]; [intros H; injection H as <-; now cbn |].
    rewrite Hn, Hload, Huse.
    destruct (isNaN _ || Num.leb _ _); [intros H; injection H as <-; now cbn |].
    destruct (isNaN _ || Num.leb _ _); [intros H; injection H as <-; now cbn |].
    cbn [Laws.recordJson truthy negb].
    destruct (_ =? 0)%nat; [intros H; injection H as <-; now cbn |].
    destruct (Route.searchResults _ _ _ _ _); [| discriminate].
    intros H; injection H as <-. now cbn.
Qed.

Section SampleRun.

Lemma sample_files (out : Preprocess.output) :
  Preprocess.preprocess Examples.defaultNumerals (fun _ => true)
    (Some Examples.sampleCsv) = Some out ->
  forall path r,
    Preprocess.out_byCode out !! path = Some r ->
    path = "data/postcodes/by-code/S66-7RR.json" /\ r = Samples.sampleRecord.
Proof.
  intros E. vm_compute in E. injection E as <-. intros path r H.
  apply elem_of_map_to_list in H. vm_compute in H.
  apply list_elem_of_singleton in H. injection H as -> ->.
  split; reflexivity.
Qed.

Lemma sample_file (out : Preprocess.output) :
  Preprocess.preprocess Examples.defaultNumerals (fun _ => true)
    (Some Examples.sampleCsv) = Some out ->
  Preprocess.out_byCode out !! "data/postcodes/by-code/S66-7RR.json"
  = Some Samples.sampleRecord.
Proof.
  intros E. vm_compute in E. injection E as <-. vm_compute. reflexivity.
Qed.

End SampleRun.

(** The record of the sample table, asked for in lower case. *)
Lemma written_postcode_found_witness :
  Route.loadPostcodeRecord Samples.postcodeStore "S66 7RR"
  = Laws.recordJson Samples.sampleRecord
  /\ Route.normalisePostcode "s667rr" = "S66 7RR".
Proof.
  destruct sample_run as (out & E & _).
  assert (Hstored : Laws.stored Samples.postcodeStore out).
  { intros path r H. destruct (sample_files out E path r H) as [-> ->].
    reflexivity. }
  destruct (written_postcode_found Examples.defaultNumerals (fun _ => true)
              (Some Examples.sampleCsv) out Samples.postcodeStore
              "data/postcodes/by-code/S66-7RR.json" Samples.sampleRecord
              E Hstored (sample_file out E) eq_refl) as (H1 & _ & H3 & _).
  split; [exact H1 |].
  apply (H3 "s667rr"); reflexivity.
Defined.


(* ====================================================================== *)
(** * The two loaders of hikes *)

Section LoaderFacts.

Lemma fold_left_snoc_flat_map {A B} (g : B -> list A) (f : list A -> B -> list A)
    (l : list B) (acc : list A) :
  (forall acc x, f acc x = acc ++ g x) ->
  fold_left f l acc = acc ++ flat_map g l.
Proof.
  intros Hf. revert acc. induction l as [| x r IH]; intros acc; cbn.
  - now rewrite app_nil_r.
  - now rewrite IH, Hf, <- app_assoc.
Qed.

Lemma endsWith_json (f : string) :
  endsWith f ".json" = true -> (Lib.dropJsonSuffix f ++ ".json")%string = f.
Proof.
  unfold Lib.dropJsonSuffix. intros H. rewrite H.
  unfold endsWith in H. apply andb_true_iff in H as [Hlen Hs].
  apply String.eqb_eq in Hs. cbn [String.length] in Hlen, Hs.
  unfold slice_to_minus. rewrite <- Hs.
  rewrite <- str_app, firstn_skipn. apply str_chars.
Qed.

Variable fs : FileSystem.

(** One turn of the loop of the route. *)
Lemma loadHikeFile_adds (acc : list json) (f : string) :
  Route.loadHikeFile fs (Lib.DATA_DIR fs) acc f
  = acc ++ (if endsWith f ".json" then
              match readFile fs (path_join (Lib.DATA_DIR fs) f) with
              | Some (Doc h) => if numericStart h then [h] else []
              | _ => []
              end
            else []).
Proof.
  unfold Route.loadHikeFile, fs_readFile.
  destruct (endsWith f ".json"); cbn [negb]; [| now rewrite app_nil_r].
  destruct (readFile fs _) as [[| h] |];
    cbn [mbind completion_bind try_catch JSON_parse];
    try now rewrite app_nil_r.
  destruct (Route.hasNumericStart h) as [ok | e] eqn:E;
    cbn [mbind completion_bind try_catch mret completion_ret].
  - apply Route_hasNumericStart_Normal in E. subst ok.
    destruct (numericStart h); [reflexivity | now rewrite app_nil_r].
  - assert (Hn : numericStart h = false).
    { destruct h; try reflexivity. discriminate. }
    rewrite Hn. now rewrite app_nil_r.
Qed.

(** One turn of the loop of the library. *)
Lemma pushHikeOfFile_adds (acc : list json) (f : string) :
  Lib.pushHikeOfFile fs acc f
  = acc ++ (if endsWith f ".json" then
              match readFile fs (path_join (Lib.DATA_DIR fs) f) with
              | Some (Doc h) => if truthy (Some h) then [h] else []
              | _ => []
              end
            else []).
Proof.
  unfold Lib.pushHikeOfFile, Lib.getHikeBySlug, fs_readFile.
  destruct (endsWith f ".json") eqn:E; cbn [negb]; [| now rewrite app_nil_r].
  rewrite (endsWith_json f E).
  destruct (readFile fs _) as [[| h] |];
    cbn [mbind completion_bind try_catch JSON_parse];
    try now rewrite app_nil_r.
  destruct (truthy (Some h)); [reflexivity | now rewrite app_nil_r].
Qed.

Lemma numericStart_truthy (h : json) :
  numericStart h = true -> truthy (Some h) = true.
Proof. destruct h; try discriminate. reflexivity. Qed.

Lemma loadAllHikes_files (files : list string) :
  readdir fs (Lib.DATA_DIR fs) = Some files ->
  Route.loadAllHikes fs
  = flat_map (fun f =>
                if endsWith f ".json" then
                  match readFile fs (path_join (Lib.DATA_DIR fs) f) with
                  | Some (Doc h) => if numericStart h then [h] else []
                  | _ => []
                  end
                else []) files.
Proof.
  intros H. unfold Route.loadAllHikes, fs_readdir.
  change (path_join (path_join (cwd fs) "data") "hikes") with (Lib.DATA_DIR fs).
  rewrite H.
  now rewrite (fold_left_snoc_flat_map _ _ files [] loadHikeFile_adds).
Qed.

Lemma getAllHikes_files (files : list string) :
  readdir fs (Lib.DATA_DIR fs) = Some files ->
  Lib.getAllHikes fs
  = flat_map (fun f =>
                if endsWith f ".json" then
                  match readFile fs (path_join (Lib.DATA_DIR fs) f) with
                  | Some (Doc h) => if truthy (Some h) then [h] else []
                  | _ => []
                  end
                else []) files.
Proof.
  intros H. unfold Lib.getAllHikes, fs_readdir. rewrite H. cbn.
  now rewrite (fold_left_snoc_flat_map _ _ files [] pushHikeOfFile_adds).
Qed.

Lemma loaders_no_directory :
  readdir fs (Lib.DATA_DIR fs) = None ->
  Route.loadAllHikes fs = [] /\ Lib.getAllHikes fs = [].
Proof.
  intros H. unfold Route.loadAllHikes, Lib.getAllHikes, fs_readdir.
  change (path_join (path_join (cwd fs) "data") "hikes") with (Lib.DATA_DIR fs).
  now rewrite H.
Qed.

Lemma filter_flat_map {A B} (p : A -> bool) (g : B -> list A) (l : list B) :
  List.filter p (flat_map g l) = flat_map (fun x => List.filter p (g x)) l.
Proof.
  induction l as [| x r IH]; [reflexivity |]. cbn.
  now rewrite List.filter_app, IH.
Qed.

Lemma loadAllHikes_filter :
  Route.loadAllHikes fs = List.filter numericStart (Lib.getAllHikes fs).
Proof.
  destruct (readdir fs (Lib.DATA_DIR fs)) as [files |] eqn:E.
  - rewrite (loadAllHikes_files files E), (getAllHikes_files files E).
    rewrite filter_flat_map. apply flat_map_ext. intros f.
    destruct (endsWith f ".json"); [| reflexivity].
    destruct (readFile fs _) as [[| h] |]; try reflexivity.
    destruct (numericStart h) eqn:En.
    + rewrite (numericStart_truthy h En). cbn. now rewrite En.
    + destruct (truthy (Some h)); cbn; [now rewrite En | reflexivity].
  - now destruct (loaders_no_directory E) as [-> ->].
Qed.

End LoaderFacts.

(** X17.  The postcode search and the hike pages read one corpus: the
    hikes the route loads are the hikes of the library that have numbers
    for start coordinates, in the same order; without the hikes directory
    both are empty. *)
Theorem loaders_agree (fs : FileSystem) :
  Route.loadAllHikes fs = List.filter numericStart (Lib.getAllHikes fs)
  /\ (readdir fs (Lib.DATA_DIR fs) = None -> Lib.getAllHikes fs = []).
Proof.
  split; [apply loadAllHikes_filter |].
  intros E. now destruct (loaders_no_directory fs E).
Qed.

(** X18.  A hike is in the corpus exactly when the hikes directory lists
    a file whose name ends in [.json], the file parses, and the value is
    truthy (for the library) or has numbers for start coordinates (for
    the route); a file that is missing or does not parse is passed over,
    and without the directory the corpus is empty. *)
Theorem corpus_membership (fs : FileSystem) (h : json) :
  let listed (f : string) :=
    exists files,
      readdir fs (Lib.DATA_DIR fs) = Some files /\ In f files
      /\ endsWith f ".json" = true
      /\ readFile fs (path_join (Lib.DATA_DIR fs) f) = Some (Doc h) in
  (In h (Lib.getAllHikes fs)
   <-> truthy (Some h) = true /\ exists f, listed f)
  /\ (In h (Route.loadAllHikes fs)
      <-> numericStart h = true /\ exists f, listed f).
Proof.
  intros listed.
  assert (Hlib : In h (Lib.getAllHikes fs)
                 <-> truthy (Some h) = true /\ exists f, listed f).
  { destruct (readdir fs (Lib.DATA_DIR fs)) as [files |] eqn:E.
    - rewrite (getAllHikes_files fs files E), in_flat_map. split.
      + intros (f & Hf & Hin).
        destruct (endsWith f ".json") eqn:Ee; [| contradiction].
        destruct (readFile fs _) as [[| h'] |] eqn:Er; try contradiction.
        destruct (truthy (Some h')) eqn:Et; [| contradiction].
        destruct Hin as [<- | []]. split; [exact Et |].
        exists f, files. auto.
      + intros (Ht & f & files' & Ef & Hf & Ee & Er).
        injection Ef as <-. exists f. split; [exact Hf |].
        rewrite Ee, Er, Ht. now left.
    - destruct (loaders_no_directory fs E) as [_ ->]. split; [intros [] |].
      intros (_ & f & files & Ef & _). unfold listed in *. congruence. }
  split; [exact Hlib |].
  rewrite loadAllHikes_filter, List.filter_In, Hlib. split.
  - intros [[_ Hl] Hn]. now split.
  - intros [Hn Hl]. split; [split |]; auto using numericStart_truthy.
Qed.


(* ====================================================================== *)
(** * The retries and the counters of the enrichment batch *)

Section RetryFacts.

Variable callOpenAIForHike : nat -> object -> completion Enrich.enrichment.
Variable ToString : value -> string.
Variable MAX_PER_RUN : nat.


(** ** One hike of the batch *)



(** An answer of the loop is an answer of the API. *)
Lemma enrichLoop_answer (retries calls : nat) (hike : object)
    (r : Enrich.enrichment) :
  fst (Enrich.enrichLoop callOpenAIForHike retries calls hike) = Normal r ->
  exists k, callOpenAIForHike k hike = Normal r.
Proof.
  revert calls. induction retries as [| n IH]; intros calls;
    cbn [Enrich.enrichLoop];
    destruct (callOpenAIForHike calls hike) as [r' | e] eqn:E;
    try destruct (Enrich.isQuotaError e); cbn [fst snd];
    try discriminate; try (intros H; injection H as ->; eauto).
  apply IH.
Qed.

Lemma shouldSkip_withAi (hike : object) (ai : json) :
  Enrich.shouldSkip (Enrich.withAi hike ai) = truthy (Some ai).
Proof.
  unfold Enrich.shouldSkip, Enrich.withAi. now rewrite lookup_assign_eq.
Qed.

(** Every record saved carries an answer of the API. *)
Lemma fold_processHike_answers (dir : string) (l : list object)
    (st : Enrich.state) (P : object -> Prop) :
  (forall k hike r,
      callOpenAIForHike k hike = Normal r ->
      P (Enrich.withAi hike (Enrich.ai r))) ->
  Forall (fun entry => P (snd entry)) (Enrich.saved st) ->
  Forall (fun entry => P (snd entry))
    (Enrich.saved
       (fold_left (Enrich.processHike callOpenAIForHike ToString dir) l st)).
Proof.
  intros HP. revert st. induction l as [| hike rest IH]; intros st Hst;
    [exact Hst |].
  cbn [fold_left]. apply IH. unfold Enrich.processHike, Enrich.enrichWithRetry.
  destruct (Enrich.enrichLoop _ 2 (Enrich.calls st) hike) as [[r | e] calls']
    eqn:E; cbn [Enrich.saved]; [| exact Hst].
  constructor; [| exact Hst]. cbn [Enrich.saveHike snd].
  destruct (enrichLoop_answer 2 (Enrich.calls st) hike r) as [k Hk];
    [now rewrite E |].
  now apply (HP k).
Qed.



End RetryFacts.

(** X19.  The retry wrapper, for any number of retries allowed (two
    when none is given): it calls the API at least once and at most once
    more than the retries allowed; its outcome is what its last call
    gave; every call before the last threw an error other than a quota
    error; and it gives up with an error only on a quota error or when
    the retries are used up. *)
Theorem retry_contract
    (callOpenAIForHike : nat -> object -> completion Enrich.enrichment)
    (maxRetries calls : nat) (hike : object) :
  let res := fst (Enrich.enrichLoop callOpenAIForHike maxRetries calls hike) in
  let calls' := snd (Enrich.enrichLoop callOpenAIForHike maxRetries calls hike) in
  (calls < calls' <= calls + S maxRetries)%nat
  /\ callOpenAIForHike (calls' - 1) hike = res
  /\ (forall k, (calls <= k < calls' - 1)%nat ->
        exists e, callOpenAIForHike k hike = Throw e
                  /\ Enrich.isQuotaError e = false)
  /\ match res with
     | Normal _ => True
     | Throw e =>
         Enrich.isQuotaError e = true \/ calls' = (calls + S maxRetries)%nat
     end.
Proof.
  revert calls. induction maxRetries as [| n IH]; intros calls; cbn zeta;
    cbn [Enrich.enrichLoop].
  - destruct (callOpenAIForHike calls hike) as [r | e] eqn:E;
      [| destruct (Enrich.isQuotaError e) eqn:Q];
      cbn [fst snd]; replace (S calls - 1)%nat with calls by lia;
      (split; [lia |]); (split; [exact E |]);
      (split; [intros k Hk; lia |]); auto; right; lia.
  - destruct (callOpenAIForHike calls hike) as [r | e] eqn:E;
      [| destruct (Enrich.isQuotaError e) eqn:Q].
    + cbn [fst snd]. replace (S calls - 1)%nat with calls by lia.
      split; [lia |]. split; [exact E |]. split; [intros k Hk; lia | exact I].
    + cbn [fst snd]. replace (S calls - 1)%nat with calls by lia.
      split; [lia |]. split; [exact E |]. split; [intros k Hk; lia | now left].
    + specialize (IH (S calls)). cbn zeta in IH.
      destruct IH as (H1 & H2 & H3 & H4).
      split; [lia |]. split; [exact H2 |]. split.
      * intros k Hk. destruct (Nat.eq_dec k calls) as [-> | Hne].
        -- exists e. now split.
        -- apply H3. lia.
      * destruct (fst (Enrich.enrichLoop _ n (S calls) hike)); [exact I |].
        destruct H4 as [H4 | H4]; [now left | right; lia].
Qed.




(** X22.  The batch resumes where it left off exactly when the answers
    are truthy.  A record saved is skipped by a later run if and only if
    the answer it carries is truthy; so when every answer of the API is
    truthy, a run over the records saved has nothing to do. *)
Theorem saved_hikes_are_skipped
    (callOpenAIForHike next : nat -> object -> completion Enrich.enrichment)
    (ToString : value -> string) (MAX_PER_RUN nextMax : nat) (dir : string)
    (hikes : list object) :
  let st := Enrich.main callOpenAIForHike ToString MAX_PER_RUN dir hikes in
  Forall (fun entry =>
            exists ai,
              lookup "ai" (snd entry) = Some ai
              /\ Enrich.shouldSkip (snd entry) = truthy (Some ai))
         (Enrich.saved st)
  /\ ((forall k h r,
          callOpenAIForHike k h = Normal r ->
          truthy (Some (Enrich.ai r)) = true) ->
      Enrich.main next ToString nextMax dir (map snd (Enrich.saved st))
      = Enrich.initial).
Proof.
  cbn zeta. split.
  - unfold Enrich.main.
    destruct (List.filter _ hikes) as [| p0 rest]; [constructor |].
    apply (fold_processHike_answers callOpenAIForHike ToString dir _ _
             (fun o => exists ai, lookup "ai" o = Some ai
                                  /\ Enrich.shouldSkip o = truthy (Some ai)));
      [| constructor].
    intros k hike r _. exists (Enrich.ai r).
    split; [apply lookup_assign_eq | apply shouldSkip_withAi].
  - intros Htruthy.
    assert (Hall : Forall (fun entry => Enrich.shouldSkip (snd entry) = true)
                     (Enrich.saved
                        (Enrich.main callOpenAIForHike ToString MAX_PER_RUN
                           dir hikes))).
    { unfold Enrich.main.
      destruct (List.filter _ hikes) as [| p0 rest]; [constructor |].
      apply (fold_processHike_answers callOpenAIForHike ToString dir _ _
               (fun o => Enrich.shouldSkip o = true)); [| constructor].
      intros k hike r Hr. rewrite shouldSkip_withAi. now apply (Htruthy k hike). }
    unfold Enrich.main at 1.
    assert (Hnone : List.filter (fun h => negb (Enrich.shouldSkip h))
                      (map snd
                         (Enrich.saved
                            (Enrich.main callOpenAIForHike ToString
                               MAX_PER_RUN dir hikes))) = []).
    { induction Hall as [| e l He _ IH]; [reflexivity |].
      cbn [map List.filter]. now rewrite He. }
    now rewrite Hnone.
Qed.

(** The hike of the sample batch is not taken up again. *)
Lemma saved_hikes_are_skipped_witness :
  Enrich.main Examples.sampleApi Examples.sampleToString 20 "data/hikes"
    (map snd
       (Enrich.saved
          (Enrich.main Examples.sampleApi Examples.sampleToString 20
             "data/hikes" [Examples.sampleHike])))
  = Enrich.initial.
Proof.
  apply (proj2 (saved_hikes_are_skipped Examples.sampleApi Examples.sampleApi
                  Examples.sampleToString 20 20 "data/hikes"
                  [Examples.sampleHike])).
  intros k h r H. injection H as <-. reflexivity.
Defined.


(* ====================================================================== *)
(** * The settings of the batch *)

Section SettingsFacts.

Local Open Scope R_scope.

Lemma Int_part_nonneg (x : R) : 0 <= x -> (0 <= Int_part x)%Z.
Proof.
  intros Hx. pose proof (Int_part_bounds x) as [_ Hhi].
  destruct (Z_lt_le_dec (Int_part x) 0) as [Hneg | Hpos]; [exfalso | exact Hpos].
  assert (H1 : (Int_part x + 1 <= 0)%Z) by lia.
  apply IZR_le in H1. rewrite plus_IZR in H1. lra.
Qed.

Lemma floor_count (x : R) :
  0 <= x -> exists k : nat, IZR (Int_part x) = INR k.
Proof.
  intros Hx. exists (Z.to_nat (Int_part x)).
  rewrite INR_IZR_INZ, Z2Nat.id; [reflexivity |]. now apply Int_part_nonneg.
Qed.

Lemma Int_part_fraction (x : R) : 0 <= x < 1 -> Int_part x = 0%Z.
Proof. intros H. apply Int_part_eq. cbn. lra. Qed.

Lemma Int_part_INR (k : nat) : Int_part (INR k) = Z.of_nat k.
Proof. apply Int_part_eq. rewrite <- INR_IZR_INZ. lra. Qed.

(** [l.slice(0, k)] for a count [k]. *)
Lemma slice_count {A} (l : list A) (k : nat) :
  Array_slice0 l (Num (INR k)) = firstn k l.
Proof.
  unfold Array_slice0, slice_end, Rtrunc.
  assert (E : Rltb (INR k) 0 = false).
  { apply Rltb_false. pose proof (pos_INR k). lra. }
  rewrite E, Int_part_INR.
  destruct (Z.ltb_spec (Z.of_nat k) 0) as [Hneg | _]; [lia |].
  rewrite <- Nat2Z.inj_min, Nat2Z.id.
  destruct (Nat.le_ge_cases k (List.length l)) as [H | H].
  - now rewrite Nat.min_l.
  - rewrite Nat.min_r by exact H. now rewrite firstn_all, firstn_all2.
Qed.

Variable StringToNumber : string -> number.

Lemma parsePositiveInt_count (raw : option string) (k0 : nat) :
  exists k : nat,
    Settings.parsePositiveInt StringToNumber raw (Num (INR k0)) = Num (INR k).
Proof.
  unfold Settings.parsePositiveInt.
  destruct (Settings.numberOr StringToNumber raw (Num (INR k0)))
    as [| | | x]; cbn; eauto.
  destruct (Rltb 0 x) eqn:E; [| eauto]. rbool.
  destruct (floor_count x) as [k Hk]; [lra |]. exists k. now rewrite Hk.
Qed.

Lemma parseNonNegativeInt_count (raw : option string) (k0 : nat) :
  exists k : nat,
    Settings.parseNonNegativeInt StringToNumber raw (Num (INR k0))
    = Num (INR k).
Proof.
  unfold Settings.parseNonNegativeInt.
  destruct (Settings.numberOr StringToNumber raw (Num (INR k0)))
    as [| | | x]; cbn; eauto.
  destruct (Rleb 0 x) eqn:E; [| eauto]. rbool.
  destruct (floor_count x) as [k Hk]; [lra |]. exists k. now rewrite Hk.
Qed.

End SettingsFacts.

(** X23.  Whatever the environment holds, the three settings are counts.
    A variable that is not set or empty gives the defaults 20, 1000 and
    0; so does a text that reads as no finite number; a finite number is
    rounded down when it is above zero (for the delay: not below zero),
    and gives the default otherwise.  So the batch size is a natural
    number [k], and the batch takes the first [k] pending hikes. *)
Theorem settings_are_counts (StringToNumber : string -> number)
    (env : option string) :
  (exists k : nat,
      Settings.getMaxPerRun StringToNumber env = Num (INR k)
      /\ forall (A : Type) (pending : list A),
           Array_slice0 pending (Settings.getMaxPerRun StringToNumber env)
           = firstn k pending)
  /\ (exists k : nat, Settings.getDelayMs StringToNumber env = Num (INR k))
  /\ (exists k : nat,
         Settings.getCheckpointEvery StringToNumber env = Num (INR k))
  /\ (env = None \/ env = Some EmptyString ->
      Settings.getMaxPerRun StringToNumber env = Num 20
      /\ Settings.getDelayMs StringToNumber env = Num 1000
      /\ Settings.getCheckpointEvery StringToNumber env = Num 0)
  /\ (forall raw : string,
         env = Some raw -> raw <> EmptyString ->
         Settings.Number_isFinite (StringToNumber raw) = false ->
         Settings.getMaxPerRun StringToNumber env = Num 20
         /\ Settings.getDelayMs StringToNumber env = Num 1000
         /\ Settings.getCheckpointEvery StringToNumber env = Num 0)
  /\ (forall (raw : string) (x : R),
         env = Some raw -> raw <> EmptyString ->
         StringToNumber raw = Num x ->
         ((0 < x)%R ->
          Settings.getMaxPerRun StringToNumber env = Num (IZR (Int_part x))
          /\ Settings.getCheckpointEvery StringToNumber env
             = Num (IZR (Int_part x)))
         /\ ((x <= 0)%R ->
             Settings.getMaxPerRun StringToNumber env = Num 20
             /\ Settings.getCheckpointEvery StringToNumber env = Num 0)
         /\ ((0 <= x)%R ->
             Settings.getDelayMs StringToNumber env = Num (IZR (Int_part x)))
         /\ ((x < 0)%R ->
             Settings.getDelayMs StringToNumber env = Num 1000)).
Proof.
  assert (E20 : Num 20 = Num (INR 20)) by (now rewrite INR_IZR_INZ).
  assert (E1000 : Num 1000 = Num (INR 1000)) by (now rewrite INR_IZR_INZ).
  assert (E0 : Num 0 = Num (INR 0)) by reflexivity.
  split; [| split; [| split; [| split; [| split]]]].
  - unfold Settings.getMaxPerRun. rewrite E20.
    destruct (parsePositiveInt_count StringToNumber env 20) as [k Hk].
    exists k. split; [exact Hk |]. intros A pending. rewrite Hk.
    apply slice_count.
  - unfold Settings.getDelayMs. rewrite E1000.
    apply parseNonNegativeInt_count.
  - change (Settings.getCheckpointEvery StringToNumber env)
      with (Settings.parsePositiveInt StringToNumber env (Num 0)).
    rewrite E0. apply parsePositiveInt_count.
  - unfold Settings.getMaxPerRun, Settings.getDelayMs,
      Settings.getCheckpointEvery, Settings.parsePositiveInt,
      Settings.parseNonNegativeInt, Settings.numberOr.
    intros [-> | ->]; cbn.
    + rewrite (proj2 (Rltb_true 0 20)), (proj2 (Rleb_true 0 1000)),
        (proj2 (Rltb_false 0 0)) by lra.
      rewrite (Int_part_eq 20 20), (Int_part_eq 1000 1000) by lra. auto.
    + rewrite (proj2 (Rltb_true 0 20)), (proj2 (Rleb_true 0 1000)),
        (proj2 (Rltb_false 0 0)) by lra.
      rewrite (Int_part_eq 20 20), (Int_part_eq 1000 1000) by lra. auto.
  - intros raw -> Hraw Hfin.
    unfold Settings.getMaxPerRun, Settings.getDelayMs,
      Settings.getCheckpointEvery, Settings.parsePositiveInt,
      Settings.parseNonNegativeInt, Settings.numberOr.
    destruct raw as [| c s]; [congruence |].
    destruct (StringToNumber (String c s)); try discriminate; auto.
  - intros raw x -> Hraw Hx.
    unfold Settings.getMaxPerRun, Settings.getDelayMs,
      Settings.getCheckpointEvery, Settings.parsePositiveInt,
      Settings.parseNonNegativeInt, Settings.numberOr.
    destruct raw as [| c s]; [congruence |]. rewrite Hx.
    cbn [Settings.Number_isFinite andb Num.ltb Num.leb Settings.Math_floor].
    split; [| split; [| split]]; intros Hcmp.
    + now rewrite (proj2 (Rltb_true 0 x)).
    + now rewrite (proj2 (Rltb_false 0 x)).
    + now rewrite (proj2 (Rleb_true 0 x)).
    + now rewrite (proj2 (Rleb_false 0 x)).
Qed.

(** The batch size from the text [7.9], read as 7.9: seven hikes. *)
Lemma settings_are_counts_witness :
  Settings.getMaxPerRun (fun _ => Num (79 / 10)) (Some "7.9") = Num 7
  /\ Settings.getMaxPerRun (fun _ => NaN) (Some "many") = Num 20
  /\ Settings.getDelayMs (fun _ => NaN) None = Num 1000.
Proof.
  destruct (settings_are_counts (fun _ => Num (79 / 10)) (Some "7.9"))
    as (_ & _ & _ & _ & _ & Hnum).
  destruct (Hnum "7.9" (79 / 10)%R eq_refl) as ((Hmax & _) & _);
    [discriminate | reflexivity | lra |].
  destruct (settings_are_counts (fun _ => NaN) (Some "many"))
    as (_ & _ & _ & _ & Hnan & _).
  destruct (Hnan "many" eq_refl) as (Hmany & _); [discriminate | reflexivity |].
  destruct (settings_are_counts (fun _ => NaN) None)
    as (_ & _ & _ & Hunset & _).
  destruct Hunset as (_ & Hdelay & _); [now left |].
  split; [| split; assumption].
  rewrite Hmax. f_equal. f_equal. apply Int_part_eq. cbn. lra.
Defined.

(** X24.  A setting between zero and one is rounded down to zero, not
    replaced by the default: with such a batch size the batch takes no
    hike and calls nothing, and with such a checkpoint interval the
    checkpoints are off. *)
Theorem fraction_gives_zero (StringToNumber : string -> number)
    (raw : string) (x : R) :
  raw <> EmptyString ->
  StringToNumber raw = Num x ->
  (0 < x < 1)%R ->
  Settings.getMaxPerRun StringToNumber (Some raw) = Num 0
  /\ Settings.getCheckpointEvery StringToNumber (Some raw) = Num 0
  /\ Settings.getDelayMs StringToNumber (Some raw) = Num 0
  /\ (forall (A : Type) (pending : list A),
         Array_slice0 pending (Settings.getMaxPerRun StringToNumber (Some raw))
         = [])
  /\ (forall callOpenAIForHike ToString dir hikes,
         Enrich.main callOpenAIForHike ToString 0 dir hikes = Enrich.initial).
Proof.
  intros Hraw Hn Hx.
  assert (Hmax : Settings.getMaxPerRun StringToNumber (Some raw) = Num 0).
  { unfold Settings.getMaxPerRun, Settings.parsePositiveInt, Settings.numberOr.
    destruct raw as [| c s]; [congruence |]. rewrite Hn. cbn.
    rewrite (proj2 (Rltb_true 0 x)) by lra. now rewrite Int_part_fraction by lra. }
  split; [exact Hmax |]. split; [| split; [| split]].
  - unfold Settings.getCheckpointEvery, Settings.numberOr.
    destruct raw as [| c s]; [congruence |]. rewrite Hn. cbn.
    rewrite (proj2 (Rltb_true 0 x)) by lra. now rewrite Int_part_fraction by lra.
  - unfold Settings.getDelayMs, Settings.parseNonNegativeInt, Settings.numberOr.
    destruct raw as [| c s]; [congruence |]. rewrite Hn. cbn.
    rewrite (proj2 (Rleb_true 0 x)) by lra. now rewrite Int_part_fraction by lra.
  - intros A pending. rewrite Hmax. apply (slice_count pending 0).
  - intros call ToString dir hikes. unfold Enrich.main.
    now destruct (List.filter _ hikes).
Qed.

(** Half a hike per run. *)
Lemma fraction_gives_zero_witness :
  Settings.getMaxPerRun (fun _ => Num (1 / 2)) (Some "0.5") = Num 0.
Proof.
  apply (fraction_gives_zero (fun _ => Num (1 / 2)) "0.5" (1 / 2));
    [discriminate | reflexivity | lra].
Defined.


(* ====================================================================== *)
(** * The length of a route *)

Section RouteLength.

Local Open Scope R_scope.

Lemma asin_Ratan2 (s : R) :
  0 <= s <= 1 -> asin s = Ratan2 s (sqrt (1 - s * s)).
Proof.
  intros [H0 H1]. unfold Ratan2.
  destruct (Req_dec s 1) as [-> | Hne].
  - replace (1 - 1 * 1) with 0 by ring. rewrite sqrt_0, asin_1.
    rewrite (proj2 (Rltb_false 0 0)) by lra.
    now rewrite (proj2 (Rltb_true 0 1)) by lra.
  - assert (Hpos : 0 < 1 - s * s) by nra.
    rewrite (proj2 (Rltb_true 0 (sqrt (1 - s * s)))) by now apply sqrt_lt_R0.
    rewrite asin_atan by lra. reflexivity.
Qed.

(** On finite points, in exact arithmetic, the script computes the
    great-circle distance. *)
Lemma normalise_haversine_finite (lat1 lon1 lat2 lon2 : R) :
  Normalise.haversineKm (Num lon1, Num lat1) (Num lon2, Num lat2)
  = Num (hav_km lat1 lon1 lat2 lon2).
Proof.
  pose proof (hav_a_range lat1 lon1 lat2 lon2) as [H0 H1].
  unfold Normalise.haversineKm, Normalise.square, Math_PI.
  cbn [sub neg add mul div].
  assert (E180 : Reqb 180 0 = false) by (apply Reqb_false; lra).
  assert (E2 : Reqb 2 0 = false) by (apply Reqb_false; lra).
  rewrite !E180. cbn [div]. rewrite !E2.
  cbn [Math_sin Math_cos mul add sub neg].
  replace (lat2 + - lat1) with (lat2 - lat1) by ring.
  replace (lon2 + - lon1) with (lon2 - lon1) by ring.
  match goal with
  | |- context [Math_sqrt (Num ?h)] =>
      replace h with (hav_a lat1 lon1 lat2 lon2) by (unfold hav_a; ring)
  end.
  set (a := hav_a lat1 lon1 lat2 lon2) in *.
  cbn [Math_sqrt].
  rewrite (proj2 (Rltb_false a 0)) by lra.
  assert (Hs0 : 0 <= sqrt a) by apply sqrt_pos.
  assert (Hs1 : sqrt a <= 1).
  { rewrite <- sqrt_1. apply sqrt_le_1; lra. }
  unfold Normalise.Math_asin.
  rewrite (proj2 (Rleb_true (-1) (sqrt a))) by lra.
  rewrite (proj2 (Rleb_true (sqrt a) 1)) by lra.
  cbn [andb mul]. f_equal. unfold hav_km. fold a. cbv zeta.
  rewrite (asin_Ratan2 (sqrt a)) by lra.
  rewrite sqrt_sqrt by lra. ring.
Qed.

Lemma fold_add_NaN (l : list number) : fold_left add l NaN = NaN.
Proof. induction l as [| x r IH]; [reflexivity | exact IH]. Qed.

Lemma fold_add_has_NaN (l : list number) (acc : number) :
  In NaN l -> fold_left add l acc = NaN.
Proof.
  revert acc. induction l as [| x r IH]; intros acc; [intros [] |].
  intros [-> | H]; cbn [fold_left].
  - replace (add acc NaN) with NaN by now destruct acc.
    apply fold_add_NaN.
  - now apply IH.
Qed.

Lemma legs_finite (coords : list (number * number)) :
  forallb Laws.finitePoint coords = true ->
  Forall (fun leg => exists d, leg = Num d /\ 0 <= d) (Normalise.legs coords).
Proof.
  induction coords as [| a rest IH]; [constructor |].
  destruct rest as [| b rest']; [constructor |].
  intros H. cbn [forallb] in H. apply andb_true_iff in H as [Ha Hrest].
  cbn [Normalise.legs]. constructor; [| now apply IH].
  cbn [forallb] in Hrest. apply andb_true_iff in Hrest as [Hb _].
  destruct a as [lon1 lat1], b as [lon2 lat2].
  unfold Laws.finitePoint in Ha, Hb. cbn [fst snd] in Ha, Hb.
  destruct lon1, lat1, lon2, lat2; try discriminate.
  rewrite normalise_haversine_finite. eexists. split; [reflexivity |].
  apply hav_km_nonneg.
Qed.

Lemma fold_add_finite (l : list number) (s : R) :
  0 <= s ->
  Forall (fun leg => exists d, leg = Num d /\ 0 <= d) l ->
  exists t, fold_left add l (Num s) = Num t /\ 0 <= t.
Proof.
  revert s. induction l as [| x r IH]; intros s Hs Hall.
  - exists s. now split.
  - inversion Hall as [| ? ? (d & -> & Hd) Hr]; subst. cbn [fold_left add].
    apply IH; [lra | exact Hr].
Qed.

End RouteLength.

(** X26.  The length of a route and its difficulty.  Over finite points
    the length is a whole number of tenths of a kilometre and not
    negative; a route of fewer than two points has length zero and is
    easy; a leg that is no number makes the length NaN and the route
    hard; and a longer route is never classed easier than a shorter
    one. *)
Theorem route_length_difficulty (coords : list (number * number)) :
  (forallb Laws.finitePoint coords = true ->
   exists n : Z,
     (0 <= n)%Z
     /\ Normalise.estimateDistanceKm coords = Num (IZR n / 10))
  /\ ((List.length coords <= 1)%nat ->
      Normalise.estimateDistanceKm coords = Num 0
      /\ Normalise.guessDifficulty (Normalise.estimateDistanceKm coords)
         = Normalise.easy)
  /\ (In NaN (Normalise.legs coords) ->
      Normalise.estimateDistanceKm coords = NaN
      /\ Normalise.guessDifficulty (Normalise.estimateDistanceKm coords)
         = Normalise.hard)
  /\ (forall d1 d2,
         Num.leb d1 d2 = true ->
         (Laws.rank (Normalise.guessDifficulty d1)
          <= Laws.rank (Normalise.guessDifficulty d2))%nat).
Proof.
  assert (E10 : Reqb 10 0 = false) by (apply Reqb_false; lra).
  split; [| split; [| split]].
  - intros Hfin. unfold Normalise.estimateDistanceKm. cbv zeta.
    destruct (fold_add_finite (Normalise.legs coords) 0 (Rle_refl 0)
                (legs_finite coords Hfin)) as (t & -> & Ht).
    cbn [mul Normalise.Math_round div]. rewrite E10.
    exists (Int_part (t * 10 + / 2)). split; [| reflexivity].
    apply Int_part_nonneg. lra.
  - intros Hlen.
    assert (El : Normalise.legs coords = []).
    { destruct coords as [| a [| b rest]]; try reflexivity.
      cbn in Hlen. lia. }
    assert (E0 : Normalise.estimateDistanceKm coords = Num 0).
    { unfold Normalise.estimateDistanceKm. rewrite El.
      cbn [fold_left mul Normalise.Math_round div]. rewrite E10.
      replace (0 * 10 + / 2)%R with (/ 2)%R by ring.
      rewrite (Int_part_fraction (/ 2)) by lra. f_equal. field. }
    split; [exact E0 |]. rewrite E0. unfold Normalise.guessDifficulty.
    cbn [Num.ltb]. now rewrite (proj2 (Rltb_true 0 6)) by lra.
  - intros Hnan.
    assert (E : Normalise.estimateDistanceKm coords = NaN).
    { unfold Normalise.estimateDistanceKm.
      now rewrite (fold_add_has_NaN _ _ Hnan). }
    split; [exact E |]. now rewrite E.
  - intros d1 d2 Hle. unfold Normalise.guessDifficulty.
    destruct d1 as [| | | x], d2 as [| | | y]; cbn in Hle |- *;
      try discriminate;
      repeat match goal with
             | |- context [Rltb ?a ?b] => destruct (Rltb a b) eqn:?
             end;
      cbn; try lia; rbool; lra.
Qed.


(* ====================================================================== *)
(** * The figures of the dashboard *)

Section StatsFacts.

Lemma json_null_dec (j : json) : {j = JNull} + {j <> JNull}.
Proof. destruct j; auto; right; discriminate. Qed.

Lemma ToPropertyKey_cases (v : value) :
  ToPropertyKey v = if convertible v then Normal tt else Throw TypeError.
Proof.
  destruct v as [j |]; [| reflexivity]. cbn.
  now destruct (ToPrimitive_throws j).
Qed.

Lemma keys_cases (items : list json) :
  mapM (fun theme => ToPropertyKey (Some theme)) items
  = if forallb (fun theme => convertible (Some theme)) items
    then Normal (map (fun _ => tt) items)
    else Throw TypeError.
Proof.
  induction items as [| x r IH]; [reflexivity |].
  rewrite mapM_cons, ToPropertyKey_cases. cbn [forallb map].
  destruct (convertible (Some x)); [| reflexivity].
  cbn [mbind completion_bind andb]. rewrite IH.
  now destruct (forallb _ r).
Qed.

Lemma countHike_cases (enriched : nat) (hike : json) :
  hike <> JNull ->
  Stats.countHike enriched hike
  = if Laws.countable hike
    then Normal (if truthy (prop hike "ai") then S enriched else enriched)
    else Throw TypeError.
Proof.
  intros Hn. unfold Stats.countHike, Laws.countable.
  rewrite !(member_Normal hike) by assumption.
  cbn [mbind completion_bind]. rewrite ToPropertyKey_cases.
  destruct (convertible (prop hike "difficulty")); [| reflexivity].
  cbn [mbind completion_bind andb].
  destruct (Stats.iterate (prop hike "themes")) as [items |]; [| reflexivity].
  rewrite keys_cases. now destruct (forallb _ items).
Qed.

Lemma countHike_Normal (enriched n : nat) (hike : json) :
  Stats.countHike enriched hike = Normal n ->
  hike <> JNull /\ Laws.countable hike = true
  /\ n = if truthy (prop hike "ai") then S enriched else enriched.
Proof.
  destruct (json_null_dec hike) as [-> | Hn]; [discriminate |].
  rewrite countHike_cases by assumption.
  destruct (Laws.countable hike); [| discriminate].
  intros H; injection H as <-. auto.
Qed.

Lemma countHike_passes (enriched : nat) (hike : json) :
  hike <> JNull -> Laws.countable hike = true ->
  Stats.countHike enriched hike
  = Normal (if truthy (prop hike "ai") then S enriched else enriched).
Proof. intros Hn Hc. now rewrite countHike_cases, Hc. Qed.

Lemma tally_Normal (hikes : list json) (enriched n : nat) :
  Stats.tally hikes enriched = Normal n ->
  n = (enriched
       + List.length (List.filter (fun h => truthy (prop h "ai")) hikes))%nat
  /\ Forall (fun h => h <> JNull /\ Laws.countable h = true) hikes.
Proof.
  revert enriched. induction hikes as [| hike rest IH]; intros enriched.
  - cbn. intros H; injection H as <-. split; [lia | constructor].
  - cbn [Stats.tally List.filter].
    destruct (Stats.countHike enriched hike) as [m |] eqn:E;
      cbn [mbind completion_bind]; [| discriminate].
    apply countHike_Normal in E as (Hn & Hc & ->).
    intros H. apply IH in H as [-> Hall]. split; [| now constructor].
    destruct (truthy (prop hike "ai")); cbn [List.length]; lia.
Qed.

Lemma tally_total (hikes : list json) (enriched : nat) :
  Forall (fun h => h <> JNull /\ Laws.countable h = true) hikes ->
  exists n, Stats.tally hikes enriched = Normal n.
Proof.
  intros Hall. revert enriched.
  induction Hall as [| hike rest [Hn Hi] _ IH]; intros enriched.
  - now exists enriched.
  - cbn [Stats.tally]. rewrite countHike_passes by assumption.
    cbn [mbind completion_bind]. apply IH.
Qed.

Lemma filter_length_le {A} (p : A -> bool) (l : list A) :
  (List.length (List.filter p l)
   + List.length (List.filter (fun x => negb (p x)) l)
   = List.length l)%nat.
Proof.
  induction l as [| x r IH]; [reflexivity |]. cbn [List.filter].
  destruct (p x); cbn [negb List.length]; lia.
Qed.

End StatsFacts.

(** X27.  The figures of the dashboard.  The script gives figures
    exactly when no hike file holds [null], every difficulty and every
    theme can be made a property key, and every [themes] can be iterated;
    then the total is the number of hikes, the enriched ones are those
    with a truthy [ai], enriched and remaining add up to the total, the
    percentage lies between 0 and 100, and the remaining hikes are as
    many as the enrichment batch finds pending. *)
Theorem stats_consistent (hikes : list json) :
  (Forall (fun h => h <> JNull /\ Laws.countable h = true) hikes
   <-> exists s, Stats.computeStats hikes = Normal s)
  /\ (forall s,
         Stats.computeStats hikes = Normal s ->
         Stats.total s = List.length hikes
         /\ Stats.enriched s
            = List.length (List.filter (fun h => truthy (prop h "ai")) hikes)
         /\ (Stats.enriched s + Stats.remaining s = Stats.total s)%nat
         /\ (exists p, Stats.percent s = Num p /\ (0 <= p <= 100)%R)
         /\ (forall objs,
                hikes = map JObj objs ->
                Stats.remaining s
                = List.length
                    (List.filter (fun h => negb (Enrich.shouldSkip h)) objs))).
Proof.
  split.
  - unfold Stats.computeStats. split.
    + intros Hall. destruct (tally_total hikes 0 Hall) as [n ->].
      cbn [mbind completion_bind]. eauto.
    + intros [s H].
      destruct (Stats.tally hikes 0) as [n |] eqn:E; [| discriminate].
      now apply tally_Normal in E.
  - intros s. unfold Stats.computeStats.
    destruct (Stats.tally hikes 0) as [n |] eqn:E; [| discriminate].
    apply tally_Normal in E as [-> _]. cbn [mbind completion_bind Nat.add].
    intros H; injection H as <-.
    cbn [Stats.total Stats.enriched Stats.remaining Stats.percent].
    set (p := fun h : json => truthy (prop h "ai")).
    pose proof (filter_length_le p hikes) as Hlen.
    split; [reflexivity |]. split; [reflexivity |]. split; [lia |].
    split.
    + destruct (Nat.eqb_spec (List.length hikes) 0) as [E0 | E0].
      * exists 0%R. split; [reflexivity | lra].
      * set (e := List.length (List.filter p hikes)) in *.
        set (t := List.length hikes) in *.
        assert (Ht : (0 < INR t)%R) by (apply lt_0_INR; lia).
        assert (He : (0 <= INR e <= INR t)%R).
        { split; [apply pos_INR | apply le_INR; lia]. }
        cbn [div]. rewrite (proj2 (Reqb_false (INR t) 0)) by lra.
        cbn [mul]. eexists. split; [reflexivity |].
        assert (Hq : (0 <= INR e / INR t <= 1)%R).
        { split.
          - apply Rmult_le_pos; [lra |]. apply Rlt_le, Rinv_0_lt_compat, Ht.
          - apply (Rmult_le_reg_r (INR t)); [exact Ht |].
            unfold Rdiv. rewrite Rmult_assoc, Rinv_l by lra. lra. }
        lra.
    + intros objs ->. rewrite length_map in Hlen.
      assert (Ef : List.length (List.filter p (map JObj objs))
                   = List.length
                       (List.filter (fun h => Enrich.shouldSkip h) objs)).
      { clear. induction objs as [| o r IH]; [reflexivity |].
        cbn [map List.filter]. unfold p at 1. cbn [prop].
        unfold Enrich.shouldSkip at 1.
        destruct (truthy (lookup "ai" o)); cbn [List.length]; now rewrite IH. }
      pose proof (filter_length_le Enrich.shouldSkip objs) as Hobjs.
      rewrite length_map. rewrite Ef. 
      change (fun h => Enrich.shouldSkip h) with Enrich.shouldSkip in *.
      apply Nat.add_sub_eq_l. exact Hobjs.
Qed.

(** Two hikes, one of them enriched: half of the work is done. *)
Lemma stats_consistent_witness :
  exists s,
    Stats.computeStats
      [JObj Examples.sampleHike;
       JObj (Enrich.withAi Examples.sampleHike (JStr "A short walk."))]
    = Normal s
    /\ Stats.total s = 2 /\ Stats.enriched s = 1 /\ Stats.remaining s = 1.
Proof.
  destruct (stats_consistent
              [JObj Examples.sampleHike;
               JObj (Enrich.withAi Examples.sampleHike (JStr "A short walk."))])
    as [[Hreturns _] Hfigures].
  destruct Hreturns as [s E].
  { repeat constructor; discriminate. }
  exists s. split; [exact E |].
  destruct (Hfigures s E) as (Ht & He & Hsum & _).
  rewrite Ht, He in *. cbn in *. repeat split; lia.
Defined.

(** A difficulty that is an object with a property [toString] ends the
    run: [difficulties[d]] cannot make a key of it. *)
Lemma stats_key_throws :
  Stats.computeStats
    [JObj [("slug", JStr "walk");
           ("difficulty", JObj [("toString", JNum (Num 0))])]]
  = Throw TypeError.
Proof. reflexivity. Qed.


(* ====================================================================== *)
(** * The cells of a line *)

Section CellFacts.

Lemma existsb_dropWhile {A} (f g : A -> bool) (l : list A) :
  existsb f l = false -> existsb f (dropWhile g l) = false.
Proof.
  induction l as [| x r IH]; [reflexivity |]. cbn [existsb dropWhile].
  intros H. apply orb_false_iff in H as [Hx Hr].
  destruct (g x); [now apply IH |]. cbn [existsb]. now rewrite Hx, Hr.
Qed.

Lemma existsb_rev {A} (f : A -> bool) (l : list A) :
  existsb f (rev l) = existsb f l.
Proof.
  induction l as [| x r IH]; [reflexivity |].
  cbn [rev existsb]. rewrite existsb_app, IH. cbn [existsb].
  rewrite orb_false_r. apply orb_comm.
Qed.

Lemma existsb_trimL (f : ascii -> bool) (l : list ascii) :
  existsb f l = false -> existsb f (trimL l) = false.
Proof.
  intros H. unfold trimL, trimEndL, trimStartL.
  rewrite existsb_rev. apply existsb_dropWhile.
  rewrite existsb_rev. now apply existsb_dropWhile.
Qed.

Lemma trimL_idem (l : list ascii) : trimL (trimL l) = trimL l.
Proof. apply trimL_fixed; [apply trimL_head | apply trimL_last]. Qed.

(** The pieces between the separators: one more than the separators,
    and none holds a separator. *)
Lemma splitL_pieces (sep : ascii) (l cur : list ascii) :
  existsb (Ascii.eqb sep) cur = false ->
  List.length (splitL sep cur l) = S (count_occ ascii_dec l sep)
  /\ Forall (fun piece => existsb (Ascii.eqb sep) piece = false)
       (splitL sep cur l).
Proof.
  revert cur. induction l as [| c r IH]; intros cur Hcur.
  - cbn. split; [reflexivity |]. constructor; [| constructor].
    now rewrite existsb_rev.
  - cbn [splitL count_occ].
    destruct (Ascii.eqb c sep) eqn:E.
    + apply Ascii.eqb_eq in E. subst c.
      destruct (ascii_dec sep sep) as [_ | Hne]; [| congruence].
      destruct (IH [] eq_refl) as [Hlen Hall]. cbn [List.length].
      split; [now rewrite Hlen |]. constructor; [| exact Hall].
      now rewrite existsb_rev.
    + destruct (ascii_dec c sep) as [-> | _];
        [rewrite Ascii.eqb_refl in E; discriminate |].
      apply IH. cbn [existsb]. rewrite Ascii.eqb_sym, E. exact Hcur.
Qed.

End CellFacts.

(** X28.  A line is cut at every comma, quoted or not: it gives one cell
    more than it has commas, no cell holds a comma, and every cell comes
    trimmed. *)
Theorem csv_cells (line : string) :
  List.length (Preprocess.splitCsvLine line)
  = S (count_occ ascii_dec (chars line) ","%char)
  /\ Forall (fun cell => includes cell "," = false /\ trim cell = cell)
       (Preprocess.splitCsvLine line).
Proof.
  unfold Preprocess.splitCsvLine, split.
  destruct (splitL_pieces ","%char (chars line) [] eq_refl) as [Hlen Hall].
  split; [now rewrite !length_map |].
  rewrite map_map. apply List.Forall_map.
  eapply List.Forall_impl; [| exact Hall].
  intros piece Hp. unfold includes, trim. rewrite !chars_str. split.
  - now apply existsb_trimL.
  - now rewrite trimL_idem.
Qed.


(* ====================================================================== *)
(** * A wider search *)

Lemma ltb_false_above (a b c : number) :
  isNaN a = false -> isNaN b = false ->
  Num.ltb a b = false -> Num.leb a c = true -> Num.ltb c b = false.
Proof.
  destruct a as [| | | x], b as [| | | y], c as [| | | z]; cbn; try easy.
  intros _ _ H1 H2; rbool. apply Rltb_false. lra.
Qed.

Lemma leb_widen (a r1 r2 : number) :
  Num.leb r1 r2 = true -> Num.leb a r1 = true -> Num.leb a r2 = true.
Proof. intros H1 H2. now apply leb_transitive with r1. Qed.

Lemma Int_part_monotone (a b : R) : (a <= b)%R -> (Int_part a <= Int_part b)%Z.
Proof.
  intros H. pose proof (Int_part_bounds a) as [Ha _].
  pose proof (Int_part_bounds b) as [_ Hb].
  assert (Hlt : (Int_part a < Int_part b + 1)%Z).
  { apply lt_IZR. rewrite plus_IZR. lra. }
  lia.
Qed.

Section WiderFacts.

Context {A : Type}.
Variable key : A -> number.

Lemma sort_insert_front (x : A) (m : list A) :
  match m with
  | [] => True
  | z :: _ => Num.ltb (key z) (key x) = false /\ isNaN (key z) = false
  end ->
  isNaN (key x) = false ->
  sort_insert (byKey key) x m = x :: m.
Proof.
  destruct m as [| z m']; [reflexivity |]. intros [Hz Hn] Hx.
  cbn [sort_insert]. unfold before, byKey.
  now rewrite sub_negative, Hz by assumption.
Qed.

Lemma filter_sort_insert_out (p : A -> bool) (x : A) (l : list A) :
  p x = false ->
  List.filter p (sort_insert (byKey key) x l) = List.filter p l.
Proof.
  intros Hx. induction l as [| y r IH]; cbn [sort_insert List.filter].
  - now rewrite Hx.
  - destruct (before (byKey key) y x); cbn [List.filter].
    + now rewrite IH.
    + now rewrite Hx.
Qed.

Variable radius : number.

Lemma filter_sort_insert_in (x : A) (l : list A) :
  Num.leb (key x) radius = true ->
  Forall (fun y => isNaN (key y) = false) l ->
  StronglySorted (fun a b => Num.leb (key a) (key b) = true) l ->
  List.filter (fun h => Num.leb (key h) radius) (sort_insert (byKey key) x l)
  = sort_insert (byKey key) x
      (List.filter (fun h => Num.leb (key h) radius) l).
Proof.
  intros Hx Hn Hs. pose proof (leb_nonNaN _ _ Hx) as [Hxn _].
  induction Hs as [| y r Hs IH Hy]; [cbn; now rewrite Hx |].
  inversion Hn as [| ? ? Hyn Hrn]; subst.
  cbn [sort_insert]. unfold before, byKey at 1.
  rewrite sub_negative by assumption.
  destruct (Num.ltb (key y) (key x)) eqn:E.
  - assert (Hpy : Num.leb (key y) radius = true).
    { apply leb_transitive with (key x); [now apply ltb_leb | exact Hx]. }
    cbn [List.filter]. rewrite Hpy, (IH Hrn). cbn [sort_insert].
    unfold before, byKey at 2. now rewrite sub_negative, E by assumption.
  - cbn [List.filter]. rewrite Hx. symmetry.
    apply sort_insert_front; [| exact Hxn].
    destruct (Num.leb (key y) radius); cbn [List.filter]; [now split |].
    destruct (List.filter _ r) as [| z m] eqn:Ef; [exact I |].
    assert (Hz : In z r).
    { assert (Hin : In z (List.filter
                            (fun h => Num.leb (key h) radius) r))
        by (rewrite Ef; now left).
      now apply List.filter_In in Hin. }
    rewrite List.Forall_forall in Hy, Hrn.
    split; [| now apply Hrn].
    apply (ltb_false_above (key y)); auto.
Qed.

(** Filtering by a radius and sorting by distance commute. *)
Lemma filter_sort (l : list A) :
  Forall (fun y => isNaN (key y) = false) l ->
  List.filter (fun h => Num.leb (key h) radius) (Array_sort (byKey key) l)
  = Array_sort (byKey key) (List.filter (fun h => Num.leb (key h) radius) l).
Proof.
  induction 1 as [| x r Hx Hr IH]; [reflexivity |].
  cbn [Array_sort fold_right List.filter].
  fold (Array_sort (byKey key) r).
  assert (Hsn : Forall (fun y => isNaN (key y) = false)
                  (Array_sort (byKey key) r)).
  { rewrite List.Forall_forall in Hr |- *. intros y Hy. apply Hr.
    revert Hy. apply Permutation_in, Array_sort_perm. }
  destruct (Num.leb (key x) radius) eqn:E.
  - rewrite filter_sort_insert_in; try assumption.
    + cbn [Array_sort fold_right]. now rewrite IH.
    + now apply ascending_strongly, Array_sort_ascending.
  - now rewrite filter_sort_insert_out.
Qed.

(** In a list sorted by distance the hikes within a radius come first. *)
Lemma sorted_within_first (l : list A) :
  StronglySorted (fun a b => Num.leb (key a) (key b) = true) l ->
  exists rest,
    l = List.filter (fun h => Num.leb (key h) radius) l ++ rest.
Proof.
  induction 1 as [| y r Hs [rest IH] Hy].
  - now exists [].
  - cbn [List.filter]. destruct (Num.leb (key y) radius) eqn:E.
    + exists rest. cbn [app]. now rewrite <- IH.
    + exists (y :: r).
      assert (Hnone : List.filter (fun h => Num.leb (key h) radius) r = []).
      { rewrite List.Forall_forall in Hy.
        destruct (List.filter _ r) as [| z m] eqn:Ef; [reflexivity |].
        assert (Hin : In z (List.filter
                              (fun h => Num.leb (key h) radius) r))
          by (rewrite Ef; now left).
        apply List.filter_In in Hin as [Hz Hzr].
        rewrite (leb_transitive _ _ _ (Hy z Hz) Hzr) in E. discriminate. }
      now rewrite Hnone.
Qed.

(** ** The slice *)

Lemma firstn_plus (a b : nat) (l : list A) :
  firstn (a + b) l = firstn a l ++ firstn b (skipn a l).
Proof.
  revert l. induction a as [| n IH]; intros l; [reflexivity |].
  destruct l as [| x r]; [now rewrite !firstn_nil |].
  cbn [Nat.add firstn skipn app]. f_equal. apply IH.
Qed.

Lemma firstn_extend (t1 t2 : nat) (l : list A) :
  (t1 <= t2)%nat -> exists more, firstn t2 l = firstn t1 l ++ more.
Proof.
  intros H. exists (firstn (t2 - t1) (skipn t1 l)).
  replace t2 with (t1 + (t2 - t1))%nat at 1 by lia.
  apply firstn_plus.
Qed.

Lemma slice_count_of (l : list A) (r : R) :
  (0 <= r)%R -> Array_slice0 l (Num r) = firstn (Z.to_nat (Int_part r)) l.
Proof.
  intros Hr. unfold Array_slice0, slice_end, Rtrunc.
  rewrite (proj2 (Rltb_false r 0)) by lra.
  pose proof (Int_part_nonneg r Hr) as Hk.
  destruct (Z.ltb_spec (Int_part r) 0) as [Hneg | _]; [lia |].
  rewrite Z2Nat.inj_min, Nat2Z.id.
  destruct (Nat.le_ge_cases (Z.to_nat (Int_part r)) (List.length l)) as [H | H].
  - now rewrite Nat.min_l.
  - rewrite Nat.min_r by exact H. now rewrite firstn_all, firstn_all2.
Qed.

(** A higher limit and a longer list only append. *)
Lemma slice_extends (P Q : list A) (k1 k2 : number) :
  Num.ltb (Num 0) k1 = true -> Num.leb k1 k2 = true ->
  exists more, Array_slice0 (P ++ Q) k2 = Array_slice0 P k1 ++ more.
Proof.
  destruct k1 as [| | | a], k2 as [| | | b]; cbn [Num.ltb Num.leb];
    try discriminate.
  - intros _ _. exists Q. unfold Array_slice0, slice_end.
    now rewrite !firstn_all.
  - intros Ha _. rbool. rewrite slice_count_of by lra.
    unfold Array_slice0 at 1, slice_end. rewrite firstn_all.
    exists (skipn (Z.to_nat (Int_part a)) P ++ Q).
    now rewrite app_assoc, firstn_skipn.
  - intros Ha Hab. rbool. rewrite !slice_count_of by lra.
    set (t1 := Z.to_nat (Int_part a)). set (t2 := Z.to_nat (Int_part b)).
    assert (Ht : (t1 <= t2)%nat).
    { apply Z2Nat.inj_le; [apply Int_part_nonneg; lra
                          | apply Int_part_nonneg; lra
                          | now apply Int_part_monotone]. }
    destruct (firstn_extend t1 t2 P Ht) as [more Hmore].
    exists (more ++ firstn (t2 - List.length P) Q).
    now rewrite firstn_app, Hmore, app_assoc.
Qed.

End WiderFacts.

Section WiderSearch.

Context {A : Type}.
Variable key : A -> number.

(** The chain of both searches, with a wider radius and a higher limit. *)
Lemma nearest_extends (r1 r2 k1 k2 : number) (corpus : list A) :
  Num.leb r1 r2 = true ->
  Num.ltb (Num 0) k1 = true -> Num.leb k1 k2 = true ->
  exists more,
    nearest key r2 k2 corpus = nearest key r1 k1 corpus ++ more.
Proof.
  intros Hr Hk1 Hk. unfold nearest.
  set (W2 := List.filter (fun h => Num.leb (key h) r2) corpus).
  assert (Hn2 : Forall (fun y => isNaN (key y) = false) W2).
  { apply List.Forall_forall. intros y Hy.
    apply List.filter_In in Hy as [_ Hy]. now apply leb_nonNaN in Hy. }
  assert (E1 : List.filter (fun h => Num.leb (key h) r1) corpus
               = List.filter (fun h => Num.leb (key h) r1) W2).
  { unfold W2. rewrite filter_filter. apply List.filter_ext. intros h.
    destruct (Num.leb (key h) r1) eqn:E; [| now rewrite ?andb_false_r].
    now rewrite (leb_widen _ _ _ Hr E). }
  rewrite E1, <- (filter_sort key r1 W2 Hn2).
  destruct (sorted_within_first key r1 (Array_sort (byKey key) W2))
    as [rest Hrest].
  { now apply ascending_strongly, Array_sort_ascending. }
  destruct (slice_extends
              (List.filter (fun h => Num.leb (key h) r1)
                 (Array_sort (byKey key) W2)) rest k1 k2 Hk1 Hk)
    as [more Hmore].
  exists more. rewrite <- Hmore. now rewrite <- Hrest.
Qed.

End WiderSearch.

(** X29.  A wider search only appends.  With a radius at least as wide
    and a limit at least as high (the lower limit above zero), each
    search returns the results of the narrower search, in the same
    order, and then possibly more. *)
Theorem wider_search_extends (StringToNumber : string -> number)
    (postcodeRecord center : json) (hikes all : list json) (slug : string)
    (r1 r2 k1 k2 : number) :
  Num.leb r1 r2 = true ->
  Num.ltb (Num 0) k1 = true -> Num.leb k1 k2 = true ->
  (forall found1 found2,
      Route.searchResults StringToNumber postcodeRecord hikes r1 k1
      = Normal found1 ->
      Route.searchResults StringToNumber postcodeRecord hikes r2 k2
      = Normal found2 ->
      exists more, found2 = found1 ++ more)
  /\ (forall near1 near2,
         Lib.nearby StringToNumber center all slug r1 k1 = Normal near1 ->
         Lib.nearby StringToNumber center all slug r2 k2 = Normal near2 ->
         exists more, near2 = near1 ++ more).
Proof.
  intros Hr Hk1 Hk. split.
  - intros found1 found2 H1 H2.
    apply Route_searchResults_Normal in H1, H2. subst found1 found2.
    now apply nearest_extends.
  - intros near1 near2 H1 H2.
    apply Lib_nearby_Normal in H1, H2. subst near1 near2.
    now apply nearest_extends.
Qed.

(** The hike eleven metres away, found within ten metres and within
    thirty kilometres. *)
Lemma wider_search_extends_witness :
  exists found1 found2 more,
    Route.searchResults Examples.noNumerals Examples.equatorPostcode
      [Examples.nearHike] (Num (1 / 100)) (Num 4) = Normal found1
    /\ Route.searchResults Examples.noNumerals Examples.equatorPostcode
         [Examples.nearHike] (Num 30) (Num 20) = Normal found2
    /\ found2 = found1 ++ more.
Proof.
  assert (Hr : Num.leb (Num (1 / 100)) (Num 30) = true)
    by (apply Rleb_true; lra).
  assert (Hk1 : Num.ltb (Num 0) (Num 4) = true) by (apply Rltb_true; lra).
  assert (Hk : Num.leb (Num 4) (Num 20) = true) by (apply Rleb_true; lra).
  assert (H1 := postcode_search_near (Num (1 / 100)) (Num 4)
                  (leb_refl_Num _) atMost_1_4).
  assert (H2 := postcode_search_near (Num 30) (Num 20) Hr atMost_1_20).
  destruct (proj1 (wider_search_extends Examples.noNumerals
                     Examples.equatorPostcode Examples.equatorHike
                     [Examples.nearHike] [] "origin"
                     (Num (1 / 100)) (Num 30) (Num 4) (Num 20) Hr Hk1 Hk)
              _ _ H1 H2) as [more Hmore].
  do 3 eexists. split; [exact H1 |]. split; [exact H2 | exact Hmore].
Defined.


(* ====================================================================== *)
(** * Nearness is mutual *)

Section MutualFacts.

(** The distance is the same in both directions, for all numbers. *)
Lemma haversineKm_symmetric (lat1 lon1 lat2 lon2 : number) :
  Lib.haversineKm lat1 lon1 lat2 lon2 = Lib.haversineKm lat2 lon2 lat1 lon1.
Proof.
  destruct (haversineKm_cases lat1 lon1 lat2 lon2) as [E | [x E]];
    destruct (haversineKm_cases lat2 lon2 lat1 lon1) as [E' | [y E']].
  - congruence.
  - destruct (haversineKm_Num _ _ _ _ _ E') as (a & b & c & d & H).
    destruct H as (-> & -> & -> & ->).
    rewrite haversineKm_finite in E. discriminate.
  - destruct (haversineKm_Num _ _ _ _ _ E) as (a & b & c & d & H).
    destruct H as (-> & -> & -> & ->).
    rewrite haversineKm_finite in E'. discriminate.
  - destruct (haversineKm_Num _ _ _ _ _ E) as (a & b & c & d & H).
    destruct H as (-> & -> & -> & ->).
    now rewrite !haversineKm_finite, hav_km_sym.
Qed.

Variable StringToNumber : string -> number.

Lemma distanceFromCenter_symmetric (a b : json) :
  distanceFromCenter StringToNumber a b = distanceFromCenter StringToNumber b a.
Proof. unfold distanceFromCenter, distanceTo. apply haversineKm_symmetric. Qed.

(** With a limit that covers the corpus, a candidate is listed exactly
    when it lies within the radius. *)
Lemma nearby_lists (center h : json) (all : list json) (slug : string)
    (radius limit : number) :
  In h all -> nearbyCandidate slug h = true ->
  atMost (List.length all) limit ->
  In (nearbyAnnotated StringToNumber center h)
     (nearest (Lib.distance_from_start_km StringToNumber) radius limit
        (map (nearbyAnnotated StringToNumber center)
             (List.filter (nearbyCandidate slug) all)))
  <-> Num.leb (distanceFromCenter StringToNumber center h) radius = true.
Proof.
  intros Hin Hcand Hlimit.
  set (corpus := map (nearbyAnnotated StringToNumber center)
                   (List.filter (nearbyCandidate slug) all)).
  assert (Hperm : Permutation
                    (nearest (Lib.distance_from_start_km StringToNumber)
                       radius limit corpus)
                    (Laws.withinRadius
                       (Lib.distance_from_start_km StringToNumber)
                       radius corpus)).
  { apply nearest_all. apply atMost_le with (List.length all); [assumption |].
    unfold corpus. rewrite length_map. apply List.filter_length_le. }
  split.
  - intros H. apply (Permutation_in _ Hperm) in H.
    unfold Laws.withinRadius in H. apply List.filter_In in H as [_ H].
    now rewrite nearbyAnnotated_key in H.
  - intros H. apply (Permutation_in _ (Permutation_sym Hperm)).
    unfold Laws.withinRadius. apply List.filter_In. split.
    + unfold corpus. apply in_map. apply List.filter_In. now split.
    + now rewrite nearbyAnnotated_key.
Qed.

End MutualFacts.

(** X30.  Nearness is mutual.  For two hikes of the corpus with numbers
    for start coordinates, each not the hike the other is asked for by
    slug, and a limit that covers the corpus: both searches return, the
    one lists the second hike exactly when the other lists the first,
    and both show the same distance. *)
Theorem nearness_is_mutual (StringToNumber : string -> number)
    (fs : FileSystem) (sa sb : string) (radius limit : number) :
  let a := Lib.getHikeBySlug fs sa in
  let b := Lib.getHikeBySlug fs sb in
  let all := Lib.getAllHikes fs in
  In a all -> In b all ->
  numericStart a = true -> numericStart b = true ->
  is_string (prop a "slug") sb = false ->
  is_string (prop b "slug") sa = false ->
  atMost (List.length all) limit ->
  exists nearA nearB,
    Lib.getNearbyHikes StringToNumber fs sa (Some radius) (Some limit)
    = Normal nearA
    /\ Lib.getNearbyHikes StringToNumber fs sb (Some radius) (Some limit)
       = Normal nearB
    /\ (In (nearbyAnnotated StringToNumber a b) nearA
        <-> In (nearbyAnnotated StringToNumber b a) nearB)
    /\ Lib.distance_from_start_km StringToNumber
         (nearbyAnnotated StringToNumber a b)
       = Lib.distance_from_start_km StringToNumber
           (nearbyAnnotated StringToNumber b a).
Proof.
  intros a b all Ha Hb Hna Hnb Hsa Hsb Hlimit.
  destruct (numericStart_shape a Hna) as (Han & astart & Eas & Has & _).
  destruct (numericStart_shape b Hnb) as (Hbn & bstart & Ebs & Hbs & _).
  assert (Hall : Forall (fun h => h <> JNull) all)
    by apply getAllHikes_not_null.
  assert (Hta : truthy (Some a) = true) by now apply numericStart_truthy.
  assert (Htb : truthy (Some b) = true) by now apply numericStart_truthy.
  do 2 eexists. split; [| split; [| split]].
  - unfold Lib.getNearbyHikes. fold a. rewrite Hta. cbn [negb default].
    fold all. apply Lib_nearby_returns; [| assumption].
    now apply numericStart_anchored.
  - unfold Lib.getNearbyHikes. fold b. rewrite Htb. cbn [negb default].
    fold all. apply Lib_nearby_returns; [| assumption].
    now apply numericStart_anchored.
  - assert (Hcb : nearbyCandidate sa b = true)
      by (unfold nearbyCandidate; now rewrite Hsb, Hnb).
    assert (Hca : nearbyCandidate sb a = true)
      by (unfold nearbyCandidate; now rewrite Hsa, Hna).
    rewrite (nearby_lists StringToNumber a b all sa radius limit Hb Hcb Hlimit).
    rewrite (nearby_lists StringToNumber b a all sb radius limit Ha Hca Hlimit).
    now rewrite distanceFromCenter_symmetric.
  - rewrite !nearbyAnnotated_key. apply distanceFromCenter_symmetric.
Qed.

(** Two hikes with one start: each is listed near the other, at no
    distance. *)
Lemma nearness_is_mutual_witness :
  exists nearA nearB,
    Lib.getNearbyHikes Examples.noNumerals Examples.twinStore "origin"
      (Some (Num 30)) (Some (Num 4)) = Normal nearA
    /\ Lib.getNearbyHikes Examples.noNumerals Examples.twinStore "twin"
         (Some (Num 30)) (Some (Num 4)) = Normal nearB
    /\ (In (nearbyAnnotated Examples.noNumerals Examples.equatorHike
              Examples.twinHike) nearA
        <-> In (nearbyAnnotated Examples.noNumerals Examples.twinHike
                  Examples.equatorHike) nearB).
Proof.
  destruct (nearness_is_mutual Examples.noNumerals Examples.twinStore
              "origin" "twin" (Num 30) (Num 4))
    as (nearA & nearB & HA & HB & Hiff & _).
  - left. reflexivity.
  - right. left. reflexivity.
  - reflexivity.
  - reflexivity.
  - reflexivity.
  - reflexivity.
  - exact atMost_2_4.
  - exists nearA, nearB. split; [exact HA |]. split; [exact HB |].
    exact Hiff.
Defined.
